(** * Organization statistics jobs: lines-of-code leaderboard and commit activity

    A shallow embedding of [scripts/generate_lines_stats.py] and
    [scripts/generate_activity_graph.py], followed by the properties
    established about them.

    Conventions of the embedding:
    - Python [int] is [Z];
    - Python [float] is the exact rational value of a finite binary64 number
      (module [Float64]); every arithmetic operation rounds the exact result
      to nearest, ties to even, with a 53-bit significand; where a property
      depends on the exponent range, the rounding with the range and the
      exceptions of the operations are modelled as well ([Float64.round64],
      [calc_diff_boxes_exc]);
    - Python [str] is [string] (a byte string; non-ASCII characters are their
      UTF-8 bytes);
    - a [dict] read only by key is a [gmap]; a [dict] whose iteration order is
      observed is an association list in insertion order;
    - the network and the clock are explicit inputs. *)

From Stdlib Require Import ZArith QArith Qround Qpower Qabs Lia Lqa.
From Stdlib Require Import Ascii DecimalString SpecFloat.
From stdpp Require Import gmap strings list fin_maps sorting.
From Equations Require Import Equations.

Local Open Scope Z_scope.

(** ** Binary64 arithmetic *)

Module Float64.

(** Number of significand bits. *)
Definition prec : Z := 53.

(** Round half to even, to an integer: Python's [round(x)] on a float, and
    the significand rounding of every binary64 operation. *)
Definition rne (q : Q) : Z :=
  let f := Qfloor q in
  match Qcompare (q - inject_Z f) (1 # 2) with
  | Lt => f
  | Gt => f + 1
  | Eq => if Z.even f then f else f + 1
  end.

(** Binary magnitude of a non-zero rational: the [e] with
    [2^(e-1) <= |q| < 2^e]. *)
Definition mag (q : Q) : Z :=
  let k := Z.log2 (Z.abs (Qnum q)) - Z.log2 (Zpos (Qden q)) in
  if Qle_bool (Qpower 2 k) (Qabs q) then k + 1 else k.

(** Rounding of an exact result to binary64 (normal range; the exponent
    bounds are never approached by the counts handled here). The result is
    kept in lowest terms, so equal floats are equal terms. *)
Definition rnd (x : Q) : Q :=
  let q := Qred x in
  if Qeq_bool q 0 then 0%Q
  else
    let c := mag q - prec in
    Qred (inject_Z (rne (q * Qpower 2 (- c))) * Qpower 2 c).

(** [float(n)] and the implicit conversion of an [int] operand. *)
Definition of_int (n : Z) : Q := rnd (inject_Z n).

(** [a / b] on two ints (true division, correctly rounded). The callers
    guard [b <> 0]. This is the value of the quotient within the normal
    range; [true_div_exc] below has the whole range and the exceptions. *)
Definition true_div (a b : Z) : Q := rnd (inject_Z a / inject_Z b).

Definition fmul (x y : Q) : Q := rnd (x * y).
Definition fdiv (x y : Q) : Q := rnd (x / y).
Definition fadd (x y : Q) : Q := rnd (x + y).
Definition fsub (x y : Q) : Q := rnd (x - y).

(** The exponent [rnd] works at. *)
Definition rnd_exp (x : Q) : Z := mag (Qred x) - prec.

(** The exponent of the least subnormal, and the first power of two beyond
    the finite range. *)
Definition emin : Z := -1074.
Definition emax : Z := 1024.

(** Rounding of an exact result to binary64 with the exponent range:
    gradual underflow (no ulp below [2^emin]), and [None] when the rounded
    magnitude reaches [2^emax], where the hardware gives an infinity. From
    [2^-1022] up this is [rnd] with the test of the range. *)
Definition round64 (x : Q) : option Q :=
  let q := Qred x in
  if Qeq_bool q 0 then Some 0%Q
  else
    let c := Z.max (mag q - prec) emin in
    let r := Qred (inject_Z (rne (q * Qpower 2 (- c))) * Qpower 2 c) in
    if Qle_bool (Qpower 2 emax) (Qabs r) then None else Some r.

(** [a / b] on two ints with its exceptions: [None] is ZeroDivisionError
    ([b = 0]) or OverflowError (the rounded quotient is beyond the finite
    range). *)
Definition true_div_exc (a b : Z) : option Q :=
  if b =? 0 then None else round64 (inject_Z a / inject_Z b).

End Float64.

(** ** Strings *)

(** [str(n)] for an int. *)
Definition str (n : Z) : string := NilZero.string_of_int (Z.to_int n).

(** The formats [%02d] and [%04d] on a non-negative int. *)
Definition pad (w : nat) (n : Z) : string :=
  let s := str n in
  String.concat EmptyString (replicate (w - String.length s) "0") +:+ s.

(** Reading back a zero-padded field. *)
Definition unpad (s : string) : Z :=
  match NilEmpty.uint_of_string s with
  | Some u => Z.of_uint u
  | None => -1
  end.

(** A field that prints at its width and reads back. *)
Definition pad_ok (w : nat) (n : Z) : bool :=
  (String.length (pad w n) =? w)%nat && (unpad (pad w n) =? n).

(** The templates below are the scripts' literals with every double quote
    written as an apostrophe; [py] restores the double quotes. *)
Fixpoint py (s : string) : string :=
  match s with
  | EmptyString => EmptyString
  | String c r => String (if Ascii.eqb c "'"%char then Ascii.ascii_of_nat 34 else c) (py r)
  end.

(** Python's [s * n]. *)
Definition repeat_str (s : string) (n : Z) : string :=
  String.concat EmptyString (replicate (Z.to_nat n) s).

(** The format specification [.1f] on a float: the sign, then the magnitude
    rounded half-even to one decimal. *)
Definition format_1f (v : Q) : string :=
  let t := Float64.rne (Qabs v * 10) in
  (if Qlt_le_dec v 0 then "-" else EmptyString) +:+ str (t / 10) +:+ "." +:+ str (t mod 10).

(** The decimal digits of a dyadic fraction [0 <= r < 1]. *)
Fixpoint frac_digits (fuel : nat) (r : Q) : string :=
  match fuel with
  | O => EmptyString
  | S k =>
      if Qeq_bool r 0 then EmptyString
      else let d := Qfloor (r * 10) in str d +:+ frac_digits k (r * 10 - inject_Z d)
  end.

(** [repr(v)], which an f-string field without a format uses. Python prints
    the shortest decimal that reads back as [v]; for a float whose exact
    decimal expansion has at most 15 significant digits (every gridline
    coordinate, a small multiple of 1/4) that is the exact expansion, which
    is what this function prints. *)
Definition repr_float (v : Q) : string :=
  let a := Qabs v in
  let f := frac_digits (Pos.size_nat (Qden (Qred v))) (a - inject_Z (Qfloor a)) in
  (if Qlt_le_dec v 0 then "-" else EmptyString) +:+ str (Qfloor a) +:+ "." +:+
  (if String.eqb f EmptyString then "0" else f).

(** ** Dates and the clock *)

Module Calendar.

(** A [date] is its proleptic Gregorian ordinal (1 is 0001-01-01), as in
    [datetime]; [ord2ymd] is the library's conversion to year, month, day. *)
Definition DI400Y : Z := 146097.
Definition DI100Y : Z := 36524.
Definition DI4Y : Z := 1461.

Definition DAYS_IN_MONTH : list Z :=
  [-1; 31; 28; 31; 30; 31; 30; 31; 31; 30; 31; 30; 31].

Definition DAYS_BEFORE_MONTH : list Z :=
  [-1; 0; 31; 59; 90; 120; 151; 181; 212; 243; 273; 304; 334].

Definition at_index (table : list Z) (i : Z) : Z := nth (Z.to_nat i) table 0.

Definition ord2ymd (ordinal : Z) : Z * Z * Z :=
  let n := ordinal - 1 in
  let n400 := n / DI400Y in
  let n := n mod DI400Y in
  let year := n400 * 400 + 1 in
  let n100 := n / DI100Y in
  let n := n mod DI100Y in
  let n4 := n / DI4Y in
  let n := n mod DI4Y in
  let n1 := n / 365 in
  let n := n mod 365 in
  let year := year + n100 * 100 + n4 * 4 + n1 in
  if (n1 =? 4) || (n100 =? 4) then (year - 1, 12, 31)
  else
    let leapyear := (n1 =? 3) && (negb (n4 =? 24) || (n100 =? 3)) in
    let month := Z.shiftr (n + 50) 5 in
    let preceding :=
      at_index DAYS_BEFORE_MONTH month + (if (2 <? month) && leapyear then 1 else 0) in
    if n <? preceding then
      let month := month - 1 in
      let preceding :=
        preceding - (at_index DAYS_IN_MONTH month + (if (month =? 2) && leapyear then 1 else 0)) in
      (year, month, n - preceding + 1)
    else (year, month, n - preceding + 1).

(** [date.toordinal()], the library's way back. *)
Definition is_leap (year : Z) : bool :=
  (year mod 4 =? 0) && (negb (year mod 100 =? 0) || (year mod 400 =? 0)).

Definition days_before_year (year : Z) : Z :=
  let y := year - 1 in
  y * 365 + y / 4 - y / 100 + y / 400.

Definition days_before_month (year month : Z) : Z :=
  at_index DAYS_BEFORE_MONTH month + (if (2 <? month) && is_leap year then 1 else 0).

Definition ymd2ord (ymd : Z * Z * Z) : Z :=
  let '(year, month, day) := ymd in
  days_before_year year + days_before_month year month + day.

(** [date.isoformat()]. *)
Definition isoformat (ordinal : Z) : string :=
  let '(y, m, d) := ord2ymd ordinal in
  pad 4 y +:+ "-" +:+ pad 2 m +:+ "-" +:+ pad 2 d.

(** The largest ordinal [datetime] represents (9999-12-31). *)
Definition max_ordinal : Z := 3652059.

(** The clock reading is the POSIX time in whole seconds; neither script
    observes more. [1970-01-01] has ordinal 719163. *)
Definition utc_date (clock : Z) : Z := 719163 + clock / 86400.

Definition month_abbr (m : Z) : string :=
  nth (Z.to_nat m)
    [""; "Jan"; "Feb"; "Mar"; "Apr"; "May"; "Jun"; "Jul"; "Aug"; "Sep"; "Oct"; "Nov"; "Dec"]
    EmptyString.

(** [datetime.now(kst).strftime('%d %b %Y, %H:%M:%S')] with [kst] nine hours
    east of UTC (month names of the C locale; years of four digits). *)
Definition strftime_kst (clock : Z) : string :=
  let local := clock + 9 * 3600 in
  let '(y, m, d) := ord2ymd (719163 + local / 86400) in
  let s := local mod 86400 in
  pad 2 d +:+ " " +:+ month_abbr m +:+ " " +:+ str y +:+ ", " +:+
  pad 2 (s / 3600) +:+ ":" +:+ pad 2 (s mod 3600 / 60) +:+ ":" +:+ pad 2 (s mod 60).

(** The month and day of the [n]-th day (from 0) of a year, as [ord2ymd]
    computes them. *)
Definition month_day (leapyear : bool) (n : Z) : Z * Z :=
  let month := Z.shiftr (n + 50) 5 in
  let preceding :=
    at_index DAYS_BEFORE_MONTH month + (if (2 <? month) && leapyear then 1 else 0) in
  if n <? preceding then
    let month := month - 1 in
    let preceding :=
      preceding - (at_index DAYS_IN_MONTH month + (if (month =? 2) && leapyear then 1 else 0)) in
    (month, n - preceding + 1)
  else (month, n - preceding + 1).

Definition month_day_ok (leapyear : bool) (n : Z) : bool :=
  let '(m, d) := month_day leapyear n in
  (1 <=? m) && (m <=? 12) && (1 <=? d) && (d <=? 31) &&
  (at_index DAYS_BEFORE_MONTH m + (if (2 <? m) && leapyear then 1 else 0) + d =? n + 1).

End Calendar.

(** ** generate_lines_stats.py *)

Definition ORG_NAME : string := "kornukopia-ai".

(** *** The statistics endpoint *)

(** One row of the code-frequency series: week start, additions, deletions. *)
Definition week : Type := list Z.

Record response : Type := Response { status_code : Z; json : list week }.

(** The host: the answer to the [t]-th request of the run, for a
    repository's code-frequency URL. *)
Definition server : Type := string -> nat -> response.

(** What a run has done to the outside so far: requests issued, and
    milliseconds slept. *)
Record world : Type := World { requests : nat; slept : Z }.

Definition tick (w : world) : world := World (S (requests w)) (slept w).
Definition sleep (ms : Z) (w : world) : world := World (requests w) (slept w + ms).

Definition max_wait : Z := 60.
Definition wait_time : Z := 5.

(** The [while waited < max_wait] loop of [get_code_frequency]. *)
Equations? poll (srv : server) (repo_name : string) (waited : Z) (w : world)
  : list week * world by wf (Z.to_nat (max_wait - waited)) lt :=
poll srv repo_name waited w with Z_lt_dec waited max_wait => {
  | left _ =>
      let resp := srv repo_name (requests w) in
      if status_code resp =? 200 then
        match json resp with
        | _ :: _ => (json resp, tick w)
        | [] => poll srv repo_name (waited + wait_time) (sleep (wait_time * 1000) (tick w))
        end
      else if status_code resp =? 202 then
        poll srv repo_name (waited + wait_time) (sleep (wait_time * 1000) (tick w))
      else ([], tick w)
  | right _ => ([], w) }.
Proof. all: unfold max_wait, wait_time in *; lia. Qed.

Definition get_code_frequency (srv : server) (repo_name : string) (w : world)
  : list week * world :=
  poll srv repo_name 0 w.

(** *** Formatting and boxes *)

Definition format_number (n : Z) : string :=
  if 1000000 <=? Z.abs n then format_1f (Float64.true_div n 1000000) +:+ "M"
  else if 1000 <=? Z.abs n then format_1f (Float64.true_div n 1000) +:+ "k"
  else str n.

(** [round(r * 5)] where [r] is [v / total if total > 0 else 0]: a float
    product in the first case, the int [0] in the second. *)
Definition ratio_boxes (v total : Z) : Z :=
  if 0 <? total
  then Float64.rne (Float64.fmul (Float64.true_div v total) (Float64.of_int 5))
  else 0.

Definition calc_diff_boxes (additions deletions max_total : Z) : Z * Z :=
  let total := additions + deletions in
  if max_total =? 0 then (0, 0)
  else
    let ratio := Float64.true_div total max_total in
    let add_boxes :=
      if 0 <? additions then Z.max 1 (Z.min 5 (ratio_boxes additions total)) else 0 in
    let del_boxes :=
      if 0 <? deletions then Z.max 1 (Z.min 5 (ratio_boxes deletions total)) else 0 in
    (add_boxes, del_boxes).

(** A Python number as [calc_diff_boxes] handles them: an int, a finite
    float, or an infinity. *)
Inductive number : Type :=
  | Int (z : Z)
  | Float (q : Q)
  | Inf (negative : bool).

(** [x * 5]: on an int exact; on a float rounded, an infinity on overflow
    (float multiplication does not raise). *)
Definition times_5 (x : number) : number :=
  match x with
  | Int z => Int (z * 5)
  | Float q =>
      match Float64.round64 (q * 5) with
      | Some r => Float r
      | None => Inf (negb (Qle_bool 0 q))
      end
  | Inf s => Inf s
  end.

(** [round(x)]: [None] is the OverflowError of an infinity. *)
Definition py_round (x : number) : option Z :=
  match x with
  | Int z => Some z
  | Float q => Some (Float64.rne q)
  | Inf _ => None
  end.

(** [v / total if total > 0 else 0]. *)
Definition ratio_exc (v total : Z) : option number :=
  if 0 <? total then Float <$> Float64.true_div_exc v total else Some (Int 0).

(** [max(1, min(5, round(r * 5))) if v > 0 else 0]. *)
Definition boxes_exc (v : Z) (r : number) : option Z :=
  if 0 <? v then (fun n => Z.max 1 (Z.min 5 n)) <$> py_round (times_5 r) else Some 0.

(** [calc_diff_boxes] with its exceptions: [None] is a call that raises
    (OverflowError: every divisor is checked before it divides). *)
Definition calc_diff_boxes_exc (additions deletions max_total : Z) : option (Z * Z) :=
  let total := additions + deletions in
  if max_total =? 0 then Some (0, 0)
  else
    ratio ← Float64.true_div_exc total max_total;
    add_ratio ← ratio_exc additions total;
    del_ratio ← ratio_exc deletions total;
    add_boxes ← boxes_exc additions add_ratio;
    del_boxes ← boxes_exc deletions del_ratio;
    Some (add_boxes, del_boxes).

(** *** The leaderboard *)

Record stats : Type := Stats { additions : Z; deletions : Z }.

(** [repo_stats]: a dict, in insertion order. *)
Definition dict_keys {V : Type} (d : list (string * V)) : list string := d.*1.

(** [d[k] = v]: a present key keeps its place, a new one goes last. *)
Fixpoint dict_set {V : Type} (k : string) (v : V) (d : list (string * V))
  : list (string * V) :=
  match d with
  | [] => [(k, v)]
  | (k', v') :: r => if String.eqb k' k then (k', v) :: r else (k', v') :: dict_set k v r
  end.

(** [sorted(items, key=key, reverse=True)]: descending by key, stable (items
    of equal key stay in their original order). *)
Fixpoint insert_desc {A : Type} (key : A -> Z) (x : A) (l : list A) : list A :=
  match l with
  | [] => [x]
  | y :: r => if key x <? key y then y :: insert_desc key x r else x :: y :: r
  end.

Definition sorted_desc {A : Type} (key : A -> Z) (l : list A) : list A :=
  foldr (insert_desc key) [] l.

(** [max] of a non-empty sequence (the callers guard emptiness). *)
Definition py_max (l : list Z) : Z :=
  match l with
  | [] => 0
  | x :: r => foldl Z.max x r
  end.

(** [sum] of a sequence of ints. *)
Definition py_sum (l : list Z) : Z := foldr Z.add 0 l.

Definition sort_key (x : string * stats) : Z :=
  additions x.2 + Z.abs (deletions x.2).

Definition top_repos (repo_stats : list (string * stats)) : list (string * stats) :=
  take 10 (sorted_desc sort_key repo_stats).

Definition left_row (repo_name : string) : string :=
  py "                        <div class='field'>
                            <svg xmlns='http://www.w3.org/2000/svg' viewBox='0 0 16 16' width='16' height='16'>
                                <path fill-rule='evenodd' d='M8 5.5a2.5 2.5 0 100 5 2.5 2.5 0 000-5zM4 8a4 4 0 118 0 4 4 0 01-8 0z'/>
                            </svg>
                            <span class='diff-handle'>" +:+
  ORG_NAME +:+
  "/" +:+
  repo_name +:+
  "</span>
                        </div>".

Definition right_row (max_total : Z) (st : stats) : string :=
  let additions := additions st in
  let deletions := Z.abs (deletions st) in
  let '(add_boxes, del_boxes) := calc_diff_boxes additions deletions max_total in
  let boxes_html :=
    repeat_str (py "<div class='diff-box added'></div>") add_boxes +:+
    repeat_str (py "<div class='diff-box deleted'></div>") del_boxes in
  py "                        <div class='field'>
                            " +:+
  boxes_html +:+
  py "
                            <div class='diff-stats'>
                                <span class='added'> +" +:+
  format_number additions +:+
  py "</span>
                                <span class='deleted'> -" +:+
  format_number deletions +:+
  "</span>
                            </div>
                            <span> </span>
                        </div>".

(** [generate_lines_svg(repo_stats, width)], with the clock reading it takes
    for the footer. *)
Definition generate_lines_svg (repo_stats : list (string * stats)) (width : Z) (clock : Z)
  : string :=
  let top_repos := top_repos repo_stats in
  let total_added := py_sum ((fun r => additions r.2) <$> repo_stats) in
  let total_deleted := py_sum ((fun r => Z.abs (deletions r.2)) <$> repo_stats) in
  let max_total :=
    match top_repos with
    | [] => 1
    | _ => py_max (sort_key <$> top_repos)
    end in
  let row_height := 22 in
  let header_height := 40 in
  let footer_height := 30 in
  let height := header_height + Z.of_nat (length top_repos) * row_height + footer_height in
  let now := Calendar.strftime_kst clock in
  let left_rows := (fun r => left_row r.1) <$> top_repos in
  let right_rows := (fun r => right_row max_total r.2) <$> top_repos in
  let left_html := String.concat "
" left_rows in
  let right_html := String.concat "
" right_rows in
  py "<svg xmlns='http://www.w3.org/2000/svg' width='" +:+
  str width +:+
  py "' height='" +:+
  str height +:+
  py "' class=''>
    <defs>
        <style/>
    </defs>
    <style>svg{font-family:-apple-system,BlinkMacSystemFont,Segoe UI,Helvetica,Arial,sans-serif,Apple Color Emoji,Segoe UI Emoji;font-size:14px;color:#777}h1,h2{margin:8px 0 2px;padding:0;color:#0366d6;font-size:20px;font-weight:700}h2{font-weight:400;font-size:16px}h1 svg,h2 svg{fill:currentColor}section>.field{margin-left:5px;margin-right:5px}.field{display:flex;align-items:center;margin-bottom:2px;white-space:nowrap}.field svg{margin:0 8px;fill:#959da5;flex-shrink:0}.row{display:flex;flex-wrap:wrap}.row section{flex:1 1 0}footer{margin-top:8px;font-size:10px;font-style:italic;color:#666;text-align:right;display:flex;flex-direction:column;justify-content:flex-end;padding:0 4px}.diff-handle{color:#58a6ff;max-width:200px;text-overflow:ellipsis;overflow:hidden}.diff-box{display:inline-block;width:8px;height:8px;margin-left:1px;background-color:rgba(110,118,129,.4);border:1px solid rgba(246,240,251,.1)}.diff-box:first-child{margin-left:9px}.diff-box.added{background-color:#3fb950}.diff-box.deleted{background-color:#da3633}.diff-stats,code,span.code{font-family:SFMono-Regular,Consolas,Liberation Mono,Menlo,monospace}.diff-stats{margin-left:4px;font-weight:700;font-size:12px;white-space:nowrap}.added{color:#3fb950}.deleted{color:#da3633}code,span.code{background-color:#7777771f;padding:1px 5px;font-size:80%;border-radius:6px;color:#777}code{display:inline-block}span.code{margin:0 4px -3px}#metrics-end{width:100%}</style>
    <style/>
    <foreignObject x='0' y='0' width='100%' height='100%'>
        <div xmlns='http://www.w3.org/1999/xhtml' xmlns:xlink='http://www.w3.org/1999/xlink' class='items-wrapper'>
            <section>
                <h2 class='field'>
                    <svg xmlns='http://www.w3.org/2000/svg' viewBox='0 0 16 16' width='16' height='16'>
                        <path fill-rule='evenodd' d='M2.75 1.5a.25.25 0 00-.25.25v12.5c0 .138.112.25.25.25h10.5a.25.25 0 00.25-.25V4.664a.25.25 0 00-.073-.177l-2.914-2.914a.25.25 0 00-.177-.073H2.75zM1 1.75C1 .784 1.784 0 2.75 0h7.586c.464 0 .909.184 1.237.513l2.914 2.914c.329.328.513.773.513 1.237v9.586A1.75 1.75 0 0113.25 16H2.75A1.75 1.75 0 011 14.25V1.75zm7 1.5a.75.75 0 01.75.75v1.5h1.5a.75.75 0 010 1.5h-1.5v1.5a.75.75 0 01-1.5 0V7h-1.5a.75.75 0 010-1.5h1.5V4A.75.75 0 018 3.25zm-3 8a.75.75 0 01.75-.75h4.5a.75.75 0 010 1.5h-4.5a.75.75 0 01-.75-.75z'/>
                    </svg>
                    Lines of code pushed
                </h2>
                <div class='row'>
                    <section>
" +:+
  left_html +:+
  "
                    </section>
                    <section>
" +:+
  right_html +:+
  "
                    </section>
                </div>
            </section>
            <footer>
                <span>Total: +" +:+
  format_number total_added +:+
  " / -" +:+
  format_number total_deleted +:+
  " · " +:+
  str (Z.of_nat (length repo_stats)) +:+
  " repositories · " +:+
  now +:+
  py " (Asia/Seoul)</span>
            </footer>
        </div>
        <div xmlns='http://www.w3.org/1999/xhtml' id='metrics-end'></div>
    </foreignObject>
</svg>".

(** *** The collection rounds of [main] *)

(** Lines 214-223: what one fetched series does to [repo_stats]. *)
Definition record_stats (repo_stats : list (string * stats)) (repo_name : string)
  (code_freq : list week) : list (string * stats) :=
  match code_freq with
  | [] => repo_stats
  | _ :: _ =>
      let rows := filter (fun wk : week => (3 <= length wk)%nat) code_freq in
      let total_additions := py_sum ((fun wk => nth 1 wk 0) <$> rows) in
      let total_deletions := py_sum ((fun wk => nth 2 wk 0) <$> rows) in
      if (0 <? total_additions) || (total_deletions <? 0)
      then dict_set repo_name (Stats total_additions total_deletions) repo_stats
      else repo_stats
  end.

(** The same lines over series already fetched, one per repository, in the
    order in which the repositories are processed. *)
Definition record_all (fetched : list (string * list week)) : list (string * stats) :=
  foldl (fun repo_stats item => record_stats repo_stats item.1 item.2) [] fetched.

(** The body of [for repo_name in pending]. *)
Definition process_repo (srv : server) (st : list (string * stats) * world)
  (repo_name : string) : list (string * stats) * world :=
  let '(code_freq, w) := get_code_frequency srv repo_name st.2 in
  (record_stats st.1 repo_name code_freq, sleep 500 w).

(** [for round_num in range(n)], with its [break]. *)
Fixpoint rounds (n : nat) (srv : server) (repo_names : list string)
  (st : list (string * stats) * world) : list (string * stats) * world :=
  match n with
  | O => st
  | S n' =>
      let pending := filter (fun name => name ∉ dict_keys st.1) repo_names in
      match pending with
      | [] => st
      | _ :: _ => rounds n' srv repo_names (foldl (process_repo srv) st pending)
      end
  end.

(** [main], from the listed repository names to the SVG. The names are what
    [get_org_repos] returned. *)
Definition collect (srv : server) (repo_names : list string) (w : world)
  : list (string * stats) * world :=
  rounds 3 srv repo_names ([], w).

Definition lines_main (srv : server) (repo_names : list string) (clock : Z) : string :=
  generate_lines_svg (collect srv repo_names (World 0 0)).1 480 clock.

(** ** generate_activity_graph.py *)

(** [dates]: the window, oldest day first. *)
Definition window_dates (today : Z) : list string :=
  (fun i : nat => Calendar.isoformat (today - Z.of_nat i)) <$> reverse (seq 0 90).

Definition window_values (daily_data : gmap string Z) (today : Z) : list Z :=
  (fun d => default 0 (daily_data !! d)) <$> window_dates today.

Definition max_val (values : list Z) : Z :=
  match values with
  | [] => 1
  | _ :: _ => if 0 <? py_max values then py_max values else 1
  end.

(** Line 114. *)
Definition y_coord (graph_y graph_height max_val val : Z) : Q :=
  if 0 <? max_val
  then Float64.fsub (Float64.of_int (graph_y + graph_height))
         (Float64.fmul (Float64.true_div val max_val) (Float64.of_int graph_height))
  else Float64.of_int (graph_y + graph_height).

(** Line 113; [step] is a float as soon as there are two values. *)
Definition x_coord (graph_x : Z) (step : Q) (i : nat) : Q :=
  Float64.fadd (Float64.of_int graph_x) (Float64.fmul (Float64.of_int (Z.of_nat i)) step).

Definition grid_line (graph_x graph_y graph_width graph_height : Z) (i : nat) : string :=
  let y := Float64.fadd (Float64.of_int graph_y)
             (Float64.fmul (Float64.true_div graph_height 4) (Float64.of_int (Z.of_nat i))) in
  py "  <line x1='" +:+
  str graph_x +:+
  py "' y1='" +:+
  repr_float y +:+
  py "' x2='" +:+
  str (graph_x + graph_width) +:+
  py "' y2='" +:+
  repr_float y +:+
  py "' stroke='#21262d' stroke-width='1'/>".

(** [generate_full_activity_svg(daily_data, width, height)], with the clock
    reading it takes for today's date. *)
Definition generate_full_activity_svg (daily_data : gmap string Z) (width height : Z)
  (clock : Z) : string :=
  let today_utc := Calendar.utc_date clock in
  let values := window_values daily_data today_utc in
  let max_val := max_val values in
  let header :=
    py "<svg width='" +:+
    str width +:+
    py "' height='" +:+
    str height +:+
    py "' xmlns='http://www.w3.org/2000/svg'>
  <style>
    .title { font: bold 14px -apple-system, BlinkMacSystemFont, sans-serif; fill: #c9d1d9; }
    .subtitle { font: 11px -apple-system, BlinkMacSystemFont, sans-serif; fill: #8b949e; }
    .axis { font: 10px -apple-system, BlinkMacSystemFont, sans-serif; fill: #8b949e; }
  </style>
  <rect width='100%' height='100%' fill='#0d1117' rx='6'/>
  <text x='16' y='28' class='title'>Commit Activity</text>
  <text x='16' y='44' class='subtitle'>Last 90 days</text>
" in
  let graph_x := 16 in
  let graph_y := 55 in
  let graph_width := width - 32 in
  let graph_height := height - 75 in
  let grid := grid_line graph_x graph_y graph_width graph_height <$> seq 0 5 in
  let graph :=
    match values with
    | [] => []
    | _ :: _ =>
        let step :=
          if (1 <? length values)%nat
          then Float64.true_div graph_width (Z.of_nat (length values) - 1)
          else Float64.of_int graph_width in
        let points :=
          imap (fun i val =>
                  format_1f (x_coord graph_x step i) +:+ "," +:+
                  format_1f (y_coord graph_y graph_height max_val val)) values in
        let points_str := String.concat " " points in
        let fill_points :=
          str graph_x +:+
          "," +:+
          str (graph_y + graph_height) +:+
          " " +:+ points_str +:+
          " " +:+
          str (graph_x + graph_width) +:+
          "," +:+
          str (graph_y + graph_height) in
        [py "  <defs>
    <linearGradient id='fillGrad' x1='0%' y1='0%' x2='0%' y2='100%'>
      <stop offset='0%' style='stop-color:#3fb950;stop-opacity:0.3'/>
      <stop offset='100%' style='stop-color:#3fb950;stop-opacity:0'/>
    </linearGradient>
  </defs>
  <polygon fill='url(#fillGrad)' points='" +:+
         fill_points +:+
         py "'/>
  <polyline fill='none' stroke='#3fb950' stroke-width='2' stroke-linecap='round' stroke-linejoin='round' points='" +:+
         points_str +:+
         py "'/>"]
    end in
  let total := py_sum values in
  let avg :=
    match values with
    | [] => 0%Q
    | _ :: _ => Float64.true_div total (Z.of_nat (length values))
    end in
  String.concat "
" ([header] ++ grid ++ graph ++
     [py "  <text x='" +:+
      str (width - 16) +:+
      py "' y='28' class='subtitle' text-anchor='end'>" +:+
      str total +:+
      " commits</text>";
      py "  <text x='" +:+
      str (width - 16) +:+
      py "' y='44' class='subtitle' text-anchor='end'>avg " +:+
      format_1f avg +:+
      "/day</text>";
      "</svg>"]).


(** The aggregation loop of [main]: [all_daily_commits[date] += count] for
    every item of every repository's series. *)
Definition add_count (all_daily_commits : gmap string Z) (item : string * Z)
  : gmap string Z :=
  <[item.1 := default 0 (all_daily_commits !! item.1) + item.2]> all_daily_commits.

Definition add_repo (all_daily_commits : gmap string Z) (daily : list (string * Z))
  : gmap string Z :=
  foldl add_count all_daily_commits daily.

Definition aggregate (dailies : list (list (string * Z))) : gmap string Z :=
  foldl add_repo ∅ dailies.

(** [main], from the fetched series (one per repository, as
    [get_daily_commits] returned them) to the SVG. *)
Definition activity_main (dailies : list (list (string * Z))) (clock : Z) : string :=
  generate_full_activity_svg (aggregate dailies) 400 120 clock.

(** ** The paginated endpoints, and the jobs from the listing on *)

(** The answer to one request for a page: the status, and of each item of
    the body the one field the scripts read (a repository's name, a commit's
    author date). *)
Record page : Type := Page { page_status : Z; page_items : list string }.

(** The host, for the paginated endpoints: the answer to a URL. Within a
    call no URL is requested twice. *)
Definition host : Type := string -> page.

Definition repos_url (page : Z) : string :=
  "https://api.github.com/orgs/" +:+ ORG_NAME +:+
  "/repos?type=all&per_page=100&page=" +:+ str page.

(** The [while True] loop of [get_org_repos] (the same in both scripts).
    The loop has no bound of its own: [None] is a loop still running when
    the fuel is spent. *)
Fixpoint get_org_repos_from (fuel : nat) (h : host) (page : Z) (repos : list string)
  : option (list string) :=
  match fuel with
  | O => None
  | S fuel' =>
      let resp := h (repos_url page) in
      if negb (page_status resp =? 200) then Some repos
      else
        match page_items resp with
        | [] => Some repos
        | _ :: _ => get_org_repos_from fuel' h (page + 1) (repos ++ page_items resp)
        end
  end.

Definition get_org_repos (fuel : nat) (h : host) : option (list string) :=
  get_org_repos_from fuel h 1 [].

(** [d.get(k)] and [d[k] += 1] on a [defaultdict(int)] in insertion
    order. *)
Fixpoint dict_get {V : Type} (k : string) (d : list (string * V)) : option V :=
  match d with
  | [] => None
  | (k', v) :: r => if String.eqb k' k then Some v else dict_get k r
  end.

Definition dict_incr (k : string) (d : list (string * Z)) : list (string * Z) :=
  dict_set k (default 0 (dict_get k d) + 1) d.

(** [strftime("%Y-%m-%dT%H:%M:%SZ")] of a UTC time (years of four
    digits). *)
Definition strftime_utc (t : Z) : string :=
  let '(y, m, d) := Calendar.ord2ymd (Calendar.utc_date t) in
  let s := t mod 86400 in
  str y +:+ "-" +:+ pad 2 m +:+ "-" +:+ pad 2 d +:+ "T" +:+
  pad 2 (s / 3600) +:+ ":" +:+ pad 2 (s mod 3600 / 60) +:+ ":" +:+ pad 2 (s mod 60) +:+ "Z".

(** [since]: the time [days] days before the clock reading. *)
Definition since_string (clock days : Z) : string :=
  strftime_utc (clock - days * 86400).

Definition commits_url (repo_name since : string) (page : Z) : string :=
  "https://api.github.com/repos/" +:+ ORG_NAME +:+ "/" +:+ repo_name +:+
  "/commits?since=" +:+ since +:+ "&per_page=100&page=" +:+ str page.

(** The [for commit in data] loop: one more commit on the day that the
    first ten characters of its author date name. *)
Definition count_commits (commits_by_day : list (string * Z)) (data : list string)
  : list (string * Z) :=
  foldl (fun acc date => dict_incr (String.substring 0 10 date) acc) commits_by_day data.

(** The [while True] loop of [get_daily_commits]. *)
Fixpoint daily_commits_from (fuel : nat) (h : host) (repo_name since : string) (page : Z)
  (commits_by_day : list (string * Z)) : option (list (string * Z)) :=
  match fuel with
  | O => None
  | S fuel' =>
      let resp := h (commits_url repo_name since page) in
      if negb (page_status resp =? 200) then Some commits_by_day
      else
        match page_items resp with
        | [] => Some commits_by_day
        | _ :: _ =>
            let commits_by_day := count_commits commits_by_day (page_items resp) in
            if (length (page_items resp) <? 100)%nat then Some commits_by_day
            else daily_commits_from fuel' h repo_name since (page + 1) commits_by_day
        end
  end.

(** [get_daily_commits(repo_name, days)], with the clock reading it takes;
    the result is the dict's items, in insertion order. *)
Definition get_daily_commits (fuel : nat) (h : host) (repo_name : string) (days clock : Z)
  : option (list (string * Z)) :=
  daily_commits_from fuel h repo_name (since_string clock days) 1 [].

(** The repository loop of the activity job: the [k]-th clock reading of the
    run is [clocks k]. *)
Fixpoint fetch_dailies (fuel : nat) (h : host) (clocks : nat -> Z) (k : nat)
  (repos : list string) : option (list (list (string * Z))) :=
  match repos with
  | [] => Some []
  | repo_name :: rest =>
      match get_daily_commits fuel h repo_name 90 (clocks k) with
      | None => None
      | Some daily =>
          match fetch_dailies fuel h clocks (S k) rest with
          | None => None
          | Some dailies => Some (daily :: dailies)
          end
      end
  end.

(** [main] of generate_activity_graph.py: the text written to
    commit-activity.svg. *)
Definition activity_job (fuel : nat) (h : host) (clocks : nat -> Z) : option string :=
  match get_org_repos fuel h with
  | None => None
  | Some repos =>
      match fetch_dailies fuel h clocks 0 repos with
      | None => None
      | Some dailies => Some (activity_main dailies (clocks (length repos)))
      end
  end.

(** [main] of generate_lines_stats.py: the text written to
    lines-of-code.svg. *)
Definition lines_job (fuel : nat) (h : host) (srv : server) (clock : Z) : option string :=
  match get_org_repos fuel h with
  | None => None
  | Some repos => Some (lines_main srv repos clock)
  end.

(** ** Vocabulary of the properties *)

(** The rational value of a finite binary64 given as sign, significand and
    exponent. *)
Definition SF2Q (f : spec_float) : Q :=
  match f with
  | S754_finite s m e =>
      Qred ((if s then - (1) else 1) * inject_Z (Zpos m) * Qpower 2 e)%Q
  | _ => 0%Q
  end.

(** An int of at most 53 bits as a binary64. *)
Definition Z2SF (z : Z) : spec_float :=
  match z with
  | Z0 => S754_zero false
  | Zpos p => S754_finite false p 0
  | Zneg p => S754_finite true p 0
  end.

(** The check that [Float64] and the Standard Library's specification of
    binary64 agree on the quotients [a / b] and the products [a / b * 5], for
    [a < n] and [0 < b <= n]. *)
Definition quotients_agree (n : nat) : bool :=
  forallb (fun a =>
    forallb (fun b =>
      let q := SFdiv 53 1024 (Z2SF (Z.of_nat a)) (Z2SF (Z.of_nat (S b))) in
      Qeq_bool (SF2Q q) (Float64.true_div (Z.of_nat a) (Z.of_nat (S b))) &&
      Qeq_bool (SF2Q (SFmul 53 1024 q (Z2SF 5)))
               (Float64.fmul (Float64.true_div (Z.of_nat a) (Z.of_nat (S b))) (Float64.of_int 5)))
    (seq 0 n)) (seq 0 n).

(** The rational value of a binary64 that is finite; [None] for an infinity
    or a NaN. *)
Definition SF2Q_exc (f : spec_float) : option Q :=
  match f with
  | S754_zero _ => Some 0%Q
  | S754_finite _ _ _ => Some (SF2Q f)
  | _ => None
  end.

(** A binary64 result and a result of [round64] that are the same: both out
    of range, or the same value. *)
Definition same_result (f : spec_float) (r : option Q) : bool :=
  match SF2Q_exc f, r with
  | Some a, Some b => Qeq_bool a b
  | None, None => true
  | _, _ => false
  end.

(** The check that [round64] and the Standard Library's specification of
    binary64 agree at the ends of the range: on the quotients of floats of
    significands [ma], [mb] (53 bits) whose exponents put the result next to
    the overflow threshold, among the subnormals or in between, and on the
    products by 5 of floats next to the threshold. *)
Definition range_agrees : bool :=
  let significands := [4503599627370496; 4503599627370497; 6755399441055744;
                       9007199254740991]%positive in
  forallb (fun ma =>
    forallb (fun mb =>
      forallb (fun ea =>
        same_result (SFmul 53 1024 (S754_finite false ma ea) (Z2SF 5))
          (Float64.round64 (inject_Z (Zpos ma) * Qpower 2 ea * 5)) &&
        forallb (fun eb =>
          same_result (SFdiv 53 1024 (S754_finite false ma ea) (S754_finite false mb eb))
            (Float64.round64 ((inject_Z (Zpos ma) * Qpower 2 ea) / (inject_Z (Zpos mb) * Qpower 2 eb))))
          [-53; -52; 0; 1; 2; 30; 53])
        [971; 969; 968; 0; -1073; -1074])
      significands)
    significands.

(** A response on which the loop goes on polling: 202, or 200 with an empty
    body. *)
Definition keeps_polling (r : response) : Prop :=
  status_code r = 202 \/ (status_code r = 200 /\ json r = []).

(** The world after [n] polls that slept and, when [last] holds, one more
    request that returned. *)
Definition after_polls (w : world) (n : nat) (last : bool) : world :=
  World (requests w + n + (if last then 1 else 0))%nat (slept w + 5000 * Z.of_nat n).

(** Outcome (a): the request number [n] is the first to answer 200 with
    data, and its data is returned. *)
Definition returns_data (srv : server) (repo_name : string) (w : world) (bound : nat)
  (res : list week * world) : Prop :=
  exists n : nat, (n < bound)%nat /\
    (forall i : nat, (i < n)%nat -> keeps_polling (srv repo_name (requests w + i)%nat)) /\
    status_code (srv repo_name (requests w + n)%nat) = 200 /\
    json (srv repo_name (requests w + n)%nat) <> [] /\
    res = (json (srv repo_name (requests w + n)%nat), after_polls w n true).

(** Outcome (b): the request number [n] is the first to answer neither 200
    nor 202, and the empty series is returned at once. *)
Definition returns_on_error (srv : server) (repo_name : string) (w : world) (bound : nat)
  (res : list week * world) : Prop :=
  exists n : nat, (n < bound)%nat /\
    (forall i : nat, (i < n)%nat -> keeps_polling (srv repo_name (requests w + i)%nat)) /\
    status_code (srv repo_name (requests w + n)%nat) <> 200 /\
    status_code (srv repo_name (requests w + n)%nat) <> 202 /\
    res = ([], after_polls w n true).

(** Outcome (c): [bound] requests were all answered 202 or 200-and-empty,
    each followed by a sleep of five seconds, and the empty series is
    returned. *)
Definition returns_on_timeout (srv : server) (repo_name : string) (w : world) (bound : nat)
  (res : list week * world) : Prop :=
  (forall i : nat, (i < bound)%nat -> keeps_polling (srv repo_name (requests w + i)%nat)) /\
  res = ([], after_polls w bound false).

(** Exactly one of three. *)
Definition exactly_one (A B C : Prop) : Prop :=
  (A /\ ~ B /\ ~ C) \/ (~ A /\ B /\ ~ C) \/ (~ A /\ ~ B /\ C).

(** A clock date whose window lies within the dates [datetime] represents. *)
Definition valid_today (today : Z) : Prop := 90 <= today <= Calendar.max_ordinal.


(** What lines 214-223 store for one fetched series, if anything. *)
Definition stats_of (item : string * list week) : option (string * stats) :=
  match item.2 with
  | [] => None
  | _ :: _ =>
      let rows := filter (fun wk : week => (3 <= length wk)%nat) item.2 in
      let total_additions := py_sum ((fun wk => nth 1 wk 0) <$> rows) in
      let total_deletions := py_sum ((fun wk => nth 2 wk 0) <$> rows) in
      if (0 <? total_additions) || (total_deletions <? 0)
      then Some (item.1, Stats total_additions total_deletions)
      else None
  end.


(** A host for examples: data for [ok], 202 for ever for [slow], 404 for
    anything else. *)
Definition demo_server : server :=
  fun repo_name _ =>
    if String.eqb repo_name "ok" then Response 200 [[1700000000; 5; -1]]
    else if String.eqb repo_name "slow" then Response 202 []
    else Response 404 [].

(** A host that fails the first request of the run and has data from then
    on. *)
Definition recovering_server : server :=
  fun _ t =>
    match t with
    | O => Response 500 []
    | S _ => Response 200 [[1700000000; 7; -2]]
    end.

(** The pages of a listing, counted from 0 (page number [i + 1]). *)
Definition repos_page (h : host) (i : nat) : page := h (repos_url (1 + Z.of_nat i)).

Definition commits_page (h : host) (repo_name since : string) (i : nat) : page :=
  h (commits_url repo_name since (1 + Z.of_nat i)).

(** A page after which [get_org_repos] asks for the next one, and a page
    at which it stops. *)
Definition listing_continues (p : page) : Prop :=
  page_status p = 200 /\ page_items p <> [].

Definition listing_stops (p : page) : Prop :=
  page_status p <> 200 \/ page_items p = [].

(** The same for [get_daily_commits], which also stops after a page of
    fewer than 100 commits. *)
Definition commits_continue (p : page) : Prop :=
  page_status p = 200 /\ (100 <= length (page_items p))%nat.

Definition commits_stop (p : page) : Prop :=
  page_status p <> 200 \/ (length (page_items p) < 100)%nat.

(** The commits of the page at which [get_daily_commits] stops that are
    still counted: all of them unless the status is an error. *)
Definition counted_items (p : page) : list string :=
  if page_status p =? 200 then page_items p else [].

(** The commits that a series counts for one date. *)
Definition count_for (date : string) (daily : list (string * Z)) : Z :=
  py_sum (snd <$> filter (fun item => item.1 = date) daily).

(** A host whose listing ends after one page of two repositories with an
    error, and whose commit pages are empty. *)
Definition two_repos_host : host :=
  fun url =>
    if String.eqb url (repos_url 1) then Page 200 ["alpha"; "beta"]
    else if String.eqb url (repos_url 2) then Page 502 []
    else Page 200 [].

(** A host that answers every request with the same page of one item. *)
Definition endless_host : host := fun _ => Page 200 ["again"].

(** A host that answers every request with one short page of three
    commits. *)
Definition short_page_host : host :=
  fun _ => Page 200 ["2026-11-04T10:00:00Z"; "2026-11-03T23:59:59Z"; "2026-11-04T12:30:00Z"].

(** The check that point [i] of the default chart (400 by 120) lies between
    the panel's left edge and a thousandth past its right edge, and left of
    point [i + 1]. *)
Definition x_ok (i : nat) : bool :=
  let step := Float64.true_div 368 89 in
  Qle_bool 16 (x_coord 16 step i) &&
  Qle_bool (x_coord 16 step i) (384 + (1 # 1000)) &&
  negb (Qle_bool (x_coord 16 step (S i)) (x_coord 16 step i)).

(** What the rounds may append after the entries [d] they started with:
    entries of distinct listed names, none of them a key of [d], each with
    some addition or some deletion. *)
Definition appended (repo_names : list string) (d added : list (string * stats)) : Prop :=
  NoDup (dict_keys added) /\
  forall x : string * stats, x ∈ added ->
    x.1 ∈ repo_names /\ (x.1 ∉ dict_keys d) /\ (0 < additions x.2 \/ deletions x.2 < 0).

(** The world [w'] is within the cost of [n] fetches from [w]: one to twelve
    requests each, and half a second to sixty and a half seconds of sleep. *)
Definition within (w w' : world) (n : nat) : Prop :=
  (requests w + n <= requests w' <= requests w + 12 * n)%nat /\
  slept w + 500 * Z.of_nat n <= slept w' <= slept w + 60500 * Z.of_nat n.

(** A server whose answer for a repository is the same at every request,
    and what a fetch returns from it. *)
Definition steady (srv : server) : Prop :=
  forall (repo_name : string) (t : nat), srv repo_name t = srv repo_name O.

Definition steady_series (srv : server) (repo_name : string) : list week :=
  if status_code (srv repo_name O) =? 200 then json (srv repo_name O) else [].

(** One pass over the names, recording for each what a steady server
    returns. *)
Definition one_pass (srv : server) (rs : list (string * stats)) (names : list string)
  : list (string * stats) :=
  foldl (fun rs k => record_stats rs k (steady_series srv k)) rs names.

(** A host that refuses every request. *)
Definition failing_host : host := fun _ => Page 401 [].

(** * Properties *)

(** Names the quotients and remainders of the goal, with their defining
    equations, for [lia]. *)
Ltac name_divisions :=
  repeat match goal with
  | |- context [?a / ?b] =>
      let q := fresh "q" in let r := fresh "r" in
      pose proof (Z.div_mod a b ltac:(lia));
      pose proof (Z.mod_pos_bound a b ltac:(lia));
      set (q := a / b) in *; set (r := a mod b) in *; clearbody q r
  | |- context [?a mod ?b] =>
      let q := fresh "q" in let r := fresh "r" in
      pose proof (Z.div_mod a b ltac:(lia));
      pose proof (Z.mod_pos_bound a b ltac:(lia));
      set (q := a / b) in *; set (r := a mod b) in *; clearbody q r
  end.

(** ** Rounding *)

Section Rounding.
Import Float64.
Local Open Scope Q_scope.

Lemma rne_floor_or_next (q : Q) : rne q = Qfloor q \/ rne q = (Qfloor q + 1)%Z.
Proof.
  unfold rne. destruct (Qcompare _ _); [destruct (Z.even _)|..]; auto.
Qed.

Lemma inject_Z_succ_le (a b : Z) : (a < b)%Z -> inject_Z a + 1 <= inject_Z b.
Proof.
  intros H. replace 1 with (inject_Z 1) by reflexivity.
  rewrite <- inject_Z_plus, <- Zle_Qle. lia.
Qed.

(** An integer is its own rounding. *)
Lemma rne_inject_Z (z : Z) : rne (inject_Z z) = z.
Proof.
  unfold rne. rewrite Qfloor_Z.
  destruct (Qcompare_spec (inject_Z z - inject_Z z) (1 # 2)) as [H|H|H]; [lra| reflexivity | lra].
Qed.

Lemma rne_proper (x y : Q) : x == y -> rne x = rne y.
Proof.
  intros H. unfold rne.
  assert (Hf : Qfloor x = Qfloor y) by (now rewrite H).
  rewrite Hf. now rewrite H.
Qed.

(** Rounding to an integer is monotone. *)
Lemma rne_mono (x y : Q) : x <= y -> (rne x <= rne y)%Z.
Proof.
  intros Hxy.
  pose proof (Qfloor_resp_le _ _ Hxy) as Hf.
  pose proof (Qfloor_le x) as Hx1. pose proof (Qlt_floor x) as Hx2.
  pose proof (Qfloor_le y) as Hy1. pose proof (Qlt_floor y) as Hy2.
  destruct (Z.eq_dec (Qfloor x) (Qfloor y)) as [He|Hne].
  - unfold rne. rewrite <- He.
    destruct (Qcompare_spec (x - inject_Z (Qfloor x)) (1 # 2)) as [Hx|Hx|Hx];
    destruct (Qcompare_spec (y - inject_Z (Qfloor x)) (1 # 2)) as [Hy|Hy|Hy];
    try destruct (Z.even (Qfloor x)); try lia; lra.
  - assert (Hlt : (Qfloor x + 1 <= Qfloor y)%Z) by lia.
    destruct (rne_floor_or_next x) as [-> | ->];
    destruct (rne_floor_or_next y) as [-> | ->]; lia.
Qed.

Lemma Qfloor_unique (x : Q) (z : Z) :
  inject_Z z <= x -> x < inject_Z z + 1 -> Qfloor x = z.
Proof.
  intros H1 H2.
  pose proof (Qfloor_le x) as Hx1. pose proof (Qlt_floor x) as Hx2.
  rewrite inject_Z_plus in Hx2. change (inject_Z 1) with 1 in Hx2.
  apply Z.le_antisymm.
  - apply Z.lt_succ_r. rewrite Zlt_Qlt. unfold Z.succ.
    rewrite inject_Z_plus. change (inject_Z 1) with 1. lra.
  - apply Z.lt_succ_r. rewrite Zlt_Qlt. unfold Z.succ.
    rewrite inject_Z_plus. change (inject_Z 1) with 1. lra.
Qed.

(** Rounding half to even is symmetric about zero. *)
Lemma rne_opp (x : Q) : rne (- x) = (- rne x)%Z.
Proof.
  pose proof (Qfloor_le x) as Hx1. pose proof (Qlt_floor x) as Hx2.
  rewrite inject_Z_plus in Hx2. change (inject_Z 1) with 1 in Hx2.
  destruct (Qeq_dec x (inject_Z (Qfloor x))) as [Hint|Hfrac].
  - rewrite (rne_proper (- x) (inject_Z (- Qfloor x))), (rne_proper x (inject_Z (Qfloor x))).
    + now rewrite !rne_inject_Z.
    + exact Hint.
    + rewrite inject_Z_opp. now rewrite <- Hint.
  - assert (Hlt : inject_Z (Qfloor x) < x).
    { apply Qle_lteq in Hx1. destruct Hx1 as [?|E]; [assumption|]. now symmetry in E. }
    assert (Hf : Qfloor (- x) = (- Qfloor x - 1)%Z).
    { apply Qfloor_unique; unfold Z.sub; rewrite inject_Z_plus, inject_Z_opp;
        change (inject_Z (- (1))%Z) with (- (1))%Q; lra. }
    unfold rne. rewrite Hf.
    unfold Z.sub at 1. rewrite inject_Z_plus, inject_Z_opp.
    change (inject_Z (- (1))%Z) with (- (1))%Q.
    destruct (Qcompare_spec (x - inject_Z (Qfloor x)) (1 # 2)) as [Hx|Hx|Hx];
    destruct (Qcompare_spec (- x - (- inject_Z (Qfloor x) + - (1))) (1 # 2)) as [Hy|Hy|Hy];
    try lra; try lia.
    replace (- Qfloor x - 1)%Z with (- (Qfloor x + 1))%Z by lia.
    rewrite Z.even_opp, Z.even_add. simpl.
    destruct (Z.even (Qfloor x)); simpl; lia.
Qed.

Lemma pow2_pos (k : Z) : 0 < 2 ^ k.
Proof. apply Qpower_0_lt. reflexivity. Qed.

Lemma pow2_add (a b : Z) : 2 ^ (a + b) == 2 ^ a * 2 ^ b.
Proof. apply Qpower_plus. discriminate. Qed.

Lemma pow2_le (a b : Z) : (a <= b)%Z -> 2 ^ a <= 2 ^ b.
Proof. intros H. apply Qpower_le_compat_l; [exact H | discriminate]. Qed.

Lemma pow2_inject (n : Z) : (0 <= n)%Z -> inject_Z (2 ^ n) == 2 ^ n.
Proof. intros H. now rewrite Zpower_Qpower. Qed.

Lemma pow2_cancel (c : Z) : 2 ^ (- c) * 2 ^ c == 1.
Proof. rewrite <- pow2_add. now replace (- c + c)%Z with 0%Z by lia. Qed.

(** [mag] is the binary magnitude. *)
Lemma mag_spec (q : Q) : ~ q == 0 -> 2 ^ (mag q - 1) <= Qabs q /\ Qabs q < 2 ^ mag q.
Proof.
  intros Hq. unfold mag.
  set (N := Z.abs (Qnum q)). set (D := Zpos (Qden q)).
  assert (HN : (0 < N)%Z).
  { subst N. destruct q as [n d]. unfold Qeq in Hq. simpl in *. lia. }
  assert (HD : (0 < D)%Z) by (subst D; lia).
  destruct (Z.log2_spec N HN) as [HN1 HN2].
  destruct (Z.log2_spec D HD) as [HD1 HD2].
  pose proof (Z.log2_nonneg N) as HlN. pose proof (Z.log2_nonneg D) as HlD.
  set (ln := Z.log2 N) in *. set (ld := Z.log2 D) in *.
  assert (Habs : Qabs q * inject_Z D == inject_Z N).
  { destruct q as [n d]. subst N D. unfold Qeq, Qabs. simpl. lia. }
  rewrite Zle_Qle, pow2_inject in HN1, HD1 by lia.
  rewrite Zlt_Qlt, pow2_inject in HN2, HD2 by lia.
  assert (HDq : 0 < inject_Z D) by (rewrite Zlt_Qlt in HD; exact HD).
  pose proof (pow2_pos (ln - ld)) as Hk. pose proof (pow2_pos ld) as Hld.
  pose proof (Qabs_nonneg q) as Hnn.
  assert (E1 : 2 ^ Z.succ ln == 2 ^ (ln - ld + 1) * 2 ^ ld).
  { rewrite <- pow2_add. now replace (ln - ld + 1 + ld)%Z with (Z.succ ln) by lia. }
  assert (E2 : 2 ^ Z.succ ld * 2 ^ (ln - ld - 1) == 2 ^ ln).
  { rewrite <- pow2_add. now replace (Z.succ ld + (ln - ld - 1))%Z with ln by lia. }
  assert (E3 : 2 ^ (ln - ld + 1) == 2 * 2 ^ (ln - ld)).
  { rewrite pow2_add. change (2 ^ 1) with 2. ring. }
  assert (E4 : 2 ^ (ln - ld) == 2 * 2 ^ (ln - ld - 1)).
  { replace (ln - ld)%Z with (ln - ld - 1 + 1)%Z at 1 by lia.
    rewrite pow2_add. change (2 ^ 1) with 2. ring. }
  pose proof (pow2_pos (ln - ld - 1)) as Hk1.
  destruct (Qle_bool (2 ^ (ln - ld)) (Qabs q)) eqn:Ht.
  - apply Qle_bool_iff in Ht. split.
    + now replace (ln - ld + 1 - 1)%Z with (ln - ld)%Z by lia.
    + apply Qnot_le_lt. intros Hc. nra.
  - assert (Hlt : Qabs q < 2 ^ (ln - ld)).
    { apply Qnot_le_lt. intros Hc. apply Qle_bool_iff in Hc. congruence. }
    split; [|exact Hlt].
    apply Qnot_lt_le. intros Hc. nra.
Qed.

Lemma rnd_proper (x y : Q) : x == y -> rnd x = rnd y.
Proof. intros H. unfold rnd. now rewrite (Qred_complete x y H). Qed.

Lemma rnd_0 : rnd 0 = 0.
Proof. reflexivity. Qed.

Lemma rnd_eq (x : Q) :
  ~ x == 0 -> rnd x == inject_Z (rne (x * 2 ^ (- rnd_exp x))) * 2 ^ rnd_exp x.
Proof.
  intros Hx. unfold rnd, rnd_exp.
  destruct (Qeq_bool (Qred x) 0) eqn:Hz.
  - apply Qeq_bool_iff in Hz. rewrite Qred_correct in Hz. contradiction.
  - etransitivity; [apply Qred_correct|].
    rewrite (rne_proper (Qred x * 2 ^ (- (mag (Qred x) - prec))) (x * 2 ^ (- (mag (Qred x) - prec)))).
    + reflexivity.
    + apply Qmult_comp; [apply Qred_correct | reflexivity].
Qed.

Lemma rnd_exp_spec (x : Q) :
  0 < x -> 2 ^ (rnd_exp x + 52) <= x /\ x < 2 ^ (rnd_exp x + 53).
Proof.
  intros Hx. unfold rnd_exp, prec.
  destruct (mag_spec (Qred x)) as [H1 H2].
  { pose proof (Qred_correct x). lra. }
  pose proof (Qred_correct x) as Hr.
  rewrite Qabs_pos in H1, H2 by lra.
  replace (mag (Qred x) - 53 + 52)%Z with (mag (Qred x) - 1)%Z by lia.
  replace (mag (Qred x) - 53 + 53)%Z with (mag (Qred x)) by lia.
  split; lra.
Qed.

Lemma scaled_bounds (x : Q) :
  0 < x -> 2 ^ 52 <= x * 2 ^ (- rnd_exp x) /\ x * 2 ^ (- rnd_exp x) < 2 ^ 53.
Proof.
  intros Hx. destruct (rnd_exp_spec x Hx) as [H1 H2].
  pose proof (pow2_pos (- rnd_exp x)) as Hp.
  pose proof (pow2_add (rnd_exp x + 52) (- rnd_exp x)) as E1.
  pose proof (pow2_add (rnd_exp x + 53) (- rnd_exp x)) as E2.
  replace (rnd_exp x + 52 + - rnd_exp x)%Z with 52%Z in E1 by lia.
  replace (rnd_exp x + 53 + - rnd_exp x)%Z with 53%Z in E2 by lia.
  split.
  - rewrite E1. apply Qmult_le_r; assumption.
  - rewrite E2. apply Qmult_lt_r; assumption.
Qed.

(** A positive value rounds into its own binade, ends included. *)
Lemma rnd_pos_bounds (x : Q) :
  0 < x -> 2 ^ (rnd_exp x + 52) <= rnd x /\ rnd x <= 2 ^ (rnd_exp x + 53).
Proof.
  intros Hx. destruct (scaled_bounds x Hx) as [H1 H2].
  rewrite rnd_eq by lra.
  pose proof (pow2_pos (rnd_exp x)) as Hp.
  assert (L : (2 ^ 52 <= rne (x * 2 ^ (- rnd_exp x)))%Z).
  { rewrite <- (rne_inject_Z (2 ^ 52)). apply rne_mono.
    rewrite pow2_inject by lia. exact H1. }
  assert (U : (rne (x * 2 ^ (- rnd_exp x)) <= 2 ^ 53)%Z).
  { rewrite <- (rne_inject_Z (2 ^ 53)). apply rne_mono.
    rewrite pow2_inject by lia. lra. }
  rewrite Zle_Qle, pow2_inject in L, U by lia.
  rewrite (Z.add_comm _ 52), (Z.add_comm _ 53), !pow2_add.
  split; apply Qmult_le_r; assumption.
Qed.

Lemma rnd_nonneg (x : Q) : 0 <= x -> 0 <= rnd x.
Proof.
  intros Hx. destruct (Qeq_dec x 0) as [E|N].
  - rewrite (rnd_proper x 0 E). rewrite rnd_0. lra.
  - assert (Hp : 0 < x) by lra.
    destruct (rnd_pos_bounds x Hp) as [H _].
    pose proof (pow2_pos (rnd_exp x + 52)). lra.
Qed.

Lemma mag_opp (q : Q) : mag (- q) = mag q.
Proof.
  destruct q as [n d]. unfold mag, Qopp, Qabs. simpl. now rewrite Z.abs_opp.
Qed.

(** Rounding is symmetric about zero. *)
Lemma rnd_opp (x : Q) : rnd (- x) = - rnd x.
Proof.
  unfold rnd. rewrite Qred_opp.
  set (q := Qred x).
  assert (Hz : Qeq_bool (- q) 0 = Qeq_bool q 0).
  { destruct q as [n d]. unfold Qeq_bool, Qopp. simpl. 
    destruct n; reflexivity. }
  rewrite Hz. destruct (Qeq_bool q 0); [reflexivity|].
  rewrite mag_opp.
  rewrite (rne_proper (- q * 2 ^ (- (mag q - prec))) (- (q * 2 ^ (- (mag q - prec))))) by ring.
  rewrite rne_opp, <- Qred_opp.
  apply Qred_complete. rewrite inject_Z_opp. ring.
Qed.

Lemma rnd_mono_pos (x y : Q) : 0 < x -> x <= y -> rnd x <= rnd y.
Proof.
  intros Hx Hxy. assert (Hy : 0 < y) by lra.
  destruct (rnd_exp_spec x Hx) as [X1 X2].
  destruct (rnd_exp_spec y Hy) as [Y1 Y2].
  destruct (rnd_pos_bounds x Hx) as [_ RX].
  destruct (rnd_pos_bounds y Hy) as [RY _].
  destruct (Z_lt_le_dec (rnd_exp y) (rnd_exp x)) as [Hgt|Hle].
  - (* impossible: y would lie below x's binade *)
    pose proof (pow2_le (rnd_exp y + 53) (rnd_exp x + 52) ltac:(lia)). lra.
  - destruct (Z.eq_dec (rnd_exp x) (rnd_exp y)) as [He|Hne].
    + rewrite (rnd_eq x), (rnd_eq y) by lra. rewrite <- He.
      pose proof (pow2_pos (rnd_exp x)) as Hp.
      pose proof (pow2_pos (- rnd_exp x)) as Hn.
      apply Qmult_le_r; [assumption|]. rewrite <- Zle_Qle. apply rne_mono.
      apply Qmult_le_r; assumption.
    + pose proof (pow2_le (rnd_exp x + 53) (rnd_exp y + 52) ltac:(lia)). lra.
Qed.

(** Rounding to binary64 is monotone. *)
Lemma rnd_mono (x y : Q) : x <= y -> rnd x <= rnd y.
Proof.
  intros Hxy. destruct (Qlt_le_dec 0 x) as [Hx|Hx].
  - now apply rnd_mono_pos.
  - destruct (Qlt_le_dec y 0) as [Hy|Hy].
    + assert (H : rnd (- y) <= rnd (- x)) by (apply rnd_mono_pos; lra).
      rewrite !rnd_opp in H. lra.
    + pose proof (rnd_nonneg y Hy).
      assert (H0 : 0 <= rnd (- x)) by (apply rnd_nonneg; lra).
      rewrite rnd_opp in H0. lra.
Qed.

(** Integers of at most 53 bits are floats. *)
Lemma rnd_inject_Z (z : Z) : (Z.abs z <= 2 ^ 53)%Z -> rnd (inject_Z z) == inject_Z z.
Proof.
  assert (Hpos : forall p : Z, (0 < p <= 2 ^ 53)%Z -> rnd (inject_Z p) == inject_Z p).
  { intros p [Hp0 Hp]. destruct (Z.eq_dec p (2 ^ 53)%Z) as [->|Hne]; [reflexivity|].
    assert (Hq : 0 < inject_Z p) by (now rewrite Zlt_Qlt in Hp0).
    destruct (rnd_exp_spec _ Hq) as [H1 _].
    set (c := rnd_exp (inject_Z p)) in *.
    assert (Hc : (c <= 0)%Z).
    { destruct (Z_lt_le_dec 0 c) as [Hc|Hc]; [|exact Hc]. exfalso.
      pose proof (pow2_le 53 (c + 52) ltac:(lia)) as Hle.
      assert (Hlt : (p < 2 ^ 53)%Z) by lia.
      rewrite Zlt_Qlt, pow2_inject in Hlt by lia. lra. }
    rewrite rnd_eq by lra. fold c.
    rewrite (rne_proper _ (inject_Z (p * 2 ^ (- c)))).
    2: { rewrite inject_Z_mult, pow2_inject by lia. reflexivity. }
    rewrite rne_inject_Z, inject_Z_mult, pow2_inject by lia.
    rewrite <- Qmult_assoc, pow2_cancel. ring. }
  intros Hz. destruct (Z.lt_trichotomy z 0) as [Hn|[->|Hp]].
  - assert (E : inject_Z z == - inject_Z (- z)) by (rewrite inject_Z_opp; ring).
    rewrite (rnd_proper _ _ E), rnd_opp, Hpos by lia. rewrite inject_Z_opp. ring.
  - reflexivity.
  - apply Hpos. lia.
Qed.

End Rounding.

(** ** Agreement with the Standard Library's IEEE 754 specification *)

Section SpecFloatAgreement.
Import Float64.

(** On every quotient [a / b] with [a < 64] and [0 < b <= 64], and on its
    product with 5, [Float64] computes the value that the Standard Library's
    specification of binary64 division and multiplication computes. *)
Lemma float64_agrees_with_SpecFloat : quotients_agree 64 = true.
Proof. vm_compute. reflexivity. Qed.

(** At the ends of the exponent range (overflow to an infinity, gradual
    underflow), [Float64.round64] computes what the Standard Library's
    specification of binary64 division and multiplication computes. *)
Lemma round64_agrees_with_SpecFloat : range_agrees = true.
Proof. vm_compute. reflexivity. Qed.

End SpecFloatAgreement.

(** ** The exponent range and the exceptions of calc_diff_boxes *)

Section Exceptions.
Import Float64.
Local Open Scope Q_scope.

Lemma inject_Z_pos (z : Z) : (0 < z)%Z -> 0 < inject_Z z.
Proof. intros H. now rewrite Zlt_Qlt in H. Qed.

Lemma pow2_le_inv (a b : Z) : 2 ^ a <= 2 ^ b -> (a <= b)%Z.
Proof.
  intros H. destruct (Z_le_gt_dec a b) as [Hle|Hgt]; [exact Hle|exfalso].
  pose proof (pow2_le (b + 1) a ltac:(lia)) as H1.
  pose proof (pow2_add b 1) as H2. change (2 ^ 1) with 2 in H2.
  pose proof (pow2_pos b). lra.
Qed.

(** The value that [round64] tests against the range, for a non-zero
    argument. *)
Lemma round64_eq (x : Q) :
  ~ x == 0 ->
  exists r : Q,
    r == inject_Z (rne (x * 2 ^ (- Z.max (rnd_exp x) emin))) * 2 ^ Z.max (rnd_exp x) emin /\
    round64 x = if Qle_bool (2 ^ emax) (Qabs r) then None else Some r.
Proof.
  intros Hx. unfold round64, rnd_exp.
  destruct (Qeq_bool (Qred x) 0) eqn:Hz.
  { apply Qeq_bool_iff in Hz. rewrite Qred_correct in Hz. contradiction. }
  set (c := Z.max (mag (Qred x) - prec) emin).
  exists (Qred (inject_Z (rne (Qred x * 2 ^ (- c))) * 2 ^ c)).
  split; [|reflexivity].
  etransitivity; [apply Qred_correct|].
  rewrite (rne_proper (Qred x * 2 ^ (- c)) (x * 2 ^ (- c))); [reflexivity|].
  apply Qmult_comp; [apply Qred_correct | reflexivity].
Qed.

Lemma round64_zero (x : Q) : x == 0 -> round64 x = Some 0.
Proof.
  intros Hx. unfold round64.
  destruct (Qeq_bool (Qred x) 0) eqn:Hz; [reflexivity|].
  assert (H : Qeq_bool (Qred x) 0 = true); [|congruence].
  apply Qeq_bool_iff. now rewrite Qred_correct.
Qed.

(** Rounding does not cross a power of two of the range. *)
Lemma round64_upper (x : Q) (k : Z) :
  0 < x -> x <= 2 ^ k -> (emin <= k < emax)%Z ->
  exists r : Q, round64 x = Some r /\ 0 <= r /\ r <= 2 ^ k.
Proof.
  intros Hx Hk [Hk1 Hk2].
  destruct (round64_eq x ltac:(lra)) as (r & Er & ->).
  set (c := Z.max (rnd_exp x) emin) in *.
  assert (Hc : (c <= k)%Z).
  { destruct (rnd_exp_spec x Hx) as [H1 _].
    assert (rnd_exp x + 52 <= k)%Z by (apply pow2_le_inv; lra). lia. }
  pose proof (pow2_pos c) as Pc. pose proof (pow2_pos (- c)) as Pn.
  assert (L : (0 <= rne (x * 2 ^ (- c)))%Z).
  { change 0%Z with (rne 0). apply rne_mono. nra. }
  assert (U : (rne (x * 2 ^ (- c)) <= 2 ^ (k - c))%Z).
  { rewrite <- (rne_inject_Z (2 ^ (k - c))). apply rne_mono.
    rewrite pow2_inject by lia.
    replace (k - c)%Z with (k + - c)%Z by lia. rewrite pow2_add.
    apply Qmult_le_r; assumption. }
  rewrite Zle_Qle in L, U. rewrite pow2_inject in U by lia.
  assert (E : 2 ^ (k - c) * 2 ^ c == 2 ^ k).
  { rewrite <- pow2_add. now replace (k - c + c)%Z with k by lia. }
  assert (R0 : 0 <= r) by (rewrite Er; change (inject_Z 0) with 0 in L; nra).
  assert (R1 : r <= 2 ^ k).
  { rewrite Er, <- E. apply Qmult_le_r; assumption. }
  assert (Hlt : 2 ^ k < 2 ^ emax).
  { pose proof (pow2_le (k + 1) emax ltac:(lia)) as H1.
    pose proof (pow2_add k 1) as H2. change (2 ^ 1) with 2 in H2.
    pose proof (pow2_pos k). lra. }
  destruct (Qle_bool (2 ^ emax) (Qabs r)) eqn:Ho.
  - apply Qle_bool_iff in Ho. rewrite Qabs_pos in Ho by exact R0. lra.
  - exists r. repeat split; assumption.
Qed.

(** From [2^-1022] up, [round64] is [rnd] with the test of the range. *)
Lemma round64_normal (x : Q) :
  2 ^ (-1022) <= x ->
  round64 x = if Qle_bool (2 ^ emax) (Qabs (rnd x)) then None else Some (rnd x).
Proof.
  intros Hx. pose proof (pow2_pos (-1022)) as P.
  assert (Hp : 0 < x) by lra.
  destruct (rnd_exp_spec x Hp) as [_ H2].
  assert (Hc : (-1022 < rnd_exp x + 53)%Z).
  { destruct (Z_lt_le_dec (-1022) (rnd_exp x + 53)) as [?|Hle]; [assumption|exfalso].
    pose proof (pow2_le _ _ Hle). lra. }
  unfold round64, rnd. unfold rnd_exp in Hc.
  destruct (Qeq_bool (Qred x) 0) eqn:Hz.
  - exfalso. apply Qeq_bool_iff in Hz. rewrite Qred_correct in Hz. lra.
  - rewrite Z.max_l by (unfold emin, prec in *; lia). reflexivity.
Qed.

(** Rounding is symmetric about zero. *)
Lemma round64_opp (x : Q) : round64 (- x) = Qopp <$> round64 x.
Proof.
  unfold round64. rewrite Qred_opp.
  set (q := Qred x).
  assert (Hz : Qeq_bool (- q) 0 = Qeq_bool q 0).
  { destruct q as [n d]. unfold Qeq_bool, Qopp. simpl. destruct n; reflexivity. }
  rewrite Hz. destruct (Qeq_bool q 0); [reflexivity|].
  rewrite mag_opp. set (c := Z.max (mag q - prec) emin).
  rewrite (rne_proper (- q * 2 ^ (- c)) (- (q * 2 ^ (- c)))) by ring.
  rewrite rne_opp.
  set (n := rne (q * 2 ^ (- c))).
  assert (E : Qred (inject_Z (- n) * 2 ^ c) = - Qred (inject_Z n * 2 ^ c)).
  { rewrite <- Qred_opp. apply Qred_complete. rewrite inject_Z_opp. ring. }
  rewrite E. set (r := Qred (inject_Z n * 2 ^ c)).
  assert (A : Qabs (- r) = Qabs r).
  { destruct r as [rn rd]. unfold Qabs, Qopp. simpl. now rewrite Z.abs_opp. }
  rewrite A. destruct (Qle_bool (2 ^ emax) (Qabs r)); reflexivity.
Qed.

(** A quotient of magnitude at most [2^1023] is in range. *)
Lemma round64_in_range (x : Q) : Qabs x <= 2 ^ 1023 -> is_Some (round64 x).
Proof.
  intros Hx. destruct (Q_dec x 0) as [[Hn|Hp]|Hz].
  - rewrite Qabs_neg in Hx by lra.
    destruct (round64_upper (- x) 1023 ltac:(lra) Hx ltac:(unfold emin, emax; lia))
      as (r & Hr & _).
    rewrite round64_opp in Hr. destruct (round64 x); [eauto | discriminate].
  - rewrite Qabs_pos in Hx by lra.
    destruct (round64_upper x 1023 Hp Hx ltac:(unfold emin, emax; lia)) as (r & -> & _).
    eauto.
  - rewrite round64_zero by exact Hz. eauto.
Qed.

Lemma true_div_exc_in_range (a b : Z) :
  (b <> 0)%Z -> (Z.abs a <= 2 ^ 1023)%Z -> is_Some (true_div_exc a b).
Proof.
  intros Hb Ha. unfold true_div_exc.
  destruct (Z.eqb_spec b 0) as [?|_]; [contradiction|].
  apply round64_in_range.
  assert (H1 : 1 <= Qabs (inject_Z b)).
  { change (Qabs (inject_Z b)) with (inject_Z (Z.abs b)). change 1 with (inject_Z 1).
    rewrite <- Zle_Qle. lia. }
  assert (H2 : Qabs (inject_Z a) <= 2 ^ 1023).
  { change (Qabs (inject_Z a)) with (inject_Z (Z.abs a)).
    rewrite <- pow2_inject by lia. now rewrite <- Zle_Qle. }
  unfold Qdiv. rewrite Qabs_Qmult, Qabs_Qinv.
  set (u := Qabs (inject_Z b)) in *. set (v := Qabs (inject_Z a)) in *.
  assert (Hv : 0 <= v) by apply Qabs_nonneg.
  assert (Hi : 0 < / u /\ / u <= 1).
  { split; [apply Qinv_lt_0_compat; lra|].
    rewrite <- (Qmult_1_l (/ u)). apply Qle_shift_div_r; lra. }
  nra.
Qed.

(** The share of a part in a positive total is a float between 0 and 1. *)
Lemma true_div_exc_share (v total : Z) :
  (0 <= v <= total)%Z -> (0 < total)%Z ->
  exists q : Q, true_div_exc v total = Some q /\ 0 <= q <= 1.
Proof.
  intros [Hv Hvt] Ht. unfold true_div_exc.
  destruct (Z.eqb_spec total 0) as [?|_]; [lia|].
  assert (Tq : 0 < inject_Z total) by (apply inject_Z_pos; lia).
  destruct (Z.eq_dec v 0%Z) as [->|Hne].
  - rewrite round64_zero by (unfold Qdiv; ring). exists 0. split; [reflexivity|lra].
  - assert (Vq : 0 < inject_Z v) by (apply inject_Z_pos; lia).
    destruct (round64_upper (inject_Z v / inject_Z total) 0) as (r & -> & R0 & R1).
    + apply Qlt_shift_div_l; lra.
    + change (2 ^ 0) with 1. apply Qle_shift_div_r; [exact Tq|].
      rewrite Zle_Qle in Hvt. lra.
    + unfold emin, emax. lia.
    + exists r. change (2 ^ 0) with 1 in R1. auto.
Qed.

(** Five times a float between 0 and 1 is finite. *)
Lemma times_5_share (q : Q) :
  0 <= q <= 1 -> exists p : Q, times_5 (Float q) = Float p /\ 0 <= p.
Proof.
  intros [H0 H1]. unfold times_5.
  destruct (Qeq_dec q 0) as [E|N].
  - rewrite round64_zero by (rewrite E; ring). exists 0. split; [reflexivity|lra].
  - destruct (round64_upper (q * 5) 3) as (p & -> & P0 & _).
    + lra.
    + change (2 ^ 3) with 8. lra.
    + unfold emin, emax. lia.
    + exists p. auto.
Qed.


Lemma rnd_pow2_small :
  rnd (2 ^ (-1022)) == 2 ^ (-1022) /\ rnd (2 ^ (-1019)) == 2 ^ (-1019) /\
  rne (2 ^ (-1019)) = 0%Z.
Proof.
  split; [|split]; [apply Qeq_bool_iff; vm_compute; reflexivity..|vm_compute; reflexivity].
Qed.

(** Where both the division and the product are finite, the rounded product
    is the one that [ratio_boxes] computes (below the normal range both are
    0). *)
Lemma ratio_boxes_exc_value (v total : Z) (q p : Q) :
  (0 < v)%Z -> (0 < total)%Z ->
  true_div_exc v total = Some q -> round64 (q * 5) = Some p ->
  rne p = ratio_boxes v total.
Proof.
  intros Hv Ht Hq Hp. unfold true_div_exc in Hq.
  destruct (Z.eqb_spec total 0) as [?|_]; [lia|].
  unfold ratio_boxes. destruct (Z.ltb_spec 0 total) as [_|?]; [|lia].
  unfold fmul, true_div. change (of_int 5) with 5.
  set (x := inject_Z v / inject_Z total) in *.
  assert (Hx : 0 < x).
  { pose proof (inject_Z_pos v Hv). pose proof (inject_Z_pos total Ht).
    apply Qlt_shift_div_l; lra. }
  destruct rnd_pow2_small as (F1 & F2 & F3).
  pose proof (pow2_pos (-1022)) as P1.
  assert (P2 : 2 ^ (-1022) * 5 <= 2 ^ (-1019)).
  { replace (-1019)%Z with (-1022 + 3)%Z by lia. rewrite pow2_add. change (2 ^ 3) with 8.
    revert P1. generalize (2 ^ (-1022)). intros e P1. lra. }
  pose proof (fun y => round64_upper y (-1022)) as U1.
  pose proof (fun y => round64_upper y (-1019)) as U2.
  pose proof round64_normal as N1.
  revert F1 F2 F3 P1 P2 U1 U2 N1.
  generalize (2 ^ (-1022)), (2 ^ (-1019)). intros e1 e2 F1 F2 F3 P1 P2 U1 U2 N1.
  assert (Hr : (emin <= -1022 < emax)%Z /\ (emin <= -1019 < emax)%Z)
    by (unfold emin, emax; lia).
  destruct Hr as [Hr1 Hr2].
  destruct (Qlt_le_dec x e1) as [Hs|Hn].
  - destruct (U1 x Hx ltac:(lra) Hr1) as (q' & Hq' & Q0 & Q1).
    rewrite Hq' in Hq. injection Hq as ->.
    assert (M0 : 0 <= rnd x) by (apply rnd_nonneg; lra).
    assert (M1 : rnd x <= e1) by (rewrite <- F1; apply rnd_mono; lra).
    assert (M2 : 0 <= rnd (rnd x * 5)) by (apply rnd_nonneg; lra).
    assert (M3 : rnd (rnd x * 5) <= e2) by (rewrite <- F2; apply rnd_mono; lra).
    assert (Z1 : rne (rnd (rnd x * 5)) = 0%Z).
    { apply Z.le_antisymm.
      - rewrite <- F3. now apply rne_mono.
      - change 0%Z with (rne 0). now apply rne_mono. }
    rewrite Z1.
    destruct (Qeq_dec q 0) as [E|N].
    + rewrite round64_zero in Hp by (rewrite E; ring). now injection Hp as <-.
    + destruct (U2 (q * 5) ltac:(lra) ltac:(lra) Hr2) as (p' & Hp' & R0 & R1).
      rewrite Hp' in Hp. injection Hp as ->.
      apply Z.le_antisymm.
      * rewrite <- F3. now apply rne_mono.
      * change 0%Z with (rne 0). now apply rne_mono.
  - rewrite N1 in Hq by exact Hn.
    destruct (Qle_bool (2 ^ emax) (Qabs (rnd x))); [discriminate|].
    injection Hq as <-.
    assert (M1 : e1 <= rnd x) by (rewrite <- F1; apply rnd_mono; lra).
    rewrite N1 in Hp by lra.
    destruct (Qle_bool (2 ^ emax) (Qabs (rnd (rnd x * 5)))); [discriminate|].
    now injection Hp as <-.
Qed.

Local Open Scope Z_scope.

(** What [boxes_exc] returns is the count that [calc_diff_boxes] gives. *)
Lemma boxes_exc_value (v total : Z) (r : number) (n : Z) :
  ratio_exc v total = Some r -> boxes_exc v r = Some n ->
  n = if 0 <? v then Z.max 1 (Z.min 5 (ratio_boxes v total)) else 0.
Proof.
  unfold ratio_exc, boxes_exc. intros Hr Hn.
  destruct (Z.ltb_spec 0 v) as [Hv|Hv]; [|congruence].
  destruct (Z.ltb_spec 0 total) as [Ht|Ht].
  - destruct (true_div_exc v total) as [q|] eqn:Hq; [|discriminate].
    injection Hr as <-. unfold times_5 in Hn.
    destruct (round64 (q * 5)) as [p|] eqn:Hp; [|discriminate].
    injection Hn as <-. now rewrite (ratio_boxes_exc_value v total q p).
  - injection Hr as <-. injection Hn as <-.
    unfold ratio_boxes. destruct (Z.ltb_spec 0 total); [lia|reflexivity].
Qed.

(** Whenever the call returns, it returns what [calc_diff_boxes] gives. *)
Lemma calc_diff_boxes_exc_value (additions deletions max_total : Z) (r : Z * Z) :
  calc_diff_boxes_exc additions deletions max_total = Some r ->
  r = calc_diff_boxes additions deletions max_total.
Proof.
  unfold calc_diff_boxes_exc, calc_diff_boxes.
  destruct (max_total =? 0); [congruence|]. cbv zeta.
  destruct (true_div_exc (additions + deletions) max_total); [|discriminate].
  cbn [mbind option_bind].
  destruct (ratio_exc additions (additions + deletions)) as [ra|] eqn:Ha; [|discriminate].
  cbn [mbind option_bind].
  destruct (ratio_exc deletions (additions + deletions)) as [rd|] eqn:Hd; [|discriminate].
  cbn [mbind option_bind].
  destruct (boxes_exc additions ra) as [na|] eqn:Na; [|discriminate].
  cbn [mbind option_bind].
  destruct (boxes_exc deletions rd) as [nd|] eqn:Nd; [|discriminate].
  cbn [mbind option_bind]. intros [= <-].
  now rewrite (boxes_exc_value _ _ _ _ Ha Na), (boxes_exc_value _ _ _ _ Hd Nd).
Qed.

(** With no negative count, the call raises exactly when the quotient
    [total / max_total], which it does not use, is out of range. *)
Lemma calc_diff_boxes_exc_raises (additions deletions max_total : Z) :
  0 <= additions -> 0 <= deletions -> max_total <> 0 ->
  (calc_diff_boxes_exc additions deletions max_total = None
   <-> true_div_exc (additions + deletions) max_total = None).
Proof.
  intros Ha Hd Hm. unfold calc_diff_boxes_exc.
  destruct (Z.eqb_spec max_total 0) as [?|_]; [contradiction|]. cbv zeta.
  destruct (true_div_exc (additions + deletions) max_total) as [ratio|]; [|tauto].
  cbn [mbind option_bind].
  assert (H : forall v, 0 <= v <= additions + deletions ->
            exists r n, ratio_exc v (additions + deletions) = Some r /\
                        boxes_exc v r = Some n).
  { intros v Hv. unfold ratio_exc, boxes_exc.
    destruct (Z.ltb_spec 0 (additions + deletions)) as [Ht|Ht].
    - destruct (true_div_exc_share v _ Hv Ht) as (q & -> & Hq).
      destruct (times_5_share q Hq) as (p & Hp & _).
      exists (Float q). cbn [fmap option_fmap option_map]. rewrite Hp. cbn [py_round].
      destruct (0 <? v); eauto.
    - exists (Int 0). destruct (0 <? v); cbn; eauto. }
  destruct (H additions ltac:(lia)) as (ra & na & -> & Na).
  destruct (H deletions ltac:(lia)) as (rd & nd & -> & Nd).
  cbn [mbind option_bind]. rewrite Na. cbn [mbind option_bind]. rewrite Nd.
  cbn [mbind option_bind]. split; discriminate.
Qed.

End Exceptions.

(** ** calc_diff_boxes *)

(** The products behind the boxes of 90 additions and 10 deletions are
    exactly 4.5 and 0.5, and both round to the even neighbour. *)
Lemma boxes_90_10_products :
  Float64.fmul (Float64.true_div 90 100) (Float64.of_int 5) = (9 # 2)%Q /\
  Float64.rne (9 # 2) = 4 /\
  Float64.fmul (Float64.true_div 10 100) (Float64.of_int 5) = (1 # 2)%Q /\
  Float64.rne (1 # 2) = 0.
Proof. repeat split; vm_compute; reflexivity. Qed.

(** C3, as stated: [calc_diff_boxes(90, 10, 100)] is not [(5, 1)]. *)
Lemma calc_diff_boxes_90_10_is_not_5_1 : calc_diff_boxes 90 10 100 <> (5, 1).
Proof. vm_compute. discriminate. Qed.

(** C3, amended: [calc_diff_boxes(90, 10, 100)] returns [add_boxes = 4] and
    [del_boxes = 1]. The added count is [round(4.5)], which Python rounds to
    the even 4; the deleted count is [round(0.5) = 0], raised to 1 because
    deletions are positive. *)
Theorem calc_diff_boxes_90_10_100 :
  ratio_boxes 90 100 = 4 /\ ratio_boxes 10 100 = 0 /\
  calc_diff_boxes 90 10 100 = (4, 1).
Proof. repeat split; vm_compute; reflexivity. Qed.

(** C7: a mixed repository can get more than five boxes in total. One
    addition against 99 deletions gets 1 + 5 boxes, and 3 against 7 gets
    2 + 4. *)
Theorem calc_diff_boxes_sum_can_exceed_5 :
  exists additions deletions max_total : Z,
    0 < additions /\ 0 < deletions /\ max_total <> 0 /\
    5 < (calc_diff_boxes additions deletions max_total).1
        + (calc_diff_boxes additions deletions max_total).2.
Proof.
  exists 1, 99, 100.
  split; [lia|]. split; [lia|]. split; [discriminate|].
  vm_compute. reflexivity.
Qed.

Example calc_diff_boxes_3_7 : calc_diff_boxes 3 7 10 = (2, 4).
Proof. vm_compute. reflexivity. Qed.

(** In the value returned, [max_total] only decides between [(0, 0)] and the
    boxes of the repository's own ratio. *)
Lemma calc_diff_boxes_value_ignores_max_total (additions deletions m1 m2 : Z) :
  m1 <> 0 -> m2 <> 0 ->
  calc_diff_boxes additions deletions m1 = calc_diff_boxes additions deletions m2 /\
  calc_diff_boxes additions deletions 0 = (0, 0).
Proof.
  intros H1 H2. unfold calc_diff_boxes.
  destruct (Z.eqb_spec m1 0) as [E|_]; [contradiction|].
  destruct (Z.eqb_spec m2 0) as [E|_]; [contradiction|].
  split; reflexivity.
Qed.

(** C10, as stated: the result does depend on a non-zero [max_total]. With
    [2^1024] additions and no deletion the call raises OverflowError for
    [max_total = 1], in the division [total / max_total] whose quotient it
    never uses, and returns [(5, 0)] for [max_total = 2]. *)
Theorem calc_diff_boxes_raises_for_one_max_total :
  calc_diff_boxes_exc (2 ^ 1024) 0 1 = None /\
  calc_diff_boxes_exc (2 ^ 1024) 0 2 = Some (5, 0).
Proof. split; vm_compute; reflexivity. Qed.

(** C10, amended: for non-zero [m1] and [m2], two calls that both return,
    return the same box counts ([max_total] only decides between [(0, 0)] and
    the boxes of the repository's own ratio). When additions and deletions
    are not negative, a call raises exactly when the quotient
    [total / max_total], which it does not use, is beyond the floats; so
    both calls return, with the same counts, when the total is at most
    [2^1023]. *)
Theorem calc_diff_boxes_max_total_when_returning (additions deletions m1 m2 : Z) :
  m1 <> 0 -> m2 <> 0 ->
  (forall r1 r2 : Z * Z,
     calc_diff_boxes_exc additions deletions m1 = Some r1 ->
     calc_diff_boxes_exc additions deletions m2 = Some r2 -> r1 = r2) /\
  (0 <= additions -> 0 <= deletions ->
   (calc_diff_boxes_exc additions deletions m1 = None
    <-> Float64.true_div_exc (additions + deletions) m1 = None) /\
   (additions + deletions <= 2 ^ 1023 ->
    exists r : Z * Z,
      calc_diff_boxes_exc additions deletions m1 = Some r /\
      calc_diff_boxes_exc additions deletions m2 = Some r)) /\
  calc_diff_boxes_exc additions deletions 0 = Some (0, 0).
Proof.
  intros H1 H2.
  assert (Same : forall r1 r2 : Z * Z,
            calc_diff_boxes_exc additions deletions m1 = Some r1 ->
            calc_diff_boxes_exc additions deletions m2 = Some r2 -> r1 = r2).
  { intros r1 r2 E1 E2.
    apply calc_diff_boxes_exc_value in E1. apply calc_diff_boxes_exc_value in E2.
    rewrite E1, E2. now apply calc_diff_boxes_value_ignores_max_total. }
  split; [exact Same|]. split; [|reflexivity].
  intros Ha Hd. split; [now apply calc_diff_boxes_exc_raises|]. intros Hs.
  assert (R : forall m, m <> 0 -> is_Some (calc_diff_boxes_exc additions deletions m)).
  { intros m Hm.
    destruct (calc_diff_boxes_exc additions deletions m) as [r|] eqn:E; [eauto|].
    apply calc_diff_boxes_exc_raises in E; [|assumption..].
    destruct (true_div_exc_in_range (additions + deletions) m Hm) as [q Hq]; [lia|].
    congruence. }
  destruct (R m1 H1) as [r1 E1]. destruct (R m2 H2) as [r2 E2].
  exists r1. split; [exact E1|]. now rewrite (Same r1 r2 E1 E2).
Qed.

Lemma calc_diff_boxes_max_total_when_returning_witness :
  exists r : Z * Z,
    calc_diff_boxes_exc 90 10 100 = Some r /\ calc_diff_boxes_exc 90 10 7 = Some r.
Proof.
  destruct (calc_diff_boxes_max_total_when_returning 90 10 100 7) as (_ & H & _);
    [discriminate | discriminate |].
  destruct H as [_ H]; [lia | lia |].
  apply H. vm_compute. discriminate.
Defined.

(** The calls at the ends of the range: a quotient that rounds up to
    [2^1024] raises and the next one below does not; a product that
    overflows gives an infinity, which [round] refuses; a share below the
    normal range rounds to no box and is raised to one. *)
Example calc_diff_boxes_exc_edges :
  calc_diff_boxes_exc (2 ^ 1023) (2 ^ 1023 - 2 ^ 970) 1 = None /\
  calc_diff_boxes_exc (2 ^ 1023) (2 ^ 1023 - 2 ^ 970 - 1) 1 = Some (2, 2) /\
  calc_diff_boxes_exc (2 ^ 1023) (1 - 2 ^ 1023) 1 = None /\
  calc_diff_boxes_exc 1 (2 ^ 1100) (2 ^ 1100) = Some (1, 5) /\
  calc_diff_boxes_exc 5 (-3) 2 = Some (5, 0) /\
  calc_diff_boxes_exc (-5) 3 2 = Some (0, 1).
Proof. repeat split; vm_compute; reflexivity. Qed.

(** ** format_number *)

Section FormatNumber.
Import Float64.

Lemma str_neg (n : Z) : n < 0 -> str n = "-" +:+ str (- n).
Proof. intros H. destruct n; try lia. reflexivity. Qed.

Lemma true_div_opp (a b : Z) : true_div (- a) b = (- true_div a b)%Q.
Proof.
  unfold true_div. rewrite <- rnd_opp. apply rnd_proper.
  rewrite inject_Z_opp. unfold Qdiv. ring.
Qed.

(** A quotient of at least one rounds to a float of at least one. *)
Lemma true_div_ge_1 (a b : Z) : 0 < b <= a -> (1 <= true_div a b)%Q.
Proof.
  intros [Hb Hab]. unfold true_div.
  change 1%Q with (rnd 1). apply rnd_mono.
  assert (Hq : (0 < inject_Z b)%Q) by (now rewrite Zlt_Qlt in Hb).
  apply Qle_shift_div_l; [exact Hq|]. rewrite Zle_Qle in Hab. lra.
Qed.

Lemma format_1f_opp (v : Q) : (0 < v)%Q -> format_1f (- v) = "-" +:+ format_1f v.
Proof.
  intros Hv. unfold format_1f.
  rewrite (rne_proper (Qabs (- v) * 10) (Qabs v * 10)) by (now rewrite Qabs_opp).
  destruct (Qlt_le_dec (- v) 0) as [_|H]; [|lra].
  destruct (Qlt_le_dec v 0) as [H|_]; [lra|].
  reflexivity.
Qed.

Lemma format_number_opp_pos (p : Z) :
  0 < p -> format_number (- p) = "-" +:+ format_number p.
Proof.
  intros Hp. unfold format_number. rewrite Z.abs_opp.
  destruct (Z.leb_spec 1000000 (Z.abs p)) as [H6|H6].
  - rewrite true_div_opp, format_1f_opp; [reflexivity|].
    pose proof (true_div_ge_1 p 1000000 ltac:(lia)). lra.
  - destruct (Z.leb_spec 1000 (Z.abs p)) as [H3|H3].
    + rewrite true_div_opp, format_1f_opp; [reflexivity|].
      pose proof (true_div_ge_1 p 1000 ltac:(lia)). lra.
    + rewrite (str_neg (- p)) by lia. now rewrite Z.opp_involutive.
Qed.

Lemma format_number_opp (n : Z) : n < 0 -> format_number n = "-" +:+ format_number (- n).
Proof.
  intros Hn. rewrite <- (Z.opp_involutive n) at 1. apply format_number_opp_pos. lia.
Qed.

End FormatNumber.

(** C9: the three examples, and the rule for negative inputs: a negative
    [n] is formatted as the minus sign followed by the format of [|n|], so
    the thresholds are those of the absolute value. *)
Theorem format_number_examples_and_sign :
  format_number 950 = "950" /\
  format_number 1500 = "1.5k" /\
  format_number 2300000 = "2.3M" /\
  format_number (-1500) = "-1.5k" /\
  forall n : Z, n < 0 -> format_number n = "-" +:+ format_number (- n).
Proof.
  split; [vm_compute; reflexivity|].
  split; [vm_compute; reflexivity|].
  split; [vm_compute; reflexivity|].
  split; [vm_compute; reflexivity|].
  exact format_number_opp.
Qed.

Lemma format_number_examples_and_sign_witness :
  -2300000 < 0 /\ format_number (-2300000) = "-" +:+ format_number (- -2300000).
Proof.
  destruct format_number_examples_and_sign as (_ & _ & _ & _ & Hneg).
  split; [lia|]. apply Hneg. lia.
Defined.

(** ** get_code_frequency *)

Section Polling.
Variable srv : server.
Variable repo_name : string.

Lemma poll_done (waited : Z) (w : world) :
  max_wait <= waited -> poll srv repo_name waited w = ([], w).
Proof.
  intros H. rewrite poll_equation_1.
  destruct (Z_lt_dec waited max_wait); [lia|reflexivity].
Qed.

Lemma poll_step (waited : Z) (w : world) :
  waited < max_wait ->
  poll srv repo_name waited w =
    let resp := srv repo_name (requests w) in
    if status_code resp =? 200 then
      match json resp with
      | _ :: _ => (json resp, tick w)
      | [] => poll srv repo_name (waited + wait_time) (sleep (wait_time * 1000) (tick w))
      end
    else if status_code resp =? 202 then
      poll srv repo_name (waited + wait_time) (sleep (wait_time * 1000) (tick w))
    else ([], tick w).
Proof.
  intros H. rewrite poll_equation_1.
  destruct (Z_lt_dec waited max_wait); [reflexivity|lia].
Qed.


Lemma keeps_polling_not_error (r : response) :
  keeps_polling r -> status_code r <> 200 -> status_code r <> 202 -> False.
Proof. intros [H|[H _]] H2 H3; contradiction. Qed.

(** The loop entered with [m] polls left before the ceiling. *)
Lemma poll_outcome (m : nat) : forall (waited : Z) (w : world),
  waited = max_wait - wait_time * Z.of_nat m ->
  let res := poll srv repo_name waited w in
  returns_data srv repo_name w m res \/
  returns_on_error srv repo_name w m res \/
  returns_on_timeout srv repo_name w m res.
Proof.
  induction m as [|m IH]; intros waited w Hw res; subst res.
  - right; right. rewrite poll_done by (unfold max_wait, wait_time in *; lia).
    split; [intros i Hi; lia|].
    unfold after_polls. destruct w as [r s]. simpl. f_equal. f_equal; lia.
  - rewrite poll_step by (unfold max_wait, wait_time in *; lia). cbv zeta.
    set (w' := sleep (wait_time * 1000) (tick w)).
    assert (Hnext : waited + wait_time = max_wait - wait_time * Z.of_nat m)
      by (unfold max_wait, wait_time in *; lia).
    assert (Hshift : forall i, srv repo_name (requests w' + i)%nat
                               = srv repo_name (requests w + S i)%nat).
    { intros i. subst w'. simpl. f_equal. lia. }
    assert (Hw' : forall n b, after_polls w' n b = after_polls w (S n) b).
    { intros n b. subst w'. unfold after_polls, sleep, tick, wait_time. simpl.
      f_equal; lia. }
    assert (Hrec : keeps_polling (srv repo_name (requests w)) ->
      returns_data srv repo_name w (S m) (poll srv repo_name (waited + wait_time) w') \/
      returns_on_error srv repo_name w (S m) (poll srv repo_name (waited + wait_time) w') \/
      returns_on_timeout srv repo_name w (S m) (poll srv repo_name (waited + wait_time) w')).
    { intros Hk.
      assert (Hpre : forall n, (forall i, (i < n)%nat -> keeps_polling (srv repo_name (requests w' + i)%nat)) ->
                forall i, (i < S n)%nat -> keeps_polling (srv repo_name (requests w + i)%nat)).
      { intros n Hn [|i] Hi; [now rewrite Nat.add_0_r|].
        rewrite <- Hshift. apply Hn. lia. }
      destruct (IH _ w' Hnext) as [(n & Hn & Hp & H2 & Hj & Hr)|[(n & Hn & Hp & H2 & H3 & Hr)|(Hp & Hr)]].
      - left. exists (S n). rewrite Hshift in H2, Hj, Hr. rewrite Hw' in Hr.
        repeat split; [lia|now apply Hpre|assumption..].
      - right; left. exists (S n). rewrite Hshift in H2, H3. rewrite Hw' in Hr.
        repeat split; [lia|now apply Hpre|assumption..].
      - right; right. rewrite Hw' in Hr. split; [now apply Hpre|assumption]. }
    destruct (Z.eqb_spec (status_code (srv repo_name (requests w))) 200) as [E200|N200].
    + destruct (json (srv repo_name (requests w))) as [|wk rest] eqn:Hj.
      * apply Hrec. right. split; assumption.
      * left. exists 0%nat. rewrite Nat.add_0_r, Hj.
        repeat split; [lia|intros i Hi; lia|assumption|discriminate|].
        unfold after_polls, tick. destruct w; simpl. repeat f_equal; lia.
    + destruct (Z.eqb_spec (status_code (srv repo_name (requests w))) 202) as [E202|N202].
      * apply Hrec. left. assumption.
      * right; left. exists 0%nat. rewrite Nat.add_0_r.
        repeat split; [lia|intros i Hi; lia|assumption..|].
        unfold after_polls, tick. destruct w; simpl. repeat f_equal; lia.
Qed.

(** The three outcomes exclude one another. *)
Lemma outcomes_exclusive (w : world) (m : nat) (res : list week * world) :
  (returns_data srv repo_name w m res -> ~ returns_on_error srv repo_name w m res) /\
  (returns_data srv repo_name w m res -> ~ returns_on_timeout srv repo_name w m res) /\
  (returns_on_error srv repo_name w m res -> ~ returns_on_timeout srv repo_name w m res).
Proof.
  repeat split.
  - intros (n & _ & _ & _ & Hj & Hr) (n' & _ & _ & _ & _ & Hr').
    rewrite Hr' in Hr. injection Hr as Hd _. symmetry in Hd. contradiction.
  - intros (n & _ & _ & _ & Hj & Hr) (_ & Hr').
    rewrite Hr' in Hr. injection Hr as Hd _. symmetry in Hd. contradiction.
  - intros (n & Hn & _ & H2 & H3 & _) (Hp & _).
    exact (keeps_polling_not_error _ (Hp n Hn) H2 H3).
Qed.

End Polling.

(** C1: [get_code_frequency] returns, in exactly one of three ways: with the
    data of the first non-empty 200 response; with the empty series at the
    first status other than 200 and 202; or with the empty series after
    twelve requests, each followed by a sleep of five seconds (sixty seconds
    in all). It never issues more than twelve requests. *)
Theorem get_code_frequency_outcomes (srv : server) (repo_name : string) (w : world) :
  let res := get_code_frequency srv repo_name w in
  exactly_one (returns_data srv repo_name w 12 res)
              (returns_on_error srv repo_name w 12 res)
              (returns_on_timeout srv repo_name w 12 res) /\
  (requests res.2 <= requests w + 12)%nat /\
  (returns_data srv repo_name w 12 res -> res.1 <> []) /\
  (returns_on_timeout srv repo_name w 12 res -> slept res.2 = slept w + 60 * 1000).
Proof.
  intros res.
  destruct (outcomes_exclusive srv repo_name w 12 res) as (X1 & X2 & X3).
  assert (H : returns_data srv repo_name w 12 res \/
              returns_on_error srv repo_name w 12 res \/
              returns_on_timeout srv repo_name w 12 res).
  { apply (poll_outcome srv repo_name 12 0 w). reflexivity. }
  split; [|split; [|split]].
  - unfold exactly_one. destruct H as [A|[B|C]].
    + left. auto.
    + right; left. split; [|split]; auto. intros A. exact (X1 A B).
    + right; right. split; [|split]; auto.
      * intros A. exact (X2 A C).
      * intros B. exact (X3 B C).
  - destruct H as [(n & Hn & _ & _ & _ & Hr)|[(n & Hn & _ & _ & _ & Hr)|(_ & Hr)]];
      rewrite Hr; simpl; lia.
  - intros (n & _ & _ & _ & Hj & Hr). rewrite Hr. exact Hj.
  - intros (_ & Hr). rewrite Hr. simpl. lia.
Qed.

Lemma get_code_frequency_outcomes_witness :
  (requests (get_code_frequency demo_server "slow" (World 0 0)).2 <= 0 + 12)%nat /\
  returns_on_timeout demo_server "slow" (World 0 0) 12
    (get_code_frequency demo_server "slow" (World 0 0)) /\
  slept (get_code_frequency demo_server "slow" (World 0 0)).2 = 0 + 60 * 1000.
Proof.
  destruct (get_code_frequency_outcomes demo_server "slow" (World 0 0))
    as (Hone & Hreq & Hdata & Hslept).
  assert (Ht : returns_on_timeout demo_server "slow" (World 0 0) 12
                 (get_code_frequency demo_server "slow" (World 0 0))).
  { destruct Hone as [(A & _ & _)|[(_ & B & _)|(_ & _ & C)]].
    - exfalso. apply (Hdata A). vm_compute. reflexivity.
    - exfalso. destruct B as (n & _ & _ & _ & H202 & _). apply H202. reflexivity.
    - exact C. }
  split; [exact Hreq|]. split; [exact Ht|]. exact (Hslept Ht).
Defined.

(** ** The calendar *)

Section CalendarFacts.
Import Calendar.

(** A check over an interval of integers, run by evaluation. *)
Lemma forallb_seqZ (f : Z -> bool) (lo len : Z) :
  forallb f (seqZ lo len) = true -> forall z : Z, lo <= z < lo + len -> f z = true.
Proof.
  intros H z Hz. rewrite forallb_forall in H. apply H.
  apply list_elem_of_In, elem_of_seqZ. lia.
Qed.

Lemma month_day_spec (leapyear : bool) (n : Z) :
  0 <= n < 365 -> month_day_ok leapyear n = true.
Proof.
  intros Hn. destruct leapyear.
  - apply (forallb_seqZ (month_day_ok true) 0 365); [vm_compute; reflexivity | lia].
  - apply (forallb_seqZ (month_day_ok false) 0 365); [vm_compute; reflexivity | lia].
Qed.

Lemma ord2ymd_unfold (ordinal : Z) :
  ord2ymd ordinal =
    let n := ordinal - 1 in
    let n400 := n / DI400Y in
    let n := n mod DI400Y in
    let n100 := n / DI100Y in
    let n := n mod DI100Y in
    let n4 := n / DI4Y in
    let n := n mod DI4Y in
    let n1 := n / 365 in
    let n := n mod 365 in
    let year := n400 * 400 + 1 + n100 * 100 + n4 * 4 + n1 in
    if (n1 =? 4) || (n100 =? 4) then (year - 1, 12, 31)
    else
      let leapyear := (n1 =? 3) && (negb (n4 =? 24) || (n100 =? 3)) in
      (year, (month_day leapyear n).1, (month_day leapyear n).2).
Proof.
  unfold ord2ymd, month_day. cbv zeta.
  destruct (_ || _); [reflexivity|].
  destruct (_ <? _); reflexivity.
Qed.

(** The digits of the division chain, with their ranges. *)
Lemma ordinal_digits (n : Z) :
  0 <= n ->
  let n400 := n / DI400Y in
  let r1 := n mod DI400Y in
  let n100 := r1 / DI100Y in
  let r2 := r1 mod DI100Y in
  let n4 := r2 / DI4Y in
  let r3 := r2 mod DI4Y in
  let n1 := r3 / 365 in
  let r4 := r3 mod 365 in
  n = 146097 * n400 + 36524 * n100 + 1461 * n4 + 365 * n1 + r4 /\
  0 <= n400 /\ 0 <= n100 <= 4 /\ 0 <= n4 <= 24 /\ 0 <= n1 <= 4 /\ 0 <= r4 < 365 /\
  (n100 = 4 -> n4 = 0 /\ n1 = 0 /\ r4 = 0) /\
  (n1 = 4 -> r4 = 0 /\ n4 <= 23).
Proof.
  intros Hn. unfold DI400Y, DI100Y, DI4Y. cbv zeta.
  repeat match goal with
  | |- context [?a / ?b] => 
      let q := fresh "q" in let r := fresh "r" in
      pose proof (Z.div_mod a b ltac:(lia));
      pose proof (Z.mod_pos_bound a b ltac:(lia));
      set (q := a / b) in *; set (r := a mod b) in *; clearbody q r
  end.
  lia.
Qed.

Lemma days_before_year_digits (n400 n100 n4 n1 : Z) :
  0 <= n100 <= 3 -> 0 <= n4 <= 24 -> 0 <= n1 <= 3 ->
  days_before_year (n400 * 400 + 1 + n100 * 100 + n4 * 4 + n1)
  = 146097 * n400 + 36524 * n100 + 1461 * n4 + 365 * n1.
Proof.
  intros H100 H4 H1. unfold days_before_year. cbv zeta.
  name_divisions. lia.
Qed.

Lemma is_leap_digits (n400 n100 n4 n1 : Z) :
  0 <= n100 <= 3 -> 0 <= n4 <= 24 -> 0 <= n1 <= 3 ->
  is_leap (n400 * 400 + 1 + n100 * 100 + n4 * 4 + n1)
  = (n1 =? 3) && (negb (n4 =? 24) || (n100 =? 3)).
Proof.
  intros H100 H4 H1. unfold is_leap.
  name_divisions.
  repeat match goal with |- context [?a =? ?b] => destruct (Z.eqb_spec a b) end;
    simpl; try reflexivity; lia.
Qed.

(** [toordinal] undoes [fromordinal]. *)
Lemma ymd2ord_ord2ymd (ordinal : Z) : 1 <= ordinal -> ymd2ord (ord2ymd ordinal) = ordinal.
Proof.
  intros Ho. rewrite ord2ymd_unfold.
  pose proof (ordinal_digits (ordinal - 1) ltac:(lia)) as H. cbv zeta in H |- *.
  set (n400 := (ordinal - 1) / DI400Y) in *.
  set (r1 := (ordinal - 1) mod DI400Y) in *.
  set (n100 := r1 / DI100Y) in *. set (r2 := r1 mod DI100Y) in *.
  set (n4 := r2 / DI4Y) in *. set (r3 := r2 mod DI4Y) in *.
  set (n1 := r3 / 365) in *. set (r4 := r3 mod 365) in *.
  clearbody n400 r1 n100 r2 n4 r3 n1 r4.
  destruct H as (Hn & H400 & H100 & H4 & H1 & Hr4 & S100 & S1).
  destruct (Z.eqb_spec n100 4) as [E100|N100].
  - (* the last day of a 400-year cycle *)
    rewrite orb_true_r. destruct (S100 E100) as (-> & -> & ->). subst n100.
    unfold ymd2ord.
    replace (n400 * 400 + 1 + 4 * 100 + 0 * 4 + 0 - 1)
      with (n400 * 400 + 1 + 3 * 100 + 24 * 4 + 3) by lia.
    unfold days_before_month.
    rewrite days_before_year_digits, is_leap_digits by lia.
    change (at_index DAYS_BEFORE_MONTH 12) with 334. simpl. lia.
  - destruct (Z.eqb_spec n1 4) as [E1|N1].
    + (* the last day of a leap year *)
      simpl. destruct (S1 E1) as (-> & H4'). subst n1.
      unfold ymd2ord.
      replace (n400 * 400 + 1 + n100 * 100 + n4 * 4 + 4 - 1)
        with (n400 * 400 + 1 + n100 * 100 + n4 * 4 + 3) by lia.
      unfold days_before_month.
      rewrite days_before_year_digits, is_leap_digits by lia.
      change (at_index DAYS_BEFORE_MONTH 12) with 334.
      destruct (Z.eqb_spec n4 24) as [?|_]; [lia|]. simpl. lia.
    + simpl orb. cbv iota.
      set (leapyear := (n1 =? 3) && (negb (n4 =? 24) || (n100 =? 3))).
      pose proof (month_day_spec leapyear r4 Hr4) as Hmd.
      unfold month_day_ok in Hmd.
      destruct (month_day leapyear r4) as [m d]. simpl fst. simpl snd.
      unfold ymd2ord, days_before_month.
      rewrite days_before_year_digits, is_leap_digits by lia. fold leapyear.
      rewrite !andb_true_iff in Hmd. destruct Hmd as [_ Hmd].
      apply Z.eqb_eq in Hmd. lia.
Qed.

(** The fields of a representable date are in range. *)
Lemma ord2ymd_range (ordinal : Z) :
  1 <= ordinal <= max_ordinal ->
  1 <= (ord2ymd ordinal).1.1 <= 9999 /\
  1 <= (ord2ymd ordinal).1.2 <= 12 /\
  1 <= (ord2ymd ordinal).2 <= 31.
Proof.
  intros Ho. unfold max_ordinal in Ho. rewrite ord2ymd_unfold.
  pose proof (ordinal_digits (ordinal - 1) ltac:(lia)) as H. cbv zeta in H |- *.
  set (n400 := (ordinal - 1) / DI400Y) in *.
  set (r1 := (ordinal - 1) mod DI400Y) in *.
  set (n100 := r1 / DI100Y) in *. set (r2 := r1 mod DI100Y) in *.
  set (n4 := r2 / DI4Y) in *. set (r3 := r2 mod DI4Y) in *.
  set (n1 := r3 / 365) in *. set (r4 := r3 mod 365) in *.
  clearbody n400 r1 n100 r2 n4 r3 n1 r4.
  destruct H as (Hn & H400 & H100 & H4 & H1 & Hr4 & S100 & S1).
  destruct ((n1 =? 4) || (n100 =? 4)) eqn:Hs.
  - simpl. rewrite orb_true_iff, !Z.eqb_eq in Hs. lia.
  - rewrite orb_false_iff, !Z.eqb_neq in Hs.
    set (leapyear := (n1 =? 3) && (negb (n4 =? 24) || (n100 =? 3))).
    pose proof (month_day_spec leapyear r4 Hr4) as Hmd.
    unfold month_day_ok in Hmd.
    destruct (month_day leapyear r4) as [m d]. simpl.
    rewrite !andb_true_iff, !Z.leb_le in Hmd. lia.
Qed.

Lemma pad_spec_4 (n : Z) : 0 <= n < 10000 -> pad_ok 4 n = true.
Proof.
  intros Hn. apply (forallb_seqZ (pad_ok 4) 0 10000); [vm_compute; reflexivity | lia].
Qed.

Lemma pad_spec_2 (n : Z) : 0 <= n < 100 -> pad_ok 2 n = true.
Proof.
  intros Hn. apply (forallb_seqZ (pad_ok 2) 0 100); [vm_compute; reflexivity | lia].
Qed.

Lemma pad_ok_inj (w : nat) (a b : Z) :
  pad_ok w a = true -> pad_ok w b = true -> pad w a = pad w b -> a = b.
Proof.
  unfold pad_ok. rewrite !andb_true_iff, !Z.eqb_eq. intros [_ Ha] [_ Hb] E.
  rewrite <- Ha, <- Hb. now rewrite E.
Qed.

Lemma string_app_inj_length (s1 s2 t1 t2 : string) :
  String.length s1 = String.length s2 -> s1 +:+ t1 = s2 +:+ t2 -> s1 = s2 /\ t1 = t2.
Proof.
  revert s2. induction s1 as [|c s1 IH]; intros [|c2 s2] Hl E; simpl in *; try discriminate.
  - auto.
  - injection E as -> E. destruct (IH s2 ltac:(lia) E) as [-> ->]. auto.
Qed.

(** Distinct dates print differently. *)
Lemma isoformat_inj (a b : Z) :
  1 <= a <= max_ordinal -> 1 <= b <= max_ordinal -> isoformat a = isoformat b -> a = b.
Proof.
  intros Ha Hb E.
  rewrite <- (ymd2ord_ord2ymd a), <- (ymd2ord_ord2ymd b) by lia.
  pose proof (ord2ymd_range a Ha) as (Ya & Ma & Da).
  pose proof (ord2ymd_range b Hb) as (Yb & Mb & Db).
  unfold isoformat in E.
  destruct (ord2ymd a) as [[ya ma] da]. destruct (ord2ymd b) as [[yb mb] db].
  simpl in *.
  pose proof (pad_spec_4 ya ltac:(lia)) as Pya. pose proof (pad_spec_4 yb ltac:(lia)) as Pyb.
  pose proof (pad_spec_2 ma ltac:(lia)) as Pma. pose proof (pad_spec_2 mb ltac:(lia)) as Pmb.
  pose proof (pad_spec_2 da ltac:(lia)) as Pda. pose proof (pad_spec_2 db ltac:(lia)) as Pdb.
  assert (Hlen : forall w x y, pad_ok w x = true -> pad_ok w y = true ->
                   String.length (pad w x) = String.length (pad w y)).
  { intros w x y Hx Hy. unfold pad_ok in *.
    rewrite !andb_true_iff, !Nat.eqb_eq in *. lia. }
  apply string_app_inj_length in E as [Ey E]; [|now apply Hlen].
  injection E as E. change (pad 2 ma +:+ "-" +:+ pad 2 da = pad 2 mb +:+ "-" +:+ pad 2 db) in E.
  apply string_app_inj_length in E as [Em E]; [|now apply Hlen].
  injection E as Ed. change (pad 2 da = pad 2 db) in Ed.
  rewrite (pad_ok_inj 4 ya yb), (pad_ok_inj 2 ma mb), (pad_ok_inj 2 da db) by assumption.
  reflexivity.
Qed.

End CalendarFacts.

(** ** The 90-day window *)

Section Window.
Import Calendar.

Lemma window_dates_length (today : Z) : length (window_dates today) = 90%nat.
Proof. reflexivity. Qed.

Lemma window_values_length (daily_data : gmap string Z) (today : Z) :
  length (window_values daily_data today) = 90%nat.
Proof. reflexivity. Qed.

(** Bucket [i] is the date [89 - i] days before today: the window runs over
    consecutive dates, oldest first, and ends today. *)
Lemma window_dates_lookup (today : Z) (i : nat) :
  (i < 90)%nat ->
  window_dates today !! i = Some (isoformat (today - 89 + Z.of_nat i)).
Proof.
  intros Hi. unfold window_dates.
  rewrite list_lookup_fmap, reverse_lookup by (rewrite length_seq; lia).
  rewrite length_seq, lookup_seq_lt by lia. simpl. do 2 f_equal. lia.
Qed.

Lemma window_dates_NoDup (today : Z) : valid_today today -> NoDup (window_dates today).
Proof.
  intros Ht. unfold valid_today in Ht. unfold window_dates.
  apply NoDup_fmap_2_strong.
  - intros i j Hi Hj E.
    rewrite elem_of_reverse, elem_of_seq in Hi, Hj.
    apply isoformat_inj in E; lia.
  - rewrite reverse_Permutation. apply NoDup_seq.
Qed.





Lemma window_values_nonneg (daily_data : gmap string Z) (today : Z) :
  map_Forall (fun _ count => 0 <= count) daily_data ->
  Forall (fun v => 0 <= v) (window_values daily_data today).
Proof.
  intros Hm. unfold window_values. apply Forall_fmap, Forall_forall. intros d _. simpl.
  destruct (daily_data !! d) as [c|] eqn:E; simpl; [|lia].
  exact (Hm d c E).
Qed.

End Window.




(** ** The vertical scale of the activity chart *)

Section Scale.
Import Float64.

Lemma foldl_max_ge (l : list Z) (a : Z) :
  a <= foldl Z.max a l /\ Forall (fun v => v <= foldl Z.max a l) l.
Proof.
  revert a. induction l as [|x l IH]; intros a; simpl.
  - split; [lia | constructor].
  - destruct (IH (Z.max a x)) as [H1 H2]. split; [lia|].
    constructor; [lia | exact H2].
Qed.

Lemma foldl_max_elem (l : list Z) (a : Z) : foldl Z.max a l = a \/ foldl Z.max a l ∈ l.
Proof.
  revert a. induction l as [|x l IH]; intros a; simpl; [now left|].
  destruct (IH (Z.max a x)) as [H|H].
  - rewrite H. destruct (Z.max_spec a x) as [[_ ->]|[_ ->]].
    + right. apply elem_of_cons. now left.
    + now left.
  - right. apply elem_of_cons. now right.
Qed.

(** [max(values)] is an element and an upper bound. *)
Lemma py_max_spec (values : list Z) :
  values <> [] -> py_max values ∈ values /\ Forall (fun v => v <= py_max values) values.
Proof.
  destruct values as [|x l]; [congruence|]. intros _. simpl. split.
  - destruct (foldl_max_elem l x) as [->|H]; apply elem_of_cons; auto.
  - destruct (foldl_max_ge l x) as [H1 H2]. constructor; assumption.
Qed.

Lemma max_val_spec (values : list Z) :
  1 <= max_val values /\
  Forall (fun v => v <= max_val values) values /\
  (Forall (fun v => v = 0) values -> max_val values = 1) /\
  (max_val values ∈ values \/ (max_val values = 1 /\ Forall (fun v => v <= 0) values)).
Proof.
  destruct (decide (values = [])) as [->|Hne].
  { simpl. repeat split; auto; lia. }
  destruct (py_max_spec values Hne) as [Hin Hub].
  assert (E : max_val values = if 0 <? py_max values then py_max values else 1).
  { destruct values; [congruence|reflexivity]. }
  rewrite E. clear E.
  destruct (Z.ltb_spec 0 (py_max values)) as [Hp|Hp].
  - repeat split; [lia|exact Hub| |now left].
    intros H0. rewrite Forall_forall in H0. specialize (H0 _ Hin). lia.
  - repeat split; [lia| |right; split; [reflexivity|]].
    + eapply Forall_impl; [exact Hub|]. simpl. intros. lia.
    + eapply Forall_impl; [exact Hub|]. simpl. intros. lia.
Qed.

Lemma of_int_exact (z : Z) : (Z.abs z <= 2 ^ 53)%Z -> (of_int z == inject_Z z)%Q.
Proof. apply rnd_inject_Z. Qed.

Lemma of_int_nonneg (z : Z) : 0 <= z -> (0 <= of_int z)%Q.
Proof. intros H. apply rnd_nonneg. now rewrite Zle_Qle in H. Qed.

(** The value that equals the divisor is drawn on the top edge. *)
Lemma y_coord_top (graph_y graph_height m : Z) :
  0 < m -> Z.abs graph_y <= 2 ^ 52 -> Z.abs graph_height <= 2 ^ 52 ->
  (y_coord graph_y graph_height m m == inject_Z graph_y)%Q.
Proof.
  intros Hm Hy Hh. unfold y_coord.
  destruct (Z.ltb_spec 0 m) as [_|?]; [|lia].
  assert (E1 : true_div m m = 1%Q).
  { unfold true_div. change 1%Q with (rnd 1). apply rnd_proper.
    apply Qmult_inv_r. assert (0 < inject_Z m)%Q by (now rewrite Zlt_Qlt in Hm). lra. }
  rewrite E1. unfold fsub, fmul.
  pose proof (of_int_exact graph_height ltac:(lia)) as Eh.
  pose proof (of_int_exact (graph_y + graph_height) ltac:(lia)) as Es.
  rewrite inject_Z_plus in Es.
  assert (E2 : (rnd (1 * of_int graph_height) == inject_Z graph_height)%Q).
  { rewrite (rnd_proper _ (inject_Z graph_height)) by (rewrite Eh; ring).
    apply rnd_inject_Z. lia. }
  rewrite (rnd_proper _ (inject_Z graph_y)) by (rewrite E2, Es; ring).
  apply rnd_inject_Z. lia.
Qed.

(** The value 0 is drawn on the bottom edge. *)
Lemma y_coord_bottom (graph_y graph_height m : Z) :
  0 < m -> Z.abs (graph_y + graph_height) <= 2 ^ 53 ->
  (y_coord graph_y graph_height m 0 == inject_Z (graph_y + graph_height))%Q.
Proof.
  intros Hm Hs. unfold y_coord.
  destruct (Z.ltb_spec 0 m) as [_|?]; [|lia].
  assert (E1 : true_div 0 m = 0%Q).
  { unfold true_div. rewrite <- rnd_0. apply rnd_proper. unfold Qdiv. ring. }
  rewrite E1. unfold fsub, fmul.
  rewrite (rnd_proper (0 * of_int graph_height) 0) by ring. rewrite rnd_0.
  pose proof (of_int_exact (graph_y + graph_height) Hs) as Es.
  rewrite (rnd_proper _ (inject_Z (graph_y + graph_height))) by (rewrite Es; ring).
  apply rnd_inject_Z. exact Hs.
Qed.

(** A larger value is never drawn lower. *)
Lemma y_coord_antitone (graph_y graph_height m v1 v2 : Z) :
  0 < m -> 0 <= graph_height -> v1 <= v2 ->
  (y_coord graph_y graph_height m v2 <= y_coord graph_y graph_height m v1)%Q.
Proof.
  intros Hm Hh Hv. unfold y_coord.
  destruct (Z.ltb_spec 0 m) as [_|?]; [|lia].
  unfold fsub, fmul, true_div.
  pose proof (of_int_nonneg graph_height Hh) as HG.
  assert (Hq : (inject_Z v1 / inject_Z m <= inject_Z v2 / inject_Z m)%Q).
  { unfold Qdiv. apply Qmult_le_compat_r; [now rewrite <- Zle_Qle|].
    apply Qinv_le_0_compat. assert (0 < inject_Z m)%Q by (now rewrite Zlt_Qlt in Hm). lra. }
  apply rnd_mono in Hq.
  assert (Hp : (rnd (inject_Z v1 / inject_Z m) * of_int graph_height
                <= rnd (inject_Z v2 / inject_Z m) * of_int graph_height)%Q)
    by (apply Qmult_le_compat_r; assumption).
  apply rnd_mono in Hp. apply rnd_mono. lra.
Qed.

Lemma format_1f_proper (v v' : Q) : (v == v')%Q -> format_1f v = format_1f v'.
Proof.
  intros E. unfold format_1f.
  rewrite (rne_proper (Qabs v * 10) (Qabs v' * 10)) by (now rewrite E).
  destruct (Qlt_le_dec v 0), (Qlt_le_dec v' 0); try reflexivity; lra.
Qed.

(** A whole number is printed with one zero after the point. *)
Lemma format_1f_int (z : Z) : 0 <= z -> format_1f (inject_Z z) = str z +:+ ".0".
Proof.
  intros Hz. unfold format_1f.
  assert (Hq : (0 <= inject_Z z)%Q) by (now rewrite Zle_Qle in Hz).
  rewrite (rne_proper _ (inject_Z (z * 10))).
  2: { rewrite Qabs_pos by exact Hq. now rewrite inject_Z_mult. }
  rewrite rne_inject_Z, Z.div_mul, Z.mod_mul by lia.
  destruct (Qlt_le_dec (inject_Z z) 0); [lra|]. reflexivity.
Qed.

End Scale.

(** C8: with the panel of the script ([graph_y = 55], [graph_height =
    height - 75], of any height from 75 up that a float holds exactly), the
    divisor is at least 1, and is 1 when all values are zero, so the division
    is never by zero; a value equal to the divisor is drawn at [graph_y] and
    printed as 55.0; the value 0 is drawn at [graph_y + graph_height] and
    printed as that integer with one decimal; and the drawn [y] never
    increases with the value. The divisor is the greatest value whenever one
    is positive. *)
Theorem y_scaling (values : list Z) (height : Z) :
  75 <= height <= 2 ^ 52 ->
  let graph_y := 55 in
  let graph_height := height - 75 in
  let m := max_val values in
  1 <= m /\
  (Forall (fun v => v = 0) values -> m = 1) /\
  Forall (fun v => v <= m) values /\
  (m ∈ values \/ (m = 1 /\ Forall (fun v => v <= 0) values)) /\
  (y_coord graph_y graph_height m m == inject_Z graph_y)%Q /\
  format_1f (y_coord graph_y graph_height m m) = "55.0" /\
  (y_coord graph_y graph_height m 0 == inject_Z (graph_y + graph_height))%Q /\
  format_1f (y_coord graph_y graph_height m 0) = str (graph_y + graph_height) +:+ ".0" /\
  (forall v1 v2 : Z, v1 <= v2 ->
     (y_coord graph_y graph_height m v2 <= y_coord graph_y graph_height m v1)%Q).
Proof.
  intros Hh graph_y graph_height m.
  destruct (max_val_spec values) as (H1 & Hub & H0 & Hin).
  fold m in H1, Hub, H0, Hin. subst graph_y graph_height.
  split; [exact H1|]. split; [exact H0|]. split; [exact Hub|]. split; [exact Hin|].
  assert (Ht : (y_coord 55 (height - 75) m m == inject_Z 55)%Q)
    by (apply y_coord_top; lia).
  assert (Hb : (y_coord 55 (height - 75) m 0 == inject_Z (55 + (height - 75)))%Q)
    by (apply y_coord_bottom; lia).
  split; [exact Ht|]. split; [|split; [exact Hb|split]].
  - rewrite (format_1f_proper _ _ Ht). reflexivity.
  - rewrite (format_1f_proper _ _ Hb). apply format_1f_int. lia.
  - intros v1 v2 Hv. apply y_coord_antitone; lia.
Qed.

Lemma y_scaling_witness :
  let m := max_val [0; 3; 12; 7] in
  (y_coord 55 45 m 12 == 55)%Q /\
  (y_coord 55 45 m 0 == 100)%Q /\
  (y_coord 55 45 m 7 <= y_coord 55 45 m 3)%Q.
Proof.
  destruct (y_scaling [0; 3; 12; 7] 120 ltac:(lia))
    as (_ & _ & _ & _ & Ht & _ & Hb & _ & Hmono).
  split; [exact Ht|]. split; [exact Hb|]. apply Hmono. lia.
Defined.

(** ** What the output depends on besides the data *)

Section Clock.

Lemma string_length_app (s t : string) :
  String.length (s +:+ t) = (String.length s + String.length t)%nat.
Proof. induction s as [|c s IH]; simpl; [reflexivity | now rewrite IH]. Qed.

Lemma string_app_inv_tail (s1 s2 t : string) : s1 +:+ t = s2 +:+ t -> s1 = s2.
Proof.
  intros E. apply (string_app_inj_length s1 s2 t t); [|exact E].
  apply (f_equal String.length) in E. rewrite !string_length_app in E. lia.
Qed.

Lemma string_app_inv_head (s t1 t2 : string) : s +:+ t1 = s +:+ t2 -> t1 = t2.
Proof.
  intros E. induction s as [|c s IH]; simpl in E; [exact E|].
  injection E as E. auto.
Qed.

(** The leaderboard shows the clock through the footer's time stamp, and
    through nothing else. *)
Lemma generate_lines_svg_clock (repo_stats : list (string * stats)) (width c1 c2 : Z) :
  generate_lines_svg repo_stats width c1 = generate_lines_svg repo_stats width c2
  <-> Calendar.strftime_kst c1 = Calendar.strftime_kst c2.
Proof.
  unfold generate_lines_svg. cbv zeta. split.
  - intros E.
    repeat (apply string_app_inv_head in E).
    now apply string_app_inv_tail in E.
  - intros E. now rewrite E.
Qed.

(** The activity chart shows the clock through today's UTC date only. *)
Lemma generate_full_activity_svg_clock (daily_data : gmap string Z) (width height c1 c2 : Z) :
  Calendar.utc_date c1 = Calendar.utc_date c2 ->
  generate_full_activity_svg daily_data width height c1
  = generate_full_activity_svg daily_data width height c2.
Proof.
  intros E. unfold generate_full_activity_svg. cbv zeta. now rewrite E.
Qed.

End Clock.

(** C4, as stated, fails for the leaderboard: the same (here empty)
    statistics rendered one second apart give different documents. *)
Lemma generate_lines_svg_differs_a_second_later :
  generate_lines_svg [] 480 1793886153 <> generate_lines_svg [] 480 1793886154.
Proof.
  intros E. apply generate_lines_svg_clock in E. vm_compute in E. discriminate.
Qed.

(** The activity chart of the same data differs from one UTC day to the
    next, as the window moves. *)
Example activity_svg_differs_a_day_later :
  String.eqb (generate_full_activity_svg {[ "2026-11-05" := 3 ]} 400 120 1793886153)
             (generate_full_activity_svg {[ "2026-11-05" := 3 ]} 400 120 (1793886153 + 86400))
  = false.
Proof. vm_compute. reflexivity. Qed.

(** C4, amended: two runs given the same input data produce the same output
    string when they read the same clock: the activity chart whenever both
    runs fall on the same UTC day, the leaderboard exactly when both runs
    print the same time stamp (to the second, in Seoul time). *)
Theorem same_data_same_clock_same_svg (c1 c2 : Z) :
  c1 / 86400 = c2 / 86400 ->
  (forall (daily_data : gmap string Z) (width height : Z),
     generate_full_activity_svg daily_data width height c1
     = generate_full_activity_svg daily_data width height c2) /\
  (forall (dailies : list (list (string * Z))),
     activity_main dailies c1 = activity_main dailies c2) /\
  (forall (repo_stats : list (string * stats)) (width : Z),
     generate_lines_svg repo_stats width c1 = generate_lines_svg repo_stats width c2
     <-> Calendar.strftime_kst c1 = Calendar.strftime_kst c2).
Proof.
  intros Hday.
  assert (E : Calendar.utc_date c1 = Calendar.utc_date c2)
    by (unfold Calendar.utc_date; now rewrite Hday).
  split; [|split].
  - intros. now apply generate_full_activity_svg_clock.
  - intros. unfold activity_main. now apply generate_full_activity_svg_clock.
  - intros. apply generate_lines_svg_clock.
Qed.

Lemma same_data_same_clock_same_svg_witness :
  1793886153 / 86400 = 1793886200 / 86400 /\
  activity_main [[("2026-11-05", 3)]; [("2026-11-05", 2)]] 1793886153
  = activity_main [[("2026-11-05", 3)]; [("2026-11-05", 2)]] 1793886200.
Proof.
  assert (H : 1793886153 / 86400 = 1793886200 / 86400) by reflexivity.
  split; [exact H|].
  destruct (same_data_same_clock_same_svg 1793886153 1793886200 H) as (_ & Hmain & _).
  apply Hmain.
Defined.

(** ** The order in which repositories are processed *)

Section Order.

Lemma foldl_comm_perm {A B : Type} (f : B -> A -> B) :
  (forall b x y, f (f b x) y = f (f b y) x) ->
  forall l l' : list A, l ≡ₚ l' -> forall b : B, foldl f b l = foldl f b l'.
Proof.
  intros Hc l l' Hp. induction Hp as [|x l l' _ IH|x y l|l l' l'' _ IH1 _ IH2]; intros b; simpl.
  - reflexivity.
  - apply IH.
  - now rewrite Hc.
  - now rewrite IH1, IH2.
Qed.

Lemma add_count_comm (m : gmap string Z) (x y : string * Z) :
  add_count (add_count m x) y = add_count (add_count m y) x.
Proof.
  destruct x as [kx cx], y as [ky cy]. unfold add_count. simpl.
  apply map_eq. intros i.
  destruct (decide (kx = ky)) as [->|Hne].
  - rewrite !lookup_insert_eq. simpl.
    destruct (decide (ky = i)) as [->|Hi].
    + rewrite !lookup_insert_eq. f_equal. lia.
    + now rewrite !lookup_insert_ne by assumption.
  - rewrite (lookup_insert_ne _ kx ky), (lookup_insert_ne _ ky kx) by congruence.
    destruct (decide (ky = i)) as [->|Hy]; destruct (decide (kx = i)) as [->|Hx];
      try congruence;
      repeat first [rewrite lookup_insert_eq | rewrite lookup_insert_ne by congruence];
      reflexivity.
Qed.

Lemma add_repo_comm (m : gmap string Z) (a b : list (string * Z)) :
  add_repo (add_repo m a) b = add_repo (add_repo m b) a.
Proof.
  unfold add_repo. rewrite <- !foldl_app.
  apply foldl_comm_perm; [apply add_count_comm | apply Permutation_app_comm].
Qed.

(** The summed map is the same for every processing order. *)
Lemma aggregate_perm (dailies dailies' : list (list (string * Z))) :
  dailies ≡ₚ dailies' -> aggregate dailies = aggregate dailies'.
Proof.
  intros Hp. unfold aggregate. apply foldl_comm_perm; [apply add_repo_comm | exact Hp].
Qed.

(** Counts that are not negative add up to counts that are not negative:
    what [main] hands to the chart is a mapping to non-negative counts. *)
Lemma aggregate_nonneg (dailies : list (list (string * Z))) :
  Forall (Forall (fun item : string * Z => 0 <= item.2)) dailies ->
  map_Forall (fun (_ : string) count => 0 <= count) (aggregate dailies).
Proof.
  unfold aggregate.
  assert (Hrepo : forall daily m,
            Forall (fun item : string * Z => 0 <= item.2) daily ->
            map_Forall (fun (_ : string) count => 0 <= count) m ->
            map_Forall (fun (_ : string) count => 0 <= count) (add_repo m daily)).
  { unfold add_repo. induction daily as [|[d c] daily IH]; intros m Hd Hm; [exact Hm|].
    apply Forall_cons in Hd as [Hc Hd]. simpl in *. apply IH; [exact Hd|].
    unfold add_count. simpl. apply map_Forall_insert_2; [|exact Hm].
    destruct (m !! d) as [v|] eqn:E; simpl; [|lia].
    pose proof (Hm d v E). simpl in *. lia. }
  assert (Hall : forall ds m,
            Forall (Forall (fun item : string * Z => 0 <= item.2)) ds ->
            map_Forall (fun (_ : string) count => 0 <= count) m ->
            map_Forall (fun (_ : string) count => 0 <= count) (foldl add_repo m ds)).
  { induction ds as [|daily ds IH]; intros m Hd Hm; [exact Hm|].
    apply Forall_cons in Hd as [H1 Hd]. simpl. apply IH; [exact Hd|]. now apply Hrepo. }
  intros Hd. apply Hall; [exact Hd|]. apply map_Forall_empty.
Qed.

(** *** The stable descending sort *)

Context {A : Type} (key : A -> Z).

Lemma insert_desc_perm (x : A) (l : list A) : insert_desc key x l ≡ₚ x :: l.
Proof.
  induction l as [|y r IH]; simpl; [reflexivity|].
  destruct (key x <? key y); [|reflexivity].
  rewrite IH. apply Permutation_swap.
Qed.

Lemma sorted_desc_perm (l : list A) : sorted_desc key l ≡ₚ l.
Proof.
  induction l as [|x l IH]; simpl; [reflexivity|].
  unfold sorted_desc in *. simpl. now rewrite insert_desc_perm, IH.
Qed.

Lemma insert_desc_sorted (x : A) (l : list A) :
  StronglySorted (fun a b => key b <= key a) l ->
  StronglySorted (fun a b => key b <= key a) (insert_desc key x l).
Proof.
  induction 1 as [|y r Hr IH Hy]; simpl.
  - repeat constructor.
  - destruct (Z.ltb_spec (key x) (key y)) as [Hlt|Hge].
    + constructor; [exact IH|].
      rewrite insert_desc_perm. constructor; [lia | exact Hy].
    + constructor; [constructor; assumption|].
      constructor; [lia|]. eapply Forall_impl; [exact Hy|]. simpl. intros. lia.
Qed.

Lemma sorted_desc_sorted (l : list A) :
  StronglySorted (fun a b => key b <= key a) (sorted_desc key l).
Proof.
  induction l as [|x l IH]; [constructor|]. now apply insert_desc_sorted.
Qed.

(** Stability: the items of one key keep their original order. *)
Lemma insert_desc_stable (k : Z) (x : A) (l : list A) :
  filter (fun a => key a = k) (insert_desc key x l) = filter (fun a => key a = k) (x :: l).
Proof.
  induction l as [|y r IH]; simpl; [reflexivity|].
  destruct (Z.ltb_spec (key x) (key y)) as [Hlt|Hge]; [|reflexivity].
  rewrite (filter_cons _ y), IH, !filter_cons.
  destruct (decide (key y = k)), (decide (key x = k)); try reflexivity; lia.
Qed.

Lemma sorted_desc_stable (k : Z) (l : list A) :
  filter (fun a => key a = k) (sorted_desc key l) = filter (fun a => key a = k) l.
Proof.
  induction l as [|x l IH]; [reflexivity|].
  unfold sorted_desc in *. simpl. rewrite insert_desc_stable, !filter_cons, IH. reflexivity.
Qed.

Lemma NoDup_fmap_elem_inj (l : list A) (x y : A) :
  NoDup (key <$> l) -> x ∈ l -> y ∈ l -> key x = key y -> x = y.
Proof.
  induction l as [|z l IH]; intros Hnd Hx Hy E; [now apply elem_of_nil in Hx|].
  rewrite fmap_cons in Hnd. apply NoDup_cons in Hnd as [Hz Hnd].
  apply elem_of_cons in Hx as [->|Hx]; apply elem_of_cons in Hy as [->|Hy]; auto.
  - exfalso. apply Hz. rewrite E. apply list_elem_of_fmap. eauto.
  - exfalso. apply Hz. rewrite <- E. apply list_elem_of_fmap. eauto.
Qed.

(** Without ties the sorted list does not depend on the original order. *)
Lemma sorted_desc_unique (l l' : list A) :
  NoDup (key <$> l) -> l ≡ₚ l' -> sorted_desc key l = sorted_desc key l'.
Proof.
  intros Hnd Hp.
  apply (StronglySorted_unique_strong (fun a b => key b <= key a)).
  - intros x1 x2 H1 H2 R1 R2.
    apply (NoDup_fmap_elem_inj l); [exact Hnd| | |lia].
    + now rewrite sorted_desc_perm in H1.
    + rewrite sorted_desc_perm in H2. now rewrite Hp.
  - apply sorted_desc_sorted.
  - apply sorted_desc_sorted.
  - now rewrite !sorted_desc_perm.
Qed.

End Order.

(** ** The leaderboard under reordering *)

Section Leaderboard.

Lemma dict_set_fresh {V : Type} (k : string) (v : V) (d : list (string * V)) :
  k ∉ dict_keys d -> dict_set k v d = d ++ [(k, v)].
Proof.
  unfold dict_keys. induction d as [|[k' v'] d IH]; intros Hk; simpl; [reflexivity|].
  rewrite fmap_cons in Hk. apply not_elem_of_cons in Hk as [Hne Hk]. simpl in Hne.
  destruct (String.eqb_spec k' k) as [E|_]; [congruence|].
  now rewrite IH.
Qed.

Lemma dict_set_keys {V : Type} (k : string) (v : V) (d : list (string * V)) (x : string) :
  x ∈ dict_keys (dict_set k v d) -> x = k \/ x ∈ dict_keys d.
Proof.
  unfold dict_keys. induction d as [|[k' v'] d IH]; simpl.
  - rewrite elem_of_cons. intros [->|H]; [now left | now apply elem_of_nil in H].
  - destruct (String.eqb_spec k' k) as [E|_]; rewrite !fmap_cons, !elem_of_cons; simpl.
    + intros [->|H]; auto.
    + intros [->|H]; auto. destruct (IH H); auto.
Qed.

Lemma record_stats_fresh (rs : list (string * stats)) (k : string) (cf : list week) :
  k ∉ dict_keys rs -> record_stats rs k cf = rs ++ option_list (stats_of (k, cf)).
Proof.
  intros Hk. unfold record_stats, stats_of. simpl.
  destruct cf as [|wk cf]; [now rewrite app_nil_r|].
  destruct (_ || _); simpl; [now apply dict_set_fresh | now rewrite app_nil_r].
Qed.

Lemma stats_of_name (item : string * list week) (p : string * stats) :
  stats_of item = Some p -> p.1 = item.1.
Proof.
  unfold stats_of. destruct item.2; [discriminate|].
  destruct (_ || _); [|discriminate]. now intros [= <-].
Qed.

Lemma record_from (fetched : list (string * list week)) : forall rs : list (string * stats),
  NoDup fetched.*1 ->
  (forall k, k ∈ fetched.*1 -> k ∉ dict_keys rs) ->
  foldl (fun repo_stats item => record_stats repo_stats item.1 item.2) rs fetched
  = rs ++ omap stats_of fetched.
Proof.
  induction fetched as [|[k cf] rest IH]; intros rs Hnd Hdis; simpl.
  - now rewrite app_nil_r.
  - rewrite fmap_cons in Hnd. apply NoDup_cons in Hnd as [Hk Hnd]. simpl in Hk.
    rewrite record_stats_fresh by (apply Hdis; rewrite fmap_cons; apply elem_of_cons; now left).
    rewrite IH; [|exact Hnd|].
    + rewrite <- app_assoc. f_equal. destruct (stats_of (k, cf)); reflexivity.
    + intros x Hx Hin. unfold dict_keys in Hin.
      rewrite fmap_app, elem_of_app in Hin. destruct Hin as [Hin|Hin].
      * apply (Hdis x); [rewrite fmap_cons; apply elem_of_cons; now right | exact Hin].
      * destruct (stats_of (k, cf)) as [p|] eqn:E; simpl in Hin; [|now apply elem_of_nil in Hin].
        apply list_elem_of_singleton in Hin. apply stats_of_name in E. simpl in E.
        congruence.
Qed.

(** With distinct repository names every series is recorded after the
    earlier ones, in processing order. *)
Lemma record_all_omap (fetched : list (string * list week)) :
  NoDup fetched.*1 -> record_all fetched = omap stats_of fetched.
Proof.
  intros Hnd. unfold record_all. rewrite record_from; [reflexivity|exact Hnd|].
  intros k _ H. now apply elem_of_nil in H.
Qed.

Lemma py_sum_perm (l l' : list Z) : l ≡ₚ l' -> py_sum l = py_sum l'.
Proof.
  induction 1; simpl; lia.
Qed.

(** The document is the same for two orders of the statistics that sort
    alike. *)
Lemma generate_lines_svg_perm (rs rs' : list (string * stats)) (width clock : Z) :
  rs ≡ₚ rs' -> sorted_desc sort_key rs = sorted_desc sort_key rs' ->
  generate_lines_svg rs width clock = generate_lines_svg rs' width clock.
Proof.
  intros Hp Hs. unfold generate_lines_svg, top_repos. cbv zeta.
  rewrite Hs.
  rewrite (py_sum_perm ((fun r => additions r.2) <$> rs)
             ((fun r => additions r.2) <$> rs')) by (now rewrite Hp).
  rewrite (py_sum_perm ((fun r => Z.abs (deletions r.2)) <$> rs)
             ((fun r => Z.abs (deletions r.2)) <$> rs')) by (now rewrite Hp).
  rewrite (Permutation_length Hp).
  reflexivity.
Qed.

End Leaderboard.

(** C5, as stated, fails for the leaderboard: two repositories with equal
    totals are listed in the order in which they were processed. *)
Lemma leaderboard_depends_on_order_of_ties :
  generate_lines_svg (record_all [("a", [[0; 5; 0]]); ("b", [[0; 5; 0]])]) 480 1793886153
  <> generate_lines_svg (record_all [("b", [[0; 5; 0]]); ("a", [[0; 5; 0]])]) 480 1793886153.
Proof.
  intros E. apply String.eqb_eq in E. vm_compute in E. discriminate.
Qed.

(** C5, amended: permuting the order in which the repositories are
    processed changes neither the summed daily commit map nor the activity
    chart; it permutes the stored statistics of the lines-of-code job, and
    leaves the rendered leaderboard the same whenever no two repositories
    have the same total of additions and deletions. (Repositories of equal
    total are listed in processing order, the sort being stable.) *)
Theorem processing_order
  (dailies dailies' : list (list (string * Z)))
  (fetched fetched' : list (string * list week)) :
  dailies ≡ₚ dailies' ->
  NoDup fetched.*1 -> fetched ≡ₚ fetched' ->
  aggregate dailies = aggregate dailies' /\
  (forall clock : Z, activity_main dailies clock = activity_main dailies' clock) /\
  record_all fetched ≡ₚ record_all fetched' /\
  (NoDup (sort_key <$> record_all fetched) ->
   forall width clock : Z,
     generate_lines_svg (record_all fetched) width clock
     = generate_lines_svg (record_all fetched') width clock).
Proof.
  intros Hd Hnd Hf.
  assert (Hnd' : NoDup fetched'.*1) by (now rewrite <- Hf).
  assert (Hrs : record_all fetched ≡ₚ record_all fetched').
  { rewrite !record_all_omap by assumption. now rewrite Hf. }
  pose proof (aggregate_perm dailies dailies' Hd) as Ha.
  split; [exact Ha|]. split; [|split; [exact Hrs|]].
  - intros clock. unfold activity_main. now rewrite Ha.
  - intros Hties width clock. apply generate_lines_svg_perm; [exact Hrs|].
    now apply sorted_desc_unique.
Qed.

Lemma processing_order_witness :
  aggregate [[("2024-01-01", 3)]; [("2024-01-01", 2); ("2024-01-02", 1)]]
  = aggregate [[("2024-01-01", 2); ("2024-01-02", 1)]; [("2024-01-01", 3)]] /\
  generate_lines_svg (record_all [("a", [[0; 5; 0]]); ("b", [[0; 7; -1]])]) 480 1793886153
  = generate_lines_svg (record_all [("b", [[0; 7; -1]]); ("a", [[0; 5; 0]])]) 480 1793886153.
Proof.
  destruct (processing_order
              [[("2024-01-01", 3)]; [("2024-01-01", 2); ("2024-01-02", 1)]]
              [[("2024-01-01", 2); ("2024-01-02", 1)]; [("2024-01-01", 3)]]
              [("a", [[0; 5; 0]]); ("b", [[0; 7; -1]])]
              [("b", [[0; 7; -1]]); ("a", [[0; 5; 0]])])
    as (Ha & _ & _ & Hsvg).
  - apply Permutation_swap.
  - apply (bool_decide_unpack _). vm_compute. reflexivity.
  - apply Permutation_swap.
  - split; [exact Ha|]. apply Hsvg.
    apply (bool_decide_unpack _). vm_compute. reflexivity.
Defined.

(** The end-to-end example of the specification: 3 and 2 commits on one
    date add up to 5. *)
Example aggregate_two_repositories :
  aggregate [[("2024-01-01", 3)]; [("2024-01-01", 2)]] !! "2024-01-01" = Some 5.
Proof. vm_compute. reflexivity. Qed.

(** ** Repositories whose fetch comes back empty *)

Section EmptyFetch.
Variable srv : server.
Variable repo_names : list string.
Variable r : string.
Hypothesis fetch_empty : forall w : world, (get_code_frequency srv r w).1 = [].

Lemma dict_set_keys_eq {V : Type} (k : string) (v : V) (d : list (string * V)) :
  dict_keys (dict_set k v d)
  = if decide (k ∈ dict_keys d) then dict_keys d else dict_keys d ++ [k].
Proof.
  unfold dict_keys. induction d as [|[k' v'] d IH].
  - destruct (decide (k ∈ ([] : list (string * V)).*1)) as [H|_]; [|reflexivity].
    now apply elem_of_nil in H.
  - cbn [dict_set]. destruct (String.eqb_spec k' k) as [->|Hne].
    + rewrite !fmap_cons. cbn [fst].
      destruct (decide (k ∈ k :: d.*1)) as [_|H]; [reflexivity|].
      exfalso. apply H, elem_of_cons. now left.
    + rewrite !fmap_cons. cbn [fst]. rewrite IH.
      destruct (decide (k ∈ d.*1)) as [Hin|Hin];
        destruct (decide (k ∈ k' :: d.*1)) as [Hin'|Hin']; try reflexivity.
      * exfalso. apply Hin', elem_of_cons. now right.
      * exfalso. apply elem_of_cons in Hin' as [?|?]; congruence.
Qed.


(** An empty series stores nothing. *)
Lemma record_stats_empty (rs : list (string * stats)) (k : string) :
  record_stats rs k [] = rs.
Proof. reflexivity. Qed.





End EmptyFetch.




(** The run against that host: one repository with data; the slow one
    polled twelve times in each of the three rounds, the dead one asked once
    in each. *)
Example collect_demo :
  collect demo_server ["ok"; "slow"; "dead"] (World 0 0)
  = ([("ok", Stats 5 (-1))], World 40 183500).
Proof. vm_compute. reflexivity. Qed.

Example get_code_frequency_timeout :
  get_code_frequency demo_server "slow" (World 0 0) = ([], World 12 60000).
Proof. vm_compute. reflexivity. Qed.

(** A repository whose first fetch fails and whose second succeeds is stored
    by the second round: the exclusion is of repositories that come back
    empty every time. *)
Example collect_after_recovery :
  collect recovering_server ["late"] (World 0 0) = ([("late", Stats 7 (-2))], World 2 1000).
Proof. vm_compute. reflexivity. Qed.

(** * Further properties of the code *)

(** ** The error of one rounding *)

Section RoundingError.
Import Float64.
Local Open Scope Q_scope.

(** Rounding to an integer moves a number by at most a half. *)
Lemma rne_error (x : Q) : inject_Z (rne x) - (1 # 2) <= x /\ x <= inject_Z (rne x) + (1 # 2).
Proof.
  pose proof (Qfloor_le x) as H1. pose proof (Qlt_floor x) as H2.
  rewrite inject_Z_plus in H2. change (inject_Z 1) with 1 in H2.
  unfold rne.
  destruct (Qcompare_spec (x - inject_Z (Qfloor x)) (1 # 2)) as [H|H|H].
  - destruct (Z.even (Qfloor x)); [|rewrite inject_Z_plus; change (inject_Z 1) with 1]; lra.
  - lra.
  - rewrite inject_Z_plus. change (inject_Z 1) with 1. lra.
Qed.

(** Rounding to binary64 moves a positive number by at most the fraction
    [2^-53] of it. *)
Lemma rnd_rel_error (x : Q) :
  0 < x -> x - (1 # 2 ^ 53) * x <= rnd x /\ rnd x <= x + (1 # 2 ^ 53) * x.
Proof.
  intros Hx.
  destruct (rnd_exp_spec x Hx) as [L _].
  pose proof (rne_error (x * 2 ^ (- rnd_exp x))) as [E1 E2].
  pose proof (pow2_pos (rnd_exp x)) as Hp.
  pose proof (pow2_cancel (rnd_exp x)) as Hc.
  rewrite rnd_eq by lra.
  set (c := rnd_exp x) in *. set (z := inject_Z (rne (x * 2 ^ (- c)))) in *.
  assert (Hx' : x == x * 2 ^ (- c) * 2 ^ c) by (rewrite <- Qmult_assoc, Hc; ring).
  assert (U : (1 # 2) * 2 ^ c <= (1 # 2 ^ 53) * x).
  { rewrite pow2_add in L. change (2 ^ 52) with (inject_Z 4503599627370496) in L.
    assert (E : (1 # 2 ^ 53) == (1 # 2) * / inject_Z 4503599627370496) by reflexivity.
    rewrite E. clear E.
    assert (H : 2 ^ c <= / inject_Z 4503599627370496 * x).
    { apply Qle_shift_div_l in L; [|reflexivity]. unfold Qdiv in L. lra. }
    lra. }
  assert (A1 : (z - (1 # 2)) * 2 ^ c <= x * 2 ^ (- c) * 2 ^ c)
    by (apply Qmult_le_compat_r; lra).
  assert (A2 : x * 2 ^ (- c) * 2 ^ c <= (z + (1 # 2)) * 2 ^ c)
    by (apply Qmult_le_compat_r; lra).
  split; lra.
Qed.

End RoundingError.

(** ** The number of boxes *)

Section Boxes.
Import Float64.

Lemma true_div_self (a : Z) : 0 < a -> true_div a a = 1%Q.
Proof.
  intros Ha. unfold true_div. change 1%Q with (rnd 1). apply rnd_proper.
  apply Qmult_inv_r. assert (0 < inject_Z a)%Q by (now rewrite Zlt_Qlt in Ha). lra.
Qed.

Lemma ratio_boxes_whole (a : Z) : 0 < a -> ratio_boxes a a = 5.
Proof.
  intros Ha. unfold ratio_boxes. destruct (Z.ltb_spec 0 a) as [_|?]; [|lia].
  rewrite true_div_self by exact Ha. vm_compute. reflexivity.
Qed.

(** The rounded share of a part in a positive total, times five, lies
    between 0 and 5 and within a half (and a rounding error) of the exact
    share. *)
Lemma ratio_boxes_bounds (v total : Z) :
  0 < v <= total ->
  0 <= ratio_boxes v total <= 5 /\
  (inject_Z (ratio_boxes v total) - (1 # 2)
     <= 5 * (inject_Z v / inject_Z total) + (1 # 1000) /\
   5 * (inject_Z v / inject_Z total) - (1 # 1000)
     <= inject_Z (ratio_boxes v total) + (1 # 2))%Q.
Proof.
  intros [Hv Hvt]. unfold ratio_boxes.
  destruct (Z.ltb_spec 0 total) as [_|?]; [|lia].
  unfold fmul, true_div.
  assert (Ht : (0 < inject_Z total)%Q) by (apply inject_Z_pos; lia).
  assert (Hvq : (0 < inject_Z v)%Q) by (now apply inject_Z_pos).
  set (q := (inject_Z v / inject_Z total)%Q).
  assert (Hq0 : (0 < q)%Q) by (apply Qlt_shift_div_l; lra).
  assert (Hq1 : (q <= 1)%Q).
  { apply Qle_shift_div_r; [exact Ht|]. rewrite Zle_Qle in Hvt. lra. }
  destruct (rnd_rel_error q Hq0) as [F1 F2].
  change (1 # 2 ^ 53)%Q with (1 # 9007199254740992)%Q in F1, F2.
  assert (Hf1 : (rnd q <= 1)%Q) by (change 1%Q with (rnd 1); now apply rnd_mono).
  assert (Hf0 : (0 < rnd q)%Q) by lra.
  change (of_int 5) with 5%Q.
  assert (Hp0 : (0 < rnd q * 5)%Q) by lra.
  destruct (rnd_rel_error (rnd q * 5)%Q Hp0) as [G1 G2].
  change (1 # 2 ^ 53)%Q with (1 # 9007199254740992)%Q in G1, G2.
  assert (Hp5 : (rnd (rnd q * 5) <= 5)%Q).
  { change 5%Q with (rnd 5) at 2. apply rnd_mono. lra. }
  pose proof (rne_error (rnd (rnd q * 5))) as [R1 R2].
  assert (Hlo : 0 <= rne (rnd (rnd q * 5))).
  { change 0 with (rne 0). apply rne_mono. apply rnd_nonneg. lra. }
  assert (Hhi : rne (rnd (rnd q * 5)) <= 5).
  { change 5 with (rne 5) at 2. now apply rne_mono. }
  split; [lia|]. split; lra.
Qed.

(** The counts returned for a repository with both additions and
    deletions. *)
Lemma mixed_boxes_value (additions deletions max_total : Z) :
  0 < additions -> 0 < deletions -> max_total <> 0 ->
  1 <= (calc_diff_boxes additions deletions max_total).1 <= 5 /\
  1 <= (calc_diff_boxes additions deletions max_total).2 <= 5 /\
  4 <= (calc_diff_boxes additions deletions max_total).1
       + (calc_diff_boxes additions deletions max_total).2 <= 6.
Proof.
  intros Ha Hd Hm. unfold calc_diff_boxes.
  destruct (Z.eqb_spec max_total 0) as [?|_]; [contradiction|].
  destruct (Z.ltb_spec 0 additions) as [_|?]; [|lia].
  destruct (Z.ltb_spec 0 deletions) as [_|?]; [|lia].
  cbv zeta. simpl fst. simpl snd.
  destruct (ratio_boxes_bounds additions (additions + deletions) ltac:(lia))
    as (Ba & Ua & La).
  destruct (ratio_boxes_bounds deletions (additions + deletions) ltac:(lia))
    as (Bd & Ud & Ld).
  set (ra := ratio_boxes additions (additions + deletions)) in *.
  set (rd := ratio_boxes deletions (additions + deletions)) in *.
  assert (Hsum : (inject_Z additions / inject_Z (additions + deletions)
                  + inject_Z deletions / inject_Z (additions + deletions) == 1)%Q).
  { rewrite inject_Z_plus.
    pose proof (inject_Z_pos additions Ha). pose proof (inject_Z_pos deletions Hd).
    field. lra. }
  assert (S6 : ra + rd < 7).
  { rewrite Zlt_Qlt, inject_Z_plus. change (inject_Z 7) with 7%Q. lra. }
  assert (S4 : 3 < ra + rd).
  { rewrite Zlt_Qlt, inject_Z_plus. change (inject_Z 3) with 3%Q. lra. }
  lia.
Qed.

(** The counts returned for a repository with additions only, or deletions
    only. *)
Lemma one_sided_boxes_value (n max_total : Z) :
  0 < n -> max_total <> 0 ->
  calc_diff_boxes n 0 max_total = (5, 0) /\ calc_diff_boxes 0 n max_total = (0, 5).
Proof.
  intros Hn Hm. unfold calc_diff_boxes.
  destruct (Z.eqb_spec max_total 0) as [?|_]; [contradiction|].
  destruct (Z.ltb_spec 0 n) as [_|?]; [|lia].
  rewrite Z.add_0_r, Z.add_0_l, ratio_boxes_whole by exact Hn.
  split; reflexivity.
Qed.

End Boxes.

(** X8: for a repository with both additions and deletions, the call raises
    exactly when the quotient [total / max_total], which it does not use, is
    beyond the floats (never when the total is at most [2^1023]); whenever it
    returns, there are one to five boxes of each kind, and four, five or six
    boxes in all. *)
Theorem mixed_boxes_between_4_and_6 (additions deletions max_total : Z) :
  0 < additions -> 0 < deletions -> max_total <> 0 ->
  (calc_diff_boxes_exc additions deletions max_total = None
   <-> Float64.true_div_exc (additions + deletions) max_total = None) /\
  (additions + deletions <= 2 ^ 1023 ->
   is_Some (calc_diff_boxes_exc additions deletions max_total)) /\
  forall a b : Z,
    calc_diff_boxes_exc additions deletions max_total = Some (a, b) ->
    1 <= a <= 5 /\ 1 <= b <= 5 /\ 4 <= a + b <= 6.
Proof.
  intros Ha Hd Hm.
  pose proof (calc_diff_boxes_exc_raises additions deletions max_total
                ltac:(lia) ltac:(lia) Hm) as Hr.
  split; [exact Hr|]. split.
  - intros Hs.
    destruct (true_div_exc_in_range (additions + deletions) max_total Hm) as [q Hq]; [lia|].
    destruct (calc_diff_boxes_exc additions deletions max_total) as [r|]; [eauto|].
    destruct Hr as [Hr _]. specialize (Hr eq_refl). congruence.
  - intros a b E. apply calc_diff_boxes_exc_value in E.
    pose proof (mixed_boxes_value additions deletions max_total Ha Hd Hm) as H.
    rewrite <- E in H. exact H.
Qed.

Lemma mixed_boxes_between_4_and_6_witness :
  is_Some (calc_diff_boxes_exc 1234 56 2000) /\
  forall a b : Z, calc_diff_boxes_exc 1234 56 2000 = Some (a, b) -> 4 <= a + b <= 6.
Proof.
  destruct (mixed_boxes_between_4_and_6 1234 56 2000) as (_ & R & B);
    [lia | lia | discriminate |].
  split; [apply R; vm_compute; discriminate|].
  intros a b E. now destruct (B a b E) as (_ & _ & H).
Defined.

(** X9: for a repository with additions only, the call returns five added
    boxes and no deleted box, and for one with deletions only the reverse,
    unless the quotient [n / max_total], which it does not use, is beyond
    the floats, when it raises; it returns whenever [n] is at most
    [2^1023]. *)
Theorem one_sided_boxes (n max_total : Z) :
  0 < n -> max_total <> 0 ->
  calc_diff_boxes_exc n 0 max_total = (fun _ => (5, 0)) <$> Float64.true_div_exc n max_total /\
  calc_diff_boxes_exc 0 n max_total = (fun _ => (0, 5)) <$> Float64.true_div_exc n max_total /\
  (n <= 2 ^ 1023 ->
   calc_diff_boxes_exc n 0 max_total = Some (5, 0) /\
   calc_diff_boxes_exc 0 n max_total = Some (0, 5)).
Proof.
  intros Hn Hm.
  pose proof (calc_diff_boxes_exc_raises n 0 max_total ltac:(lia) ltac:(lia) Hm) as R1.
  pose proof (calc_diff_boxes_exc_raises 0 n max_total ltac:(lia) ltac:(lia) Hm) as R2.
  rewrite Z.add_0_r in R1. rewrite Z.add_0_l in R2.
  destruct (one_sided_boxes_value n max_total Hn Hm) as [V1 V2].
  assert (E1 : calc_diff_boxes_exc n 0 max_total
               = (fun _ => (5, 0)) <$> Float64.true_div_exc n max_total).
  { destruct (calc_diff_boxes_exc n 0 max_total) as [r|] eqn:E.
    - apply calc_diff_boxes_exc_value in E. rewrite V1 in E. subst r.
      destruct (Float64.true_div_exc n max_total) as [q|] eqn:Q; [reflexivity|].
      destruct R1 as [_ R1]. specialize (R1 eq_refl). discriminate.
    - destruct R1 as [R1 _]. now rewrite (R1 eq_refl). }
  assert (E2 : calc_diff_boxes_exc 0 n max_total
               = (fun _ => (0, 5)) <$> Float64.true_div_exc n max_total).
  { destruct (calc_diff_boxes_exc 0 n max_total) as [r|] eqn:E.
    - apply calc_diff_boxes_exc_value in E. rewrite V2 in E. subst r.
      destruct (Float64.true_div_exc n max_total) as [q|] eqn:Q; [reflexivity|].
      destruct R2 as [_ R2]. specialize (R2 eq_refl). discriminate.
    - destruct R2 as [R2 _]. now rewrite (R2 eq_refl). }
  split; [exact E1|]. split; [exact E2|].
  intros Hs. rewrite E1, E2.
  destruct (true_div_exc_in_range n max_total Hm) as [q ->]; [lia|].
  split; reflexivity.
Qed.

Lemma one_sided_boxes_witness :
  calc_diff_boxes_exc 1234 0 2000 = Some (5, 0) /\
  calc_diff_boxes_exc 0 1234 2000 = Some (0, 5).
Proof.
  destruct (one_sided_boxes 1234 2000) as (_ & _ & H); [lia | discriminate |].
  apply H. vm_compute. discriminate.
Defined.

(** ** The accuracy of format_number *)

Section FormatAccuracy.
Import Float64.

(** The tenths printed for [n / unit] are within half a tenth of it. *)
Lemma format_1f_true_div (n unit : Z) :
  0 < unit -> unit <= n < 2 ^ 49 ->
  exists t : Z,
    format_1f (true_div n unit) = str (t / 10) +:+ "." +:+ str (t mod 10) /\
    (inject_Z t - (1 # 2) - (5 # 8) * / inject_Z unit
       <= 10 * (inject_Z n / inject_Z unit) /\
     10 * (inject_Z n / inject_Z unit)
       <= inject_Z t + (1 # 2) + (5 # 8) * / inject_Z unit)%Q.
Proof.
  intros Hu [Hn Hb]. unfold format_1f, true_div.
  pose proof (inject_Z_pos unit Hu) as HU.
  pose proof (inject_Z_pos n ltac:(lia)) as HN.
  set (q := (inject_Z n / inject_Z unit)%Q).
  assert (Hq : (0 < q)%Q) by (apply Qlt_shift_div_l; lra).
  destruct (rnd_rel_error q Hq) as [F1 F2].
  change (1 # 2 ^ 53)%Q with (1 # 9007199254740992)%Q in F1, F2.
  assert (Hv : (0 < rnd q)%Q) by lra.
  exists (rne (Qabs (rnd q) * 10)). split.
  - destruct (Qlt_le_dec (rnd q) 0); [lra | reflexivity].
  - rewrite (rne_proper (Qabs (rnd q) * 10) (rnd q * 10))
      by (rewrite Qabs_pos by lra; reflexivity).
    pose proof (rne_error (rnd q * 10)) as [R1 R2].
    assert (Hnb : (inject_Z n < inject_Z (2 ^ 49))%Q) by (now rewrite <- Zlt_Qlt).
    change (inject_Z (2 ^ 49)) with 562949953421312%Q in Hnb.
    assert (Hqn : (q == inject_Z n * / inject_Z unit)%Q) by reflexivity.
    assert (Hi : (0 < / inject_Z unit)%Q) by (now apply Qinv_lt_0_compat).
    assert (Hqb : (q <= 562949953421312 * / inject_Z unit)%Q).
    { rewrite Hqn. apply Qmult_le_compat_r; lra. }
    split; lra.
Qed.

Lemma tenths_within_half (t n unit : Z) :
  0 < unit ->
  (inject_Z t - (1 # 2) - (5 # 8) * / inject_Z unit
     <= 10 * (inject_Z n / inject_Z unit) /\
   10 * (inject_Z n / inject_Z unit)
     <= inject_Z t + (1 # 2) + (5 # 8) * / inject_Z unit)%Q ->
  Z.abs (2 * (t * unit - 10 * n)) <= unit + 1.
Proof.
  intros Hu [H1 H2].
  pose proof (inject_Z_pos unit Hu) as HU.
  assert (Hc : (/ inject_Z unit * inject_Z unit == 1)%Q) by (field; lra).
  assert (Hd : (inject_Z n / inject_Z unit * inject_Z unit == inject_Z n)%Q)
    by (field; lra).
  assert (A1 : ((inject_Z t - (1 # 2) - (5 # 8) * / inject_Z unit) * inject_Z unit
                <= 10 * (inject_Z n / inject_Z unit) * inject_Z unit)%Q)
    by (apply Qmult_le_compat_r; lra).
  assert (A2 : (10 * (inject_Z n / inject_Z unit) * inject_Z unit
                <= (inject_Z t + (1 # 2) + (5 # 8) * / inject_Z unit) * inject_Z unit)%Q)
    by (apply Qmult_le_compat_r; lra).
  assert (B1 : (inject_Z (2 * (t * unit - 10 * n)) < inject_Z (unit + 2))%Q).
  { rewrite !inject_Z_mult, !inject_Z_plus. unfold Z.sub.
    rewrite !inject_Z_plus, inject_Z_opp, !inject_Z_mult.
    change (inject_Z 2) with 2%Q. change (inject_Z 10) with 10%Q.
    change (inject_Z 2) with 2%Q. nra. }
  assert (B2 : (inject_Z (- (unit + 2)) < inject_Z (2 * (t * unit - 10 * n)))%Q).
  { rewrite inject_Z_opp, !inject_Z_mult, !inject_Z_plus. unfold Z.sub.
    rewrite !inject_Z_plus, inject_Z_opp, !inject_Z_mult.
    change (inject_Z 2) with 2%Q. change (inject_Z 10) with 10%Q.
    change (inject_Z 2) with 2%Q. nra. }
  rewrite <- Zlt_Qlt in B1, B2. lia.
Qed.

Lemma string_app_assoc (a b c : string) : (a +:+ b) +:+ c = a +:+ (b +:+ c).
Proof.
  induction a as [|x a IH]; [reflexivity|].
  change (String x ((a +:+ b) +:+ c) = String x (a +:+ (b +:+ c))). now rewrite IH.
Qed.

End FormatAccuracy.

(** X14: from a thousand up (and below [2^49]), [format_number] prints the
    number of thousands, or of millions from a million up, to the nearest
    tenth: the printed tenths [t] are within half a tenth of the true
    quotient. *)
Theorem format_number_accuracy (n : Z) :
  1000 <= n < 2 ^ 49 ->
  exists t : Z,
    (n < 1000000 ->
       format_number n = str (t / 10) +:+ "." +:+ str (t mod 10) +:+ "k" /\
       Z.abs (100 * t - n) <= 50) /\
    (1000000 <= n ->
       format_number n = str (t / 10) +:+ "." +:+ str (t mod 10) +:+ "M" /\
       Z.abs (100000 * t - n) <= 50000).
Proof.
  intros [Hlo Hhi]. unfold format_number.
  rewrite (Z.abs_eq n) by lia.
  destruct (Z.leb_spec 1000000 n) as [H6|H6].
  - destruct (format_1f_true_div n 1000000 ltac:(lia) ltac:(lia)) as (t & Ef & Hb).
    exists t. split; [lia|]. intros _. split.
    + rewrite Ef. now rewrite !string_app_assoc.
    + pose proof (tenths_within_half t n 1000000 ltac:(lia) Hb). lia.
  - destruct (Z.leb_spec 1000 n) as [_|?]; [|lia].
    destruct (format_1f_true_div n 1000 ltac:(lia) ltac:(lia)) as (t & Ef & Hb).
    exists t. split; [|lia]. intros _. split.
    + rewrite Ef. now rewrite !string_app_assoc.
    + pose proof (tenths_within_half t n 1000 ltac:(lia) Hb). lia.
Qed.

Lemma format_number_accuracy_witness :
  exists t : Z,
    format_number 123456 = str (t / 10) +:+ "." +:+ str (t mod 10) +:+ "k" /\
    Z.abs (100 * t - 123456) <= 50.
Proof.
  destruct (format_number_accuracy 123456 ltac:(lia)) as (t & Hk & _).
  exists t. apply Hk. lia.
Defined.

(** ** The paginated listings *)

Section Pagination.
Variable h : host.

Lemma get_org_repos_from_stops (n : nat) : forall (fuel k : nat) (repos : list string),
  (forall i, (i < n)%nat -> listing_continues (repos_page h (k + i))) ->
  listing_stops (repos_page h (k + n)) ->
  (n < fuel)%nat ->
  get_org_repos_from fuel h (1 + Z.of_nat k) repos
  = Some (repos ++ concat ((fun i => page_items (repos_page h i)) <$> seq k n)).
Proof.
  induction n as [|n IH]; intros fuel k repos Hc Hs Hf;
    (destruct fuel as [|fuel]; [lia|]); simpl.
  - rewrite Nat.add_0_r in Hs. unfold repos_page in Hs. rewrite app_nil_r.
    destruct Hs as [Hs|Hs].
    + destruct (Z.eqb_spec (page_status (h (repos_url (1 + Z.of_nat k)))) 200); [lia|].
      reflexivity.
    + destruct (negb _); [reflexivity|]. now rewrite Hs.
  - destruct (Hc 0%nat ltac:(lia)) as [H200 Hne]. rewrite Nat.add_0_r in H200, Hne.
    unfold repos_page in H200, Hne. rewrite H200. simpl.
    destruct (page_items (h (repos_url (1 + Z.of_nat k)))) as [|x items] eqn:E;
      [congruence|].
    replace (1 + Z.of_nat k + 1) with (1 + Z.of_nat (S k)) by lia.
    rewrite IH; [| |now replace (S k + n)%nat with (k + S n)%nat by lia|lia].
    + unfold repos_page at 2. rewrite E. now rewrite <- app_assoc.
    + intros i Hi. replace (S k + i)%nat with (k + S i)%nat by lia. apply Hc. lia.
Qed.

Lemma get_org_repos_from_endless (fuel : nat) : forall (k : nat) (repos : list string),
  (forall i, listing_continues (repos_page h i)) ->
  get_org_repos_from fuel h (1 + Z.of_nat k) repos = None.
Proof.
  induction fuel as [|fuel IH]; intros k repos Hc; [reflexivity|]. simpl.
  destruct (Hc k) as [H200 Hne]. unfold repos_page in *. rewrite H200. simpl.
  destruct (page_items (h (repos_url (1 + Z.of_nat k)))) as [|x items]; [congruence|].
  replace (1 + Z.of_nat k + 1) with (1 + Z.of_nat (S k)) by lia. now apply IH.
Qed.

Lemma count_commits_app (d : list (string * Z)) (a b : list string) :
  count_commits (count_commits d a) b = count_commits d (a ++ b).
Proof. unfold count_commits. now rewrite foldl_app. Qed.

Lemma daily_commits_from_step (repo_name since : string) (fuel : nat) (page : Z)
  (acc : list (string * Z)) :
  daily_commits_from (S fuel) h repo_name since page acc =
    let resp := h (commits_url repo_name since page) in
    if negb (page_status resp =? 200) then Some acc
    else
      match page_items resp with
      | [] => Some acc
      | _ :: _ =>
          if (length (page_items resp) <? 100)%nat
          then Some (count_commits acc (page_items resp))
          else daily_commits_from fuel h repo_name since (page + 1)
                 (count_commits acc (page_items resp))
      end.
Proof. reflexivity. Qed.

Lemma daily_commits_from_stops (repo_name since : string) (n : nat) :
  forall (fuel k : nat) (acc : list (string * Z)),
  (forall i, (i < n)%nat -> commits_continue (commits_page h repo_name since (k + i))) ->
  commits_stop (commits_page h repo_name since (k + n)) ->
  (n < fuel)%nat ->
  daily_commits_from fuel h repo_name since (1 + Z.of_nat k) acc
  = Some (count_commits acc
            (concat ((fun i => page_items (commits_page h repo_name since i)) <$> seq k n)
             ++ counted_items (commits_page h repo_name since (k + n)))).
Proof.
  induction n as [|n IH]; intros fuel k acc Hc Hs Hf;
    (destruct fuel as [|fuel]; [lia|]); rewrite daily_commits_from_step; cbv zeta.
  - rewrite Nat.add_0_r in *.
    change (concat ((fun i => page_items (commits_page h repo_name since i)) <$> seq k 0))
      with (@nil string).
    rewrite app_nil_l. unfold counted_items.
    change (h (commits_url repo_name since (1 + Z.of_nat k)))
      with (commits_page h repo_name since k).
    set (p := commits_page h repo_name since k) in *.
    destruct (Z.eqb_spec (page_status p) 200) as [E|E]; [|reflexivity].
    destruct Hs as [Hs|Hs]; [contradiction|].
    change (negb true) with false. cbv iota.
    destruct (page_items p) as [|x items] eqn:Ei; [reflexivity|].
    destruct (Nat.ltb_spec (length (x :: items)) 100) as [_|?]; [reflexivity|lia].
  - destruct (Hc 0%nat ltac:(lia)) as [H200 Hlen]. rewrite Nat.add_0_r in H200, Hlen.
    change (h (commits_url repo_name since (1 + Z.of_nat k)))
      with (commits_page h repo_name since k).
    change (seq k (S n)) with (k :: seq (S k) n). rewrite fmap_cons.
    change (concat (?x :: ?l)) with (x ++ concat l).
    set (p := commits_page h repo_name since k) in *.
    rewrite H200. change (negb (200 =? 200)) with false. cbv iota.
    destruct (page_items p) as [|x items] eqn:E; [simpl in Hlen; lia|].
    destruct (Nat.ltb_spec (length (x :: items)) 100) as [?|_]; [lia|].
    replace (1 + Z.of_nat k + 1) with (1 + Z.of_nat (S k)) by lia.
    rewrite IH; [| |now replace (S k + n)%nat with (k + S n)%nat by lia|lia].
    + rewrite count_commits_app.
      replace (S k + n)%nat with (k + S n)%nat by lia. now rewrite <- app_assoc.
    + intros i Hi. replace (S k + i)%nat with (k + S i)%nat by lia. apply Hc. lia.
Qed.

End Pagination.

(** X1: when the first [n] pages of the listing are good and the next one
    is an error or empty, [get_org_repos] returns the repositories of the
    [n] good pages, in order: an error keeps what was listed before it. *)
Theorem get_org_repos_stops (h : host) (n fuel : nat) :
  (forall i, (i < n)%nat -> listing_continues (repos_page h i)) ->
  listing_stops (repos_page h n) ->
  (n < fuel)%nat ->
  get_org_repos fuel h
  = Some (concat ((fun i => page_items (repos_page h i)) <$> seq 0 n)).
Proof.
  intros Hc Hs Hf. unfold get_org_repos.
  exact (get_org_repos_from_stops h n fuel 0 [] Hc Hs Hf).
Qed.

Lemma get_org_repos_stops_witness :
  get_org_repos 5 two_repos_host = Some ["alpha"; "beta"].
Proof.
  rewrite (get_org_repos_stops two_repos_host 1 5).
  - reflexivity.
  - intros i Hi. assert (i = 0%nat) as -> by lia. split; [reflexivity | discriminate].
  - left. vm_compute. discriminate.
  - lia.
Defined.

(** X2: the listing has no bound of its own: against a host that answers
    every page with repositories, [get_org_repos] never returns. *)
Theorem get_org_repos_endless (h : host) :
  (forall i, listing_continues (repos_page h i)) ->
  forall fuel : nat, get_org_repos fuel h = None.
Proof.
  intros Hc fuel. unfold get_org_repos.
  exact (get_org_repos_from_endless h fuel 0 [] Hc).
Qed.

Lemma get_org_repos_endless_witness : get_org_repos 1000 endless_host = None.
Proof.
  apply get_org_repos_endless. intros i. split; [reflexivity | discriminate].
Defined.

(** X3: when the first [n] pages of commits are full (100 or more) and the
    next one is an error, empty or short, [get_daily_commits] returns the
    count by day of all the commits of the full pages and of the last page
    unless it is an error. *)
Theorem get_daily_commits_stops (h : host) (repo_name : string) (days clock : Z)
  (n fuel : nat) :
  let since := since_string clock days in
  (forall i, (i < n)%nat -> commits_continue (commits_page h repo_name since i)) ->
  commits_stop (commits_page h repo_name since n) ->
  (n < fuel)%nat ->
  get_daily_commits fuel h repo_name days clock
  = Some (count_commits []
            (concat ((fun i => page_items (commits_page h repo_name since i)) <$> seq 0 n)
             ++ counted_items (commits_page h repo_name since n))).
Proof.
  intros since Hc Hs Hf. unfold get_daily_commits. fold since.
  exact (daily_commits_from_stops h repo_name since n fuel 0 [] Hc Hs Hf).
Qed.

Lemma get_daily_commits_stops_witness :
  get_daily_commits 3 short_page_host "alpha" 90 1793886153
  = Some [("2026-11-04", 2); ("2026-11-03", 1)].
Proof.
  rewrite (get_daily_commits_stops short_page_host "alpha" 90 1793886153 0 3).
  - reflexivity.
  - intros i Hi. lia.
  - right. simpl. lia.
  - lia.
Defined.

(** ** Counting commits by day *)

Section Counting.

Lemma dict_get_set_eq {V : Type} (k : string) (v : V) (d : list (string * V)) :
  dict_get k (dict_set k v d) = Some v.
Proof.
  induction d as [|[k' v'] d IH]; cbn [dict_set dict_get].
  - now rewrite String.eqb_refl.
  - destruct (String.eqb_spec k' k) as [->|Hne]; cbn [dict_get].
    + now rewrite String.eqb_refl.
    + destruct (String.eqb_spec k' k); [contradiction | exact IH].
Qed.

Lemma dict_get_set_ne {V : Type} (k k0 : string) (v : V) (d : list (string * V)) :
  k <> k0 -> dict_get k0 (dict_set k v d) = dict_get k0 d.
Proof.
  intros Hne. induction d as [|[k' v'] d IH]; cbn [dict_set dict_get].
  - destruct (String.eqb_spec k k0); [contradiction | reflexivity].
  - destruct (String.eqb_spec k' k) as [->|Hk]; cbn [dict_get].
    + destruct (String.eqb_spec k k0); [contradiction | reflexivity].
    + now rewrite IH.
Qed.

Lemma dict_get_elem {V : Type} (k : string) (v : V) (d : list (string * V)) :
  dict_get k d = Some v -> (k, v) ∈ d.
Proof.
  induction d as [|[k' v'] d IH]; cbn [dict_get]; [discriminate|].
  destruct (String.eqb_spec k' k) as [->|Hk].
  - intros [= ->]. apply elem_of_cons. now left.
  - intros H. apply elem_of_cons. right. auto.
Qed.

Lemma dict_set_sum (k : string) (v : Z) (d : list (string * Z)) :
  py_sum (snd <$> dict_set k v d) = py_sum (snd <$> d) + v - default 0 (dict_get k d).
Proof.
  induction d as [|[k' v'] d IH]; cbn [dict_set dict_get].
  - simpl. lia.
  - destruct (String.eqb_spec k' k) as [->|Hk]; rewrite !fmap_cons; simpl in *; lia.
Qed.

Lemma dict_set_Forall {V : Type} (P : string * V -> Prop) (k : string) (v : V)
  (d : list (string * V)) :
  (forall k', P (k', v)) -> Forall P d -> Forall P (dict_set k v d).
Proof.
  intros Hv. induction 1 as [|[k' v'] d Hx Hd IH]; cbn [dict_set].
  - repeat constructor. apply Hv.
  - destruct (String.eqb k' k); constructor; auto.
Qed.

Lemma dict_set_NoDup {V : Type} (k : string) (v : V) (d : list (string * V)) :
  NoDup (dict_keys d) -> NoDup (dict_keys (dict_set k v d)).
Proof.
  intros Hnd. rewrite dict_set_keys_eq.
  destruct (decide (k ∈ dict_keys d)) as [Hin|Hin]; [exact Hnd|].
  apply NoDup_app. split; [exact Hnd|]. split; [|apply NoDup_singleton].
  intros x Hx Hx'. apply list_elem_of_singleton in Hx'. congruence.
Qed.

Lemma dict_set_key_iff {V : Type} (k x : string) (v : V) (d : list (string * V)) :
  x ∈ dict_keys (dict_set k v d) <-> x = k \/ x ∈ dict_keys d.
Proof.
  rewrite dict_set_keys_eq.
  destruct (decide (k ∈ dict_keys d)) as [Hin|Hin].
  - split; [auto|]. intros [->|H]; assumption.
  - rewrite elem_of_app, list_elem_of_singleton. tauto.
Qed.

Lemma count_commits_cons (acc : list (string * Z)) (c : string) (data : list string) :
  count_commits acc (c :: data)
  = count_commits (dict_incr (String.substring 0 10 c) acc) data.
Proof. reflexivity. Qed.

Lemma count_commits_from (data : list string) : forall acc : list (string * Z),
  NoDup (dict_keys acc) ->
  Forall (fun kv : string * Z => 1 <= kv.2) acc ->
  let d := count_commits acc data in
  NoDup (dict_keys d) /\
  Forall (fun kv : string * Z => 1 <= kv.2) d /\
  py_sum (snd <$> d) = py_sum (snd <$> acc) + Z.of_nat (length data) /\
  (forall date,
     default 0 (dict_get date d)
     = default 0 (dict_get date acc)
       + Z.of_nat (length (filter (fun c => String.substring 0 10 c = date) data))) /\
  (forall date,
     date ∈ dict_keys d
     <-> date ∈ dict_keys acc \/ exists c, c ∈ data /\ String.substring 0 10 c = date).
Proof.
  induction data as [|c data IH]; intros acc Hnd Hpos; cbv zeta.
  - change (count_commits acc []) with acc.
    split; [exact Hnd|]. split; [exact Hpos|]. split; [simpl; lia|]. split.
    + intros date. simpl. lia.
    + intros date. split; [auto|]. intros [H|(c & Hc & _)]; [exact H|].
      now apply elem_of_nil in Hc.
  - rewrite count_commits_cons.
    set (k := String.substring 0 10 c).
    assert (Hget : 0 <= default 0 (dict_get k acc)).
    { destruct (dict_get k acc) as [v|] eqn:E; simpl; [|lia].
      apply dict_get_elem in E. rewrite Forall_forall in Hpos.
      specialize (Hpos _ E). simpl in Hpos. lia. }
    destruct (IH (dict_incr k acc)) as (N & P & S & G & K).
    { now apply dict_set_NoDup. }
    { apply dict_set_Forall; [|exact Hpos]. intros k'. simpl. lia. }
    split; [exact N|]. split; [exact P|]. split; [|split].
    + rewrite S. unfold dict_incr. rewrite dict_set_sum. simpl length. lia.
    + intros date. rewrite G. rewrite filter_cons. fold k.
      destruct (decide (k = date)) as [->|Hne].
      * unfold dict_incr. rewrite dict_get_set_eq. simpl. lia.
      * unfold dict_incr. rewrite dict_get_set_ne by exact Hne. lia.
    + intros date. rewrite K. unfold dict_incr. rewrite dict_set_key_iff.
      split.
      * intros [[->|H]|(c' & Hc' & E)].
        -- right. exists c. split; [apply elem_of_cons; now left | reflexivity].
        -- now left.
        -- right. exists c'. split; [apply elem_of_cons; now right | exact E].
      * intros [H|(c' & Hc' & E)]; [left; now right|].
        apply elem_of_cons in Hc' as [->|Hc']; [left; left; now symmetry|].
        right. exists c'. split; assumption.
Qed.

End Counting.

(** X4: the counting loop of [get_daily_commits] makes a series with one
    entry for each date that the first ten characters of some commit's
    author date name, and no other; the count of a date is the number of
    such commits, at least 1; and the counts add up to the number of commits
    read. *)
Theorem count_commits_spec (data : list string) :
  let series := count_commits [] data in
  NoDup (dict_keys series) /\
  (forall date,
     date ∈ dict_keys series <-> exists c, c ∈ data /\ String.substring 0 10 c = date) /\
  (forall date,
     default 0 (dict_get date series)
     = Z.of_nat (length (filter (fun c => String.substring 0 10 c = date) data))) /\
  Forall (fun kv : string * Z => 1 <= kv.2) series /\
  py_sum (snd <$> series) = Z.of_nat (length data).
Proof.
  destruct (count_commits_from data [] ltac:(constructor) ltac:(constructor))
    as (N & P & S & G & K).
  cbv zeta. split; [exact N|]. split; [|split; [|split; [exact P | exact S]]].
  - intros date. rewrite K. split; [|auto].
    intros [H|H]; [now apply elem_of_nil in H | exact H].
  - intros date. now rewrite G.
Qed.

(** ** The day that [since] names *)

Section Since.
Import Calendar.

Lemma ord2ymd_year_from_1000 (ordinal : Z) :
  364878 <= ordinal -> 1000 <= (ord2ymd ordinal).1.1.
Proof.
  intros Ho. rewrite ord2ymd_unfold.
  pose proof (ordinal_digits (ordinal - 1) ltac:(lia)) as H. cbv zeta in H |- *.
  set (n400 := (ordinal - 1) / DI400Y) in *.
  set (r1 := (ordinal - 1) mod DI400Y) in *.
  set (n100 := r1 / DI100Y) in *. set (r2 := r1 mod DI100Y) in *.
  set (n4 := r2 / DI4Y) in *. set (r3 := r2 mod DI4Y) in *.
  set (n1 := r3 / 365) in *. set (r4 := r3 mod 365) in *.
  clearbody n400 r1 n100 r2 n4 r3 n1 r4.
  destruct H as (Hn & H400 & H100 & H4 & H1 & Hr4 & S100 & S1).
  destruct ((n1 =? 4) || (n100 =? 4)) eqn:Hs.
  - simpl. rewrite orb_true_iff, !Z.eqb_eq in Hs. lia.
  - rewrite orb_false_iff, !Z.eqb_neq in Hs. simpl. lia.
Qed.

Lemma str_is_pad_4 (y : Z) : 1000 <= y < 10000 -> str y = pad 4 y.
Proof.
  intros Hy.
  assert (H : String.eqb (str y) (pad 4 y) = true).
  { apply (forallb_seqZ (fun y => String.eqb (str y) (pad 4 y)) 1000 9000);
      [vm_compute; reflexivity | lia]. }
  now apply String.eqb_eq.
Qed.

Lemma substring_prefix (a b : string) : String.substring 0 (String.length a) (a +:+ b) = a.
Proof.
  induction a as [|x a IH].
  - destruct b; reflexivity.
  - change (String x (String.substring 0 (String.length a) (a +:+ b)) = String x a).
    now rewrite IH.
Qed.

Lemma isoformat_length (ordinal : Z) :
  1 <= ordinal <= max_ordinal -> String.length (isoformat ordinal) = 10%nat.
Proof.
  intros Ho. pose proof (ord2ymd_range ordinal Ho) as (Hy & Hm & Hd).
  unfold isoformat. destruct (ord2ymd ordinal) as [[y m] d]. simpl in *.
  pose proof (pad_spec_4 y ltac:(lia)) as Py.
  pose proof (pad_spec_2 m ltac:(lia)) as Pm.
  pose proof (pad_spec_2 d ltac:(lia)) as Pd.
  unfold pad_ok in *. rewrite !andb_true_iff, !Nat.eqb_eq in *.
  rewrite !string_length_app. simpl. lia.
Qed.

Lemma strftime_utc_date (t : Z) :
  364878 <= utc_date t <= max_ordinal ->
  String.substring 0 10 (strftime_utc t) = isoformat (utc_date t).
Proof.
  intros Ht.
  pose proof (isoformat_length (utc_date t) ltac:(lia)) as Hlen.
  pose proof (ord2ymd_year_from_1000 (utc_date t) ltac:(lia)) as Hy.
  pose proof (ord2ymd_range (utc_date t) ltac:(lia)) as (Hy' & _ & _).
  rewrite <- Hlen at 1.
  unfold strftime_utc, isoformat in *.
  destruct (ord2ymd (utc_date t)) as [[y m] d]. simpl in Hy, Hy'.
  rewrite str_is_pad_4 by lia.
  set (rest := "T" +:+ _).
  replace (pad 4 y +:+ "-" +:+ pad 2 m +:+ "-" +:+ pad 2 d +:+ rest)
    with ((pad 4 y +:+ "-" +:+ pad 2 m +:+ "-" +:+ pad 2 d) +:+ rest)
    by (now rewrite !string_app_assoc).
  apply substring_prefix.
Qed.

End Since.

(** X5: [get_daily_commits] asks for the commits since the same time of day
    90 days ago, and the date of that time is the day before the first date
    of the chart's window: commits dated on it are fetched and counted, and
    drawn in no bucket. *)
Theorem since_day_outside_window (clock : Z) :
  0 <= clock < 253402300800 ->
  let today := Calendar.utc_date clock in
  String.substring 0 10 (since_string clock 90) = Calendar.isoformat (today - 90) /\
  (Calendar.isoformat (today - 90) ∉ window_dates today) /\
  window_dates today !! 0%nat = Some (Calendar.isoformat (today - 89)).
Proof.
  intros Hc today.
  assert (Ht : 719163 <= today <= Calendar.max_ordinal).
  { subst today. unfold Calendar.utc_date, Calendar.max_ordinal.
    pose proof (Z.div_le_mono 0 clock 86400 ltac:(lia) ltac:(lia)).
    pose proof (Z.div_lt_upper_bound clock 86400 2932897 ltac:(lia) ltac:(lia)).
    rewrite Z.div_0_l in * by lia. lia. }
  assert (Hs : Calendar.utc_date (clock - 90 * 86400) = today - 90).
  { subst today. unfold Calendar.utc_date.
    replace (clock - 90 * 86400) with (clock + (- 90) * 86400) by lia.
    rewrite Z.div_add by lia. lia. }
  split; [|split].
  - unfold since_string. rewrite strftime_utc_date; rewrite Hs; [reflexivity|].
    unfold Calendar.max_ordinal in *. lia.
  - unfold window_dates. intros Hin.
    apply list_elem_of_fmap in Hin as (i & E & Hi).
    rewrite elem_of_reverse, elem_of_seq in Hi.
    apply isoformat_inj in E; unfold Calendar.max_ordinal in *; lia.
  - rewrite window_dates_lookup by lia. do 2 f_equal. lia.
Qed.

Lemma since_day_outside_window_witness :
  String.substring 0 10 (since_string 1793886153 90) = "2026-08-07" /\
  ("2026-08-07" ∉ window_dates (Calendar.utc_date 1793886153)).
Proof.
  destruct (since_day_outside_window 1793886153 ltac:(lia)) as (H1 & H2 & _).
  split; [exact H1 | exact H2].
Defined.

(** ** What the summed map holds *)

Section Aggregate.

Lemma count_for_cons (date : string) (item : string * Z) (daily : list (string * Z)) :
  count_for date (item :: daily)
  = (if decide (item.1 = date) then item.2 else 0) + count_for date daily.
Proof.
  unfold count_for. rewrite filter_cons.
  destruct (decide (item.1 = date)); [rewrite fmap_cons|]; simpl; lia.
Qed.

Lemma add_repo_lookup (daily : list (string * Z)) : forall (m : gmap string Z) (date : string),
  default 0 (add_repo m daily !! date) = default 0 (m !! date) + count_for date daily /\
  (is_Some (add_repo m daily !! date) <-> is_Some (m !! date) \/ date ∈ daily.*1).
Proof.
  unfold add_repo. induction daily as [|[k c] daily IH]; intros m date.
  - simpl. split; [unfold count_for; simpl; lia|].
    split; [auto|]. intros [H|H]; [exact H | now apply elem_of_nil in H].
  - cbn [foldl]. destruct (IH (add_count m (k, c)) date) as [Hv Hk].
    rewrite Hv, Hk, count_for_cons. unfold add_count. cbn [fst snd].
    rewrite fmap_cons, elem_of_cons. cbn [fst].
    destruct (decide (k = date)) as [->|Hne].
    + rewrite lookup_insert_eq. simpl. split; [lia|].
      split; [auto|]. intros _. left. eauto.
    + rewrite lookup_insert_ne by exact Hne. split; [lia|].
      split; [tauto|]. intros [H|[H|H]]; [tauto|congruence|tauto].
Qed.

Lemma aggregate_from (dailies : list (list (string * Z))) :
  forall (m : gmap string Z) (date : string),
  default 0 (foldl add_repo m dailies !! date)
  = default 0 (m !! date) + py_sum (count_for date <$> dailies) /\
  (is_Some (foldl add_repo m dailies !! date)
   <-> is_Some (m !! date) \/ exists daily, daily ∈ dailies /\ date ∈ daily.*1).
Proof.
  induction dailies as [|daily dailies IH]; intros m date.
  - simpl. split; [lia|]. split; [auto|].
    intros [H|(daily & H & _)]; [exact H | now apply elem_of_nil in H].
  - cbn [foldl]. destruct (IH (add_repo m daily) date) as [Hv Hk].
    destruct (add_repo_lookup daily m date) as [Hv' Hk'].
    rewrite Hv, Hk, Hv', Hk', fmap_cons. simpl py_sum. split; [lia|].
    split.
    + intros [[H|H]|(d & Hd & Hin)]; [now left| |].
      * right. exists daily. split; [apply elem_of_cons; now left | exact H].
      * right. exists d. split; [apply elem_of_cons; now right | exact Hin].
    + intros [H|(d & Hd & Hin)]; [left; now left|].
      apply elem_of_cons in Hd as [->|Hd]; [left; now right|].
      right. exists d. split; assumption.
Qed.

End Aggregate.

(** X6: the summed map of the activity job holds a date exactly when some
    repository's series does, under the sum of that date's counts over all
    the series; so each bucket of the chart is the sum, over the
    repositories, of what they count for its date. *)
Theorem aggregate_lookup (dailies : list (list (string * Z))) (date : string) :
  default 0 (aggregate dailies !! date) = py_sum (count_for date <$> dailies) /\
  (is_Some (aggregate dailies !! date)
   <-> exists daily, daily ∈ dailies /\ date ∈ daily.*1) /\
  forall (today : Z) (i : nat), (i < 90)%nat ->
    window_values (aggregate dailies) today !! i
    = Some (py_sum (count_for (Calendar.isoformat (today - 89 + Z.of_nat i)) <$> dailies)).
Proof.
  assert (H : forall d,
            default 0 (aggregate dailies !! d) = py_sum (count_for d <$> dailies) /\
            (is_Some (aggregate dailies !! d)
             <-> exists daily, daily ∈ dailies /\ d ∈ daily.*1)).
  { intros d. unfold aggregate. destruct (aggregate_from dailies ∅ d) as [Hv Hk].
    rewrite Hv, Hk, lookup_empty. simpl. split; [lia|].
    split; [|auto]. intros [[x Hx]|H]; [discriminate | exact H]. }
  destruct (H date) as [Hv Hk]. split; [exact Hv|]. split; [exact Hk|].
  intros today i Hi. unfold window_values.
  rewrite list_lookup_fmap, window_dates_lookup by exact Hi. simpl.
  f_equal. apply H.
Qed.

Lemma aggregate_lookup_witness :
  window_values (aggregate [[("2024-01-01", 3)]; [("2024-01-01", 2)]]) 738975 !! 0%nat
  = Some 5.
Proof.
  destruct (aggregate_lookup [[("2024-01-01", 3)]; [("2024-01-01", 2)]] "2024-01-01")
    as (_ & _ & H).
  rewrite (H 738975 0%nat) by lia. vm_compute. reflexivity.
Defined.

(** ** The plotted points *)

Section Points.
Import Float64.

Lemma x_ok_all (i : nat) : (i < 90)%nat -> x_ok i = true.
Proof.
  intros Hi.
  assert (H : forallb x_ok (seq 0 90) = true) by (vm_compute; reflexivity).
  rewrite forallb_forall in H. apply H. apply in_seq. lia.
Qed.

End Points.

(** X7: in the chart that [main] draws (400 by 120), every plotted value of
    a series of non-negative counts has its [y] between the top and the
    bottom edge of the panel (55 and 100); the [x] of the points increase
    strictly from the left edge, 16, and do not pass the right edge, 384, by
    more than a thousandth. *)
Theorem plotted_points_in_panel (daily_data : gmap string Z) (today : Z) (i : nat) (v : Z) :
  map_Forall (fun _ count => 0 <= count) daily_data ->
  window_values daily_data today !! i = Some v ->
  let m := max_val (window_values daily_data today) in
  let step := Float64.true_div (400 - 32) (90 - 1) in
  (55 <= y_coord 55 (120 - 75) m v /\ y_coord 55 (120 - 75) m v <= 100)%Q /\
  (16 <= x_coord 16 step i /\ x_coord 16 step i <= 384 + (1 # 1000))%Q /\
  (x_coord 16 step i < x_coord 16 step (S i))%Q.
Proof.
  intros Hm Hv m step.
  assert (Hi : (i < 90)%nat).
  { apply lookup_lt_Some in Hv. now rewrite window_values_length in Hv. }
  assert (Hin : v ∈ window_values daily_data today) by (eapply list_elem_of_lookup_2; eauto).
  pose proof (window_values_nonneg daily_data today Hm) as Hnn.
  rewrite Forall_forall in Hnn. specialize (Hnn v Hin).
  destruct (max_val_spec (window_values daily_data today)) as (H1 & Hub & _ & _).
  rewrite Forall_forall in Hub. specialize (Hub v Hin). fold m in H1, Hub.
  split; [|].
  - pose proof (y_coord_top 55 (120 - 75) m ltac:(lia) ltac:(simpl; lia) ltac:(simpl; lia)) as Ht.
    pose proof (y_coord_bottom 55 (120 - 75) m ltac:(lia) ltac:(simpl; lia)) as Hb.
    pose proof (y_coord_antitone 55 (120 - 75) m v m ltac:(lia) ltac:(lia) Hub) as A1.
    pose proof (y_coord_antitone 55 (120 - 75) m 0 v ltac:(lia) ltac:(lia) Hnn) as A2.
    change (inject_Z 55) with 55%Q in Ht.
    change (inject_Z (55 + (120 - 75))) with 100%Q in Hb.
    split; lra.
  - pose proof (x_ok_all i Hi) as Hx. unfold x_ok in Hx. cbv zeta in Hx.
    rewrite !andb_true_iff, negb_true_iff, !Qle_bool_iff in Hx.
    destruct Hx as [[X1 X2] X3].
    change (400 - 32) with 368 in step. change (90 - 1) with 89 in step. subst step.
    split; [split; assumption|].
    apply Qnot_le_lt. intros Hc. apply Qle_bool_iff in Hc. congruence.
Qed.

Lemma plotted_points_in_panel_witness :
  let m := max_val (window_values {[ "2026-11-04" := 3 ]} 739925) in
  (55 <= y_coord 55 (120 - 75) m 3)%Q.
Proof.
  intros m. subst m.
  assert (Hm : map_Forall (fun (_ : string) count => 0 <= count)
                 ({[ "2026-11-04" := 3 ]} : gmap string Z)).
  { apply map_Forall_singleton. lia. }
  destruct (plotted_points_in_panel {[ "2026-11-04" := 3 ]} 739925 88 3 Hm)
    as ((H & _) & _); [vm_compute; reflexivity | exact H].
Defined.

(** ** The rows of the leaderboard *)

(** X10: the leaderboard lists the ten repositories of the largest totals
    (all of them when there are fewer), largest first: no repository left
    out has a larger total than one listed. The total that scales the boxes
    is the largest total of all repositories, and is the total of a listed
    one. *)
Theorem top_repos_spec (repo_stats : list (string * stats)) :
  let top := top_repos repo_stats in
  length top = Nat.min 10 (length repo_stats) /\
  StronglySorted (fun a b => sort_key b <= sort_key a) top /\
  (exists rest, repo_stats ≡ₚ top ++ rest /\
     forall a b, a ∈ top -> b ∈ rest -> sort_key b <= sort_key a) /\
  (repo_stats <> [] ->
     py_max (sort_key <$> top) ∈ (sort_key <$> top) /\
     Forall (fun x => sort_key x <= py_max (sort_key <$> top)) repo_stats).
Proof.
  intros top. subst top. unfold top_repos.
  set (s := sorted_desc sort_key repo_stats).
  assert (Hp : s ≡ₚ repo_stats) by apply sorted_desc_perm.
  assert (Hs : StronglySorted (fun a b => sort_key b <= sort_key a) (take 10 s ++ drop 10 s)).
  { rewrite take_drop. apply sorted_desc_sorted. }
  apply StronglySorted_app in Hs as (Hcross & Htop & _).
  split; [rewrite length_take, (Permutation_length Hp); reflexivity|].
  split; [exact Htop|].
  split.
  { exists (drop 10 s). split; [now rewrite take_drop|]. intros a b Ha Hb. now apply Hcross. }
  intros Hne.
  assert (Hne' : sort_key <$> take 10 s <> []).
  { destruct s as [|x s']; [|discriminate].
    apply Permutation_nil_l in Hp. congruence. }
  destruct (py_max_spec _ Hne') as [Hin Hub].
  split; [exact Hin|].
  rewrite Forall_forall. intros x Hx. rewrite <- Hp, <- (take_drop 10 s) in Hx.
  rewrite Forall_forall in Hub.
  apply elem_of_app in Hx as [Hx|Hx].
  - apply Hub, list_elem_of_fmap. eauto.
  - destruct s as [|y s']; [now apply elem_of_nil in Hx|].
    assert (Hy : y ∈ take 10 (y :: s')) by (simpl; apply elem_of_cons; now left).
    specialize (Hcross y x Hy Hx). simpl in Hcross.
    assert (sort_key y <= py_max (sort_key <$> take 10 (y :: s'))).
    { apply Hub, list_elem_of_fmap. eauto. }
    lia.
Qed.

(** ** The collection rounds *)

Section Rounds.

Variable srv : server.
Variable repo_names : list string.

Lemma dict_set_app_fresh {V : Type} (k : string) (v : V) (d e : list (string * V)) :
  k ∉ dict_keys d -> dict_set k v (d ++ e) = d ++ dict_set k v e.
Proof.
  unfold dict_keys. induction d as [|[k' v'] d IH]; intros Hk; [reflexivity|].
  rewrite fmap_cons in Hk. apply not_elem_of_cons in Hk as [Hne Hk]. cbn [fst] in Hne.
  rewrite <- app_comm_cons. cbn [dict_set].
  destruct (String.eqb_spec k' k) as [E|_]; [congruence|].
  now rewrite IH.
Qed.

Lemma dict_set_elem {V : Type} (k : string) (v : V) (d : list (string * V))
  (x : string * V) :
  x ∈ dict_set k v d -> x = (k, v) \/ x ∈ d.
Proof.
  induction d as [|[k' v'] d IH]; cbn [dict_set].
  - rewrite elem_of_cons. intros [->|H]; [now left | now apply elem_of_nil in H].
  - destruct (String.eqb_spec k' k) as [E|_]; rewrite !elem_of_cons.
    + subst k'. intros [->|H]; auto.
    + intros [->|H]; auto. destruct (IH H); auto.
Qed.

Lemma record_stats_appended (d e : list (string * stats)) (k : string) (cf : list week) :
  k ∈ repo_names -> k ∉ dict_keys d -> appended repo_names d e ->
  exists e', record_stats (d ++ e) k cf = d ++ e' /\ appended repo_names d e'.
Proof.
  intros Hk Hd He. unfold record_stats.
  destruct cf as [|wk cf]; [now exists e|].
  set (rows := filter _ _).
  destruct (_ || _) eqn:Hc; [|now exists e].
  exists (dict_set k (Stats (py_sum ((fun wk => nth 1 wk 0) <$> rows))
                            (py_sum ((fun wk => nth 2 wk 0) <$> rows))) e).
  split; [now apply dict_set_app_fresh|].
  destruct He as [Hnd He]. split; [now apply dict_set_NoDup|].
  intros x Hx. apply dict_set_elem in Hx as [->|Hx]; [|now apply He].
  cbn [fst snd additions deletions]. split; [exact Hk|]. split; [exact Hd|].
  apply orb_true_iff in Hc as [Hc|Hc]; [left|right]; lia.
Qed.

Lemma pending_appended (pending : list string) :
  forall (d e : list (string * stats)) (w : world),
  (forall k, k ∈ pending -> k ∈ repo_names /\ k ∉ dict_keys d) ->
  appended repo_names d e ->
  exists e', (foldl (process_repo srv) (d ++ e, w) pending).1 = d ++ e' /\ appended repo_names d e'.
Proof.
  induction pending as [|k pending IH]; intros d e w Hp He; [now exists e|].
  cbn [foldl]. unfold process_repo at 2. cbn [fst snd].
  destruct (get_code_frequency srv k w) as [cf w'].
  destruct (Hp k) as [Hk Hd]; [apply elem_of_cons; now left|].
  destruct (record_stats_appended d e k cf Hk Hd He) as (e1 & -> & He1).
  apply IH; [|exact He1]. intros x Hx. apply Hp, elem_of_cons. now right.
Qed.

Lemma appended_app (d e f : list (string * stats)) :
  appended repo_names d e -> appended repo_names (d ++ e) f -> appended repo_names d (e ++ f).
Proof.
  intros [Hnd He] [Hnf Hf]. split.
  - unfold dict_keys in *. rewrite fmap_app. apply NoDup_app. split; [exact Hnd|].
    split; [|exact Hnf].
    intros k Hk Hk'. apply list_elem_of_fmap in Hk' as (x & -> & Hx).
    destruct (Hf x Hx) as (_ & Hn & _). apply Hn. rewrite fmap_app, elem_of_app. now right.
  - intros x Hx. apply elem_of_app in Hx as [Hx|Hx]; [now apply He|].
    destruct (Hf x Hx) as (H1 & H2 & H3). split; [exact H1|]. split; [|exact H3].
    intros Hc. apply H2. unfold dict_keys in *. rewrite fmap_app, elem_of_app. now left.
Qed.

Lemma appended_nil (d : list (string * stats)) : appended repo_names d [].
Proof. split; [constructor|]. intros x Hx. now apply elem_of_nil in Hx. Qed.

Lemma rounds_appended (n : nat) : forall st : list (string * stats) * world,
  exists added, (rounds n srv repo_names st).1 = st.1 ++ added /\ appended repo_names st.1 added.
Proof.
  induction n as [|n IH]; intros [d w]; cbn [rounds fst].
  { exists []. split; [now rewrite app_nil_r | apply appended_nil]. }
  destruct (filter (fun name => name ∉ dict_keys d) repo_names) as [|k pending] eqn:E.
  { exists []. split; [now rewrite app_nil_r | apply appended_nil]. }
  rewrite <- E.
  destruct (pending_appended (filter (fun name => name ∉ dict_keys d) repo_names) d [] w)
    as (e & He & Ha).
  { intros x Hx. apply list_elem_of_filter in Hx as [H1 H2]. split; assumption. }
  { apply appended_nil. }
  rewrite app_nil_r in He.
  destruct (IH (foldl (process_repo srv) (d, w)
                  (filter (fun name => name ∉ dict_keys d) repo_names)))
    as (f & Hf & Hb).
  rewrite He in Hb. exists (e ++ f). split.
  - rewrite Hf, He. now rewrite app_assoc.
  - now apply appended_app.
Qed.

(** The cost of one fetch. *)
Lemma fetch_cost (k : string) (w : world) :
  let w' := (get_code_frequency srv k w).2 in
  (requests w + 1 <= requests w' <= requests w + 12)%nat /\
  slept w <= slept w' <= slept w + 60000.
Proof.
  unfold get_code_frequency.
  destruct (poll_outcome srv k 12 0 w eq_refl)
    as [(n & Hn & _ & _ & _ & ->)|[(n & Hn & _ & _ & _ & ->)|(_ & ->)]];
    cbn [snd after_polls requests slept]; lia.
Qed.

Lemma process_repo_cost (st : list (string * stats) * world) (k : string) :
  within st.2 (process_repo srv st k).2 1.
Proof.
  unfold process_repo. pose proof (fetch_cost k st.2) as Hc. cbv zeta in Hc.
  destruct (get_code_frequency srv k st.2) as [cf w']. cbn [fst snd] in *.
  unfold within. cbn [sleep requests slept]. lia.
Qed.

Lemma pending_cost (pending : list string) : forall st : list (string * stats) * world,
  within st.2 (foldl (process_repo srv) st pending).2 (length pending).
Proof.
  induction pending as [|k pending IH]; intros st; cbn [foldl length].
  { unfold within. lia. }
  specialize (IH (process_repo srv st k)).
  pose proof (process_repo_cost st k) as Hc.
  unfold within in *. lia.
Qed.

Lemma rounds_cost (n : nat) : forall st : list (string * stats) * world,
  (requests st.2 <= requests (rounds n srv repo_names st).2
     <= requests st.2 + 12 * (n * length repo_names))%nat /\
  slept st.2 <= slept (rounds n srv repo_names st).2
     <= slept st.2 + 60500 * Z.of_nat (n * length repo_names).
Proof.
  induction n as [|n IH]; intros st; cbn [rounds]; [lia|].
  destruct (filter (fun name => name ∉ dict_keys st.1) repo_names) as [|k pending] eqn:E;
    [lia|].
  rewrite <- E.
  pose proof (pending_cost (filter (fun name => name ∉ dict_keys st.1) repo_names) st) as Hp.
  pose proof (length_filter (fun name => name ∉ dict_keys st.1) repo_names) as Hl.
  specialize (IH (foldl (process_repo srv) st
                    (filter (fun name => name ∉ dict_keys st.1) repo_names))).
  unfold within in Hp. nia.
Qed.

Lemma filter_not_in_nil (names : list string) :
  filter (fun name => name ∉ dict_keys ([] : list (string * stats))) names = names.
Proof.
  induction names as [|k names IH]; [reflexivity|].
  rewrite filter_cons, IH.
  destruct (decide (k ∉ dict_keys ([] : list (string * stats)))) as [_|H]; [reflexivity|].
  exfalso. apply H. intros Hc. now apply elem_of_nil in Hc.
Qed.

End Rounds.

(** X11: whatever the statistics endpoint answers, the entries that [main]
    collects have distinct names, all of them listed names, each has some
    addition or some deletion, and they are no more than the listed
    repositories. *)
Theorem collect_entries (srv : server) (repo_names : list string) (w : world) :
  let repo_stats := (collect srv repo_names w).1 in
  NoDup (dict_keys repo_stats) /\
  (forall x : string * stats, x ∈ repo_stats ->
     x.1 ∈ repo_names /\ (0 < additions x.2 \/ deletions x.2 < 0)) /\
  (length repo_stats <= length repo_names)%nat.
Proof.
  intros repo_stats. subst repo_stats. unfold collect.
  destruct (rounds_appended srv repo_names 3 ([], w)) as (added & -> & Hnd & Ha).
  cbn [fst app].
  assert (Hin : forall x : string * stats, x ∈ added ->
            x.1 ∈ repo_names /\ (0 < additions x.2 \/ deletions x.2 < 0)).
  { intros x Hx. destruct (Ha x Hx) as (H1 & _ & H3). split; assumption. }
  split; [exact Hnd|]. split; [exact Hin|].
  replace (length added) with (length (dict_keys added))
    by (unfold dict_keys; apply length_fmap).
  apply submseteq_length, NoDup_submseteq; [exact Hnd|].
  intros k Hk. unfold dict_keys in Hk. apply list_elem_of_fmap in Hk as (x & -> & Hx).
  now apply Hin.
Qed.

(** X13: the retry rounds only append. What was stored when the rounds begin
    keeps its value and its place, and what is added is one entry each for
    distinct listed names that were not stored before. *)
Theorem rounds_only_append (srv : server) (repo_names : list string) (n : nat)
  (st : list (string * stats) * world) :
  exists added : list (string * stats),
    (rounds n srv repo_names st).1 = st.1 ++ added /\
    NoDup (dict_keys added) /\
    forall k : string, k ∈ dict_keys added -> k ∈ repo_names /\ k ∉ dict_keys st.1.
Proof.
  destruct (rounds_appended srv repo_names n st) as (added & E & Hnd & Ha).
  exists added. split; [exact E|]. split; [exact Hnd|].
  intros k Hk. unfold dict_keys in Hk. apply list_elem_of_fmap in Hk as (x & -> & Hx).
  destruct (Ha x Hx) as (H1 & H2 & _). split; assumption.
Qed.

(** X12: the collection ends within bounds that depend only on the number
    of listed repositories: at least one request and half a second of sleep
    for each, at most 36 requests and 181.5 seconds of sleep for each (three
    rounds of at most twelve polls five seconds apart, and the half second
    after each fetch). Times are in milliseconds. *)
Theorem collect_cost (srv : server) (repo_names : list string) (w : world) :
  let w' := (collect srv repo_names w).2 in
  (requests w + length repo_names <= requests w'
     <= requests w + 36 * length repo_names)%nat /\
  slept w + 500 * Z.of_nat (length repo_names) <= slept w'
     <= slept w + 181500 * Z.of_nat (length repo_names).
Proof.
  intros w'. subst w'. unfold collect.
  change (rounds 3 srv repo_names ([], w)) with
    (match filter (fun name => name ∉ dict_keys ([] : list (string * stats))) repo_names with
     | [] => ([], w)
     | _ :: _ => rounds 2 srv repo_names
                   (foldl (process_repo srv) ([], w)
                      (filter (fun name => name ∉ dict_keys ([] : list (string * stats)))
                         repo_names))
     end).
  rewrite filter_not_in_nil.
  destruct repo_names as [|k names] eqn:E; [cbn [snd length]; lia|].
  rewrite <- E.
  pose proof (pending_cost srv repo_names ([], w)) as Hp.
  pose proof (rounds_cost srv repo_names 2 (foldl (process_repo srv) ([], w) repo_names)) as Hr.
  unfold within in Hp. cbn [snd] in Hp. lia.
Qed.

(** ** A server that does not change its answers *)

Section Steady.

Variable srv : server.
Variable repo_names : list string.
Hypothesis srv_steady : steady srv.

Lemma fetch_steady (k : string) (w : world) :
  (get_code_frequency srv k w).1 = steady_series srv k.
Proof.
  unfold get_code_frequency, steady_series.
  destruct (poll_outcome srv k 12 0 w eq_refl)
    as [(n & _ & _ & H2 & _ & ->)|[(n & _ & _ & H2 & _ & ->)|(Hk & ->)]]; cbn [fst].
  - rewrite srv_steady in H2 |- *. now rewrite H2.
  - rewrite srv_steady in H2. destruct (Z.eqb_spec (status_code (srv k O)) 200); congruence.
  - specialize (Hk O ltac:(lia)). rewrite srv_steady in Hk.
    destruct Hk as [Hk|[Hk Hj]]; [now rewrite Hk|]. now rewrite Hk, Hj.
Qed.

Lemma pending_steady (pending : list string) : forall st : list (string * stats) * world,
  (foldl (process_repo srv) st pending).1 = one_pass srv st.1 pending.
Proof.
  induction pending as [|k pending IH]; intros st; [reflexivity|].
  cbn [foldl]. rewrite IH. unfold one_pass. cbn [foldl]. f_equal.
  unfold process_repo. pose proof (fetch_steady k st.2) as H.
  destruct (get_code_frequency srv k st.2) as [cf w']. cbn [fst] in *. now rewrite H.
Qed.

Lemma record_stats_cases (rs : list (string * stats)) (k : string) (cf : list week) :
  record_stats rs k cf
  = match stats_of (k, cf) with Some p => dict_set k p.2 rs | None => rs end.
Proof.
  unfold record_stats, stats_of. cbn [fst snd].
  destruct cf as [|wk cf]; [reflexivity|]. now destruct (_ || _).
Qed.

Lemma record_stats_keys (rs : list (string * stats)) (k x : string) (cf : list week) :
  x ∈ dict_keys rs -> x ∈ dict_keys (record_stats rs k cf).
Proof.
  intros Hx. rewrite record_stats_cases. destruct (stats_of (k, cf)); [|exact Hx].
  apply dict_set_key_iff. now right.
Qed.

Lemma one_pass_keys_mono (names : list string) : forall (rs : list (string * stats)) (x : string),
  x ∈ dict_keys rs -> x ∈ dict_keys (one_pass srv rs names).
Proof.
  induction names as [|k names IH]; intros rs x Hx; [exact Hx|].
  unfold one_pass. cbn [foldl]. apply IH. now apply record_stats_keys.
Qed.

Lemma one_pass_keys (names : list string) : forall (rs : list (string * stats)) (k : string),
  k ∈ names -> stats_of (k, steady_series srv k) <> None ->
  k ∈ dict_keys (one_pass srv rs names).
Proof.
  induction names as [|k0 names IH]; intros rs k Hk Hs; [now apply elem_of_nil in Hk|].
  unfold one_pass. cbn [foldl].
  apply elem_of_cons in Hk as [->|Hk]; [|now apply IH].
  apply one_pass_keys_mono. rewrite record_stats_cases.
  destruct (stats_of (k0, steady_series srv k0)); [|congruence].
  apply dict_set_key_iff. now left.
Qed.

Lemma one_pass_noop (names : list string) (rs : list (string * stats)) :
  (forall k, k ∈ names -> stats_of (k, steady_series srv k) = None) ->
  one_pass srv rs names = rs.
Proof.
  induction names as [|k names IH]; intros H; [reflexivity|].
  unfold one_pass. cbn [foldl]. rewrite record_stats_cases, H by (apply elem_of_cons; now left).
  apply IH. intros x Hx. apply H, elem_of_cons. now right.
Qed.

Lemma rounds_after_pass (n : nat) : forall st : list (string * stats) * world,
  st.1 = one_pass srv [] repo_names ->
  (rounds n srv repo_names st).1 = one_pass srv [] repo_names.
Proof.
  induction n as [|n IH]; intros st Hst; cbn [rounds]; [exact Hst|].
  destruct (filter (fun name => name ∉ dict_keys st.1) repo_names) as [|k pending] eqn:E;
    [exact Hst|].
  rewrite <- E. apply IH. rewrite pending_steady, one_pass_noop; [exact Hst|].
  intros x Hx. apply list_elem_of_filter in Hx as [Hn Hx].
  destruct (stats_of (x, steady_series srv x)) eqn:Es; [|reflexivity].
  exfalso. apply Hn. rewrite Hst. apply one_pass_keys; [exact Hx|]. now rewrite Es.
Qed.

Lemma collect_one_pass (w : world) :
  (collect srv repo_names w).1 = one_pass srv [] repo_names.
Proof.
  unfold collect.
  change (rounds 3 srv repo_names ([], w)) with
    (match filter (fun name => name ∉ dict_keys ([] : list (string * stats))) repo_names with
     | [] => ([], w)
     | _ :: _ => rounds 2 srv repo_names
                   (foldl (process_repo srv) ([], w)
                      (filter (fun name => name ∉ dict_keys ([] : list (string * stats)))
                         repo_names))
     end).
  rewrite filter_not_in_nil.
  destruct repo_names as [|k names] eqn:E; [reflexivity|].
  rewrite <- E. apply rounds_after_pass. now rewrite pending_steady.
Qed.

End Steady.

(** X16: against a server whose answer for a repository does not change
    during the run, the second and third rounds add nothing: the collected
    statistics are those of a single pass over the listed names, each
    recorded from the body of its 200 answer (nothing for another status). *)
Theorem collect_steady_server (srv : server) (repo_names : list string) (w : world) :
  steady srv ->
  (collect srv repo_names w).1
  = record_all ((fun k => (k, steady_series srv k)) <$> repo_names).
Proof.
  intros Hs. rewrite collect_one_pass by exact Hs.
  unfold record_all. generalize ([] : list (string * stats)).
  induction repo_names as [|k names IH]; intros rs; [reflexivity|].
  rewrite fmap_cons. cbn [foldl fst snd]. apply IH.
Qed.

Lemma collect_steady_server_witness :
  (collect demo_server ["ok"; "slow"; "gone"] (World 0 0)).1
  = [("ok", Stats 5 (-1))].
Proof.
  rewrite (collect_steady_server demo_server ["ok"; "slow"; "gone"] (World 0 0)).
  - reflexivity.
  - intros k t. reflexivity.
Defined.

(** ** The jobs after a listing that fails *)

(** X15: when the first page of the listing is refused or empty, neither job
    fails: the lines job writes the leaderboard of no repositories, without
    a request to the statistics endpoint, and the activity job writes the
    chart of no commits. *)
Theorem jobs_when_listing_fails (h : host) (srv : server) (clock : Z) (clocks : nat -> Z)
  (fuel : nat) (w : world) :
  listing_stops (repos_page h 0) ->
  lines_job (S fuel) h srv clock = Some (generate_lines_svg [] 480 clock) /\
  activity_job (S fuel) h clocks = Some (generate_full_activity_svg ∅ 400 120 (clocks O)) /\
  collect srv [] w = ([], w).
Proof.
  intros Hstop.
  assert (E : get_org_repos (S fuel) h = Some []).
  { unfold get_org_repos. cbn [get_org_repos_from]. unfold repos_page in Hstop.
    change (1 + Z.of_nat 0) with 1 in Hstop.
    destruct Hstop as [Hs|Hi].
    - destruct (Z.eqb_spec (page_status (h (repos_url 1))) 200); [contradiction|reflexivity].
    - destruct (negb _); [reflexivity|]. now rewrite Hi. }
  unfold lines_job, activity_job. rewrite E. repeat split.
Qed.

Lemma jobs_when_listing_fails_witness :
  lines_job 1 failing_host demo_server 0 = Some (generate_lines_svg [] 480 0).
Proof.
  apply (jobs_when_listing_fails failing_host demo_server 0 (fun _ => 0) 0 (World 0 0)).
  left. vm_compute. discriminate.
Defined.

(** ** The commits that the chart counts *)

Section Label.

Lemma count_for_dict_get (date : string) (daily : list (string * Z)) :
  NoDup (dict_keys daily) -> count_for date daily = default 0 (dict_get date daily).
Proof.
  unfold dict_keys. induction daily as [|[k c] daily IH]; intros Hnd; [reflexivity|].
  rewrite fmap_cons in Hnd. apply NoDup_cons in Hnd as [Hk Hnd]. cbn [fst] in Hk.
  rewrite count_for_cons. cbn [dict_get fst snd].
  destruct (String.eqb_spec k date) as [->|Hne].
  - rewrite decide_True by reflexivity. cbn [default from_option id].
    assert (H0 : count_for date daily = 0); [|lia].
    unfold count_for. clear IH Hnd.
    induction daily as [|[k' c'] daily IH]; [reflexivity|].
    rewrite fmap_cons in Hk. apply not_elem_of_cons in Hk as [Hne Hk]. cbn [fst] in Hne.
    rewrite filter_cons. cbn [fst].
    destruct (decide (k' = date)); [congruence|]. now apply IH.
  - rewrite decide_False by exact Hne. rewrite IH by exact Hnd. lia.
Qed.

(** What the summed map holds for a date, when the series come from the
    counting loop: the number of fetched commits of that date. *)
Lemma aggregate_counts (fetched : list (list string)) (date : string) :
  default 0 (aggregate (count_commits [] <$> fetched) !! date)
  = Z.of_nat (length (filter (fun c => String.substring 0 10 c = date) (concat fetched))).
Proof.
  unfold aggregate.
  destruct (aggregate_from (count_commits [] <$> fetched) ∅ date) as [-> _].
  rewrite lookup_empty. cbn [default from_option id].
  induction fetched as [|data fetched IH]; [reflexivity|].
  rewrite !fmap_cons. cbn [concat]. rewrite filter_app, length_app.
  cbn [py_sum foldr]. change (foldr Z.add 0 ?l) with (py_sum l).
  destruct (count_commits_from data [] ltac:(constructor) ltac:(constructor))
    as (Hnd & _ & _ & G & _). cbv zeta in Hnd, G.
  rewrite count_for_dict_get by exact Hnd. rewrite G. cbn [dict_get default from_option id].
  lia.
Qed.

Lemma length_filter_cons_key {A : Type} (f : A -> string) (k : string) (ks : list string)
  (l : list A) :
  k ∉ ks ->
  length (filter (fun c => f c ∈ k :: ks) l)
  = (length (filter (fun c => f c = k) l) + length (filter (fun c => f c ∈ ks) l))%nat.
Proof.
  intros Hk. induction l as [|c l IH]; [reflexivity|].
  rewrite !filter_cons.
  destruct (decide (f c = k)) as [E|Hne].
  - rewrite (decide_True (P := f c ∈ k :: ks)) by (apply elem_of_cons; now left).
    rewrite (decide_False (P := f c ∈ ks)) by congruence.
    cbn [length]. lia.
  - destruct (decide (f c ∈ ks)) as [Hin|Hin].
    + rewrite (decide_True (P := f c ∈ k :: ks)) by (apply elem_of_cons; now right).
      cbn [length]. lia.
    + rewrite (decide_False (P := f c ∈ k :: ks)) by (rewrite elem_of_cons; tauto).
      exact IH.
Qed.

Lemma sum_counts_by_key {A : Type} (f : A -> string) (l : list A) (ks : list string) :
  NoDup ks ->
  py_sum ((fun d => Z.of_nat (length (filter (fun c => f c = d) l))) <$> ks)
  = Z.of_nat (length (filter (fun c => f c ∈ ks) l)).
Proof.
  induction 1 as [|k ks Hk Hnd IH].
  - simpl. assert (H : filter (fun c => f c ∈ ([] : list string)) l = []); [|now rewrite H].
    induction l as [|c l IHl]; [reflexivity|].
    rewrite filter_cons. destruct (decide (f c ∈ [])) as [H|_]; [|exact IHl].
    now apply elem_of_nil in H.
  - rewrite fmap_cons. cbn [py_sum foldr]. change (foldr Z.add 0 ?x) with (py_sum x).
    rewrite IH, length_filter_cons_key by exact Hk. lia.
Qed.

End Label.

(** X17: the number of commits that the chart prints is the number of
    fetched commits whose author date begins with one of the 90 dates of the
    window: counting by day and summing over the repositories neither drops
    nor repeats a commit of the window, and counts none outside it. *)
Theorem commits_label_counts_window (fetched : list (list string)) (today : Z) :
  valid_today today ->
  py_sum (window_values (aggregate (count_commits [] <$> fetched)) today)
  = Z.of_nat (length (filter (fun c => String.substring 0 10 c ∈ window_dates today)
                        (concat fetched))).
Proof.
  intros Ht. unfold window_values.
  rewrite <- (sum_counts_by_key (String.substring 0 10) (concat fetched) (window_dates today))
    by now apply window_dates_NoDup.
  f_equal. apply list_fmap_ext. intros i d _. apply aggregate_counts.
Qed.

Lemma commits_label_counts_window_witness :
  py_sum (window_values
            (aggregate (count_commits [] <$>
               [["2026-11-04T10:00:00Z"; "2026-01-01T00:00:00Z"]; ["2026-11-03T23:59:59Z"]]))
            739925) = 2.
Proof.
  rewrite commits_label_counts_window; [vm_compute; reflexivity|].
  unfold valid_today. vm_compute. split; discriminate.
Defined.
